(** * Verification of the Qdrant database adapter (src/src/client.ts)

    A shallow embedding of [QdrantDatabaseAdapter]: the content normalizer
    [preprocess] with the regular expressions it applies, the result cache,
    the record mappers, the filter construction and the calls the adapter
    issues to the vector store, followed by the properties of the
    specification that concern them. *)

From Stdlib Require Import Floats ZArith NArith Ascii String List Bool Lia.
From Stdlib Require Import DecimalString.
From stdpp Require Import gmap strings.
Import ListNotations.

Set Warnings "-inexact-float".

Local Open Scope Z_scope.

(* ===================================================================== *)
(** * Regular expressions as [String.prototype.replace] runs them        *)
(* ===================================================================== *)

(** A JavaScript string is a sequence of UTF-16 code units; none of the
    regular expressions of [preprocess] carries the [u] flag, so matching
    works code unit by code unit. *)
Module Regex.

Definition char := N.
Definition text := list char.

Definition of_ascii (a : ascii) : char := N_of_ascii a.

Fixpoint of_string (s : string) : text :=
  match s with
  | EmptyString => []
  | String a s' => of_ascii a :: of_string s'
  end.

Definition is_char (a : ascii) (c : char) : bool := N.eqb c (of_ascii a).

Definition between (lo hi : ascii) (c : char) : bool :=
  N.leb (of_ascii lo) c && N.leb c (of_ascii hi).

(** LineTerminator: LF, CR, U+2028, U+2029. *)
Definition line_terminator (c : char) : bool :=
  N.eqb c 10 || N.eqb c 13 || N.eqb c 8232 || N.eqb c 8233.

(** [\s]: WhiteSpace and LineTerminator of ECMAScript. *)
Definition white_space (c : char) : bool :=
  (N.leb 9 c && N.leb c 13) || N.eqb c 32 || N.eqb c 160 || N.eqb c 5760
  || (N.leb 8192 c && N.leb c 8202) || N.eqb c 8232 || N.eqb c 8233
  || N.eqb c 8239 || N.eqb c 8287 || N.eqb c 12288 || N.eqb c 65279.

(** [.] without the [s] flag. *)
Definition dot (c : char) : bool := negb (line_terminator c).

(** [[\s\S]]. *)
Definition any (c : char) : bool := true.

(** [\d]. *)
Definition digit (c : char) : bool := between "0" "9" c.

Inductive regex : Type :=
| Empty                                   (* the empty pattern *)
| Chr (p : char -> bool)                  (* one code unit: literal, class, [.] *)
| Seq (r1 r2 : regex)                     (* concatenation *)
| Rep (greedy : bool) (lo : nat) (hi : option nat) (r : regex)
                                          (* quantifier {lo,hi}; [None] is no upper bound *)
| Group (i : nat) (r : regex)             (* capturing group number [i] *)
| Bol                                     (* [^] under the [m] flag *)
| Eol.                                    (* [$] under the [m] flag *)

(** A literal run of characters. *)
Fixpoint lit (s : string) : regex :=
  match s with
  | EmptyString => Empty
  | String a EmptyString => Chr (is_char a)
  | String a s' => Seq (Chr (is_char a)) (lit s')
  end.

Definition star (r : regex) : regex := Rep true 0 None r.
Definition lazy_star (r : regex) : regex := Rep false 0 None r.
Definition plus (r : regex) : regex := Rep true 1 None r.
Definition opt (r : regex) : regex := Rep true 0 (Some 1%nat) r.

(** Captures: the most recent binding of a group comes first. *)
Definition captures := list (nat * text).

Fixpoint capture (i : nat) (c : captures) : option text :=
  match c with
  | [] => None
  | (j, t) :: c' => if Nat.eqb i j then Some t else capture i c'
  end.

Fixpoint groups_of (r : regex) : list nat :=
  match r with
  | Seq r1 r2 => groups_of r1 ++ groups_of r2
  | Rep _ _ _ r1 => groups_of r1
  | Group i r1 => i :: groups_of r1
  | _ => []
  end.

Definition reset (gs : list nat) (c : captures) : captures :=
  List.filter (fun b => negb (existsb (Nat.eqb (fst b)) gs)) c.

(** A continuation receives the code unit before the current position, the
    rest of the input and the captures; it returns the rest of the input
    after the whole match. *)
Definition cont := option char -> text -> captures -> option (text * captures).

Definition at_line_start (prev : option char) : bool :=
  match prev with
  | None => true
  | Some c => line_terminator c
  end.

Definition at_line_end (s : text) : bool :=
  match s with
  | [] => true
  | c :: _ => line_terminator c
  end.

Definition dec_max (hi : option nat) : option nat :=
  match hi with
  | None => None
  | Some h => Some (Nat.pred h)
  end.

Definition max_is_zero (hi : option nat) : bool :=
  match hi with
  | Some O => true
  | _ => false
  end.

(** The RepeatMatcher of ECMAScript for a quantifier whose atom is matched
    by [body]: [lo] and [hi] are the bounds left, [k] is the continuation
    of the quantifier. An iteration that is not required and consumes
    nothing is rejected. The counter [n] bounds [lo] plus the length of
    the remaining input: an iteration either counts towards [lo] or has to
    consume a code unit, so that at [n = 0] no further iteration can
    succeed and the loop hands over to [k]. *)
Section RepeatMatcher.

Variable body : option char -> text -> captures -> cont ->
                option (text * captures).
Variable gs : list nat.
Variable greedy : bool.
Variable k : cont.

Fixpoint repeat_loop (n lo : nat) (hi : option nat) (prev : option char)
         (s : text) (c : captures) {struct n} : option (text * captures) :=
  if max_is_zero hi then k prev s c else
  match n with
  | O => k prev s c
  | S n' =>
      let iter :=
        body prev s (reset gs c)
             (fun prev' s' c' =>
                if Nat.eqb lo 0 && Nat.eqb (length s') (length s)
                then None
                else repeat_loop n' (Nat.pred lo) (dec_max hi) prev' s' c') in
      if negb (Nat.eqb lo 0) then iter
      else if greedy then
        match iter with
        | Some z => Some z
        | None => k prev s c
        end
      else
        match k prev s c with
        | Some z => Some z
        | None => iter
        end
  end.

End RepeatMatcher.

(** The backtracking matcher of ECMAScript. *)
Fixpoint run (r : regex) (prev : option char) (s : text) (c : captures)
         (k : cont) {struct r} : option (text * captures) :=
  match r with
  | Empty => k prev s c
  | Chr p =>
      match s with
      | x :: s' => if p x then k (Some x) s' c else None
      | [] => None
      end
  | Seq r1 r2 => run r1 prev s c (fun prev' s' c' => run r2 prev' s' c' k)
  | Group i r1 =>
      run r1 prev s c
          (fun prev' s' c' =>
             k prev' s' ((i, firstn (length s - length s') s) :: c'))
  | Bol => if at_line_start prev then k prev s c else None
  | Eol => if at_line_end s then k prev s c else None
  | Rep greedy lo hi r1 =>
      repeat_loop (run r1) (groups_of r1) greedy k
                  (lo + length s)%nat lo hi prev s c
  end.

(** One attempt at the current position. *)
Definition exec (r : regex) (prev : option char) (s : text)
  : option (text * captures) :=
  run r prev s [] (fun _ s' c' => Some (s', c')).

(** Replacement templates: literal text and [$n]. *)
Inductive piece : Type :=
| Lit (t : text)
| Ref (i : nat).

Definition template := list piece.

Definition expand_piece (c : captures) (p : piece) : text :=
  match p with
  | Lit t => t
  | Ref i => match capture i c with
             | Some t => t
             | None => []
             end
  end.

Definition expand (tpl : template) (c : captures) : text :=
  flat_map (expand_piece c) tpl.

(** [s.replace(/r/g, tpl)]: scan from left to right; [skip] counts the code
    units of the current match still to be passed over. After an empty
    match the scan advances by one code unit, which is copied. *)
Fixpoint replace_from (r : regex) (tpl : template) (prev : option char)
         (s : text) (skip : nat) {struct s} : text :=
  match skip with
  | S j =>
      match s with
      | [] => []
      | x :: s' => replace_from r tpl (Some x) s' j
      end
  | O =>
      match exec r prev s with
      | Some (rest, c) =>
          expand tpl c ++
          match s with
          | [] => []
          | x :: s' =>
              match (length s - length rest)%nat with
              | O => x :: replace_from r tpl (Some x) s' 0
              | S j => replace_from r tpl (Some x) s' j
              end
          end
      | None =>
          match s with
          | [] => []
          | x :: s' => x :: replace_from r tpl (Some x) s' 0
          end
      end
  end.

Definition replace_all (r : regex) (tpl : template) (s : text) : text :=
  replace_from r tpl None s 0.

(** [String.prototype.trim]. *)
Fixpoint trim_start (s : text) : text :=
  match s with
  | [] => []
  | x :: s' => if white_space x then trim_start s' else s
  end.

Definition trim_end (s : text) : text := rev (trim_start (rev s)).

Definition trim (s : text) : text := trim_end (trim_start s).

End Regex.

(* ===================================================================== *)
(** * The content normalizer                                             *)
(* ===================================================================== *)

Module Preprocess.
Import Regex.

(** [/```[\s\S]*?```/g] *)
Definition fenced_code : regex :=
  Seq (lit "```") (Seq (lazy_star (Chr any)) (lit "```")).

(** [/`.*?`/g] *)
Definition inline_code : regex :=
  Seq (lit "`") (Seq (lazy_star (Chr dot)) (lit "`")).

(** Line 54: [#{1,6}], then [\s*], then group 1 holding [.*]; flag [g]. *)
Definition heading : regex :=
  Seq (Rep true 1 (Some 6%nat) (Chr (is_char "#")))
      (Seq (star (Chr white_space)) (Group 1 (star (Chr dot)))).

(** [/!\[(.*?)\]\(.*?\)/g] *)
Definition image : regex :=
  Seq (lit "![")
      (Seq (Group 1 (lazy_star (Chr dot)))
           (Seq (lit "](") (Seq (lazy_star (Chr dot)) (lit ")")))).

(** [/\[(.*?)\]\(.*?\)/g] *)
Definition link : regex :=
  Seq (lit "[")
      (Seq (Group 1 (lazy_star (Chr dot)))
           (Seq (lit "](") (Seq (lazy_star (Chr dot)) (lit ")")))).

Definition non_space (c : char) : bool := negb (white_space c).

(** [/(https?:\/\/)?(www\.)?([^\s]+\.[^\s]+)/g] *)
Definition url : regex :=
  Seq (opt (Group 1 (Seq (lit "http")
                         (Seq (opt (Chr (is_char "s"))) (lit "://")))))
      (Seq (opt (Group 2 (lit "www.")))
           (Group 3 (Seq (plus (Chr non_space))
                         (Seq (lit ".") (plus (Chr non_space)))))).

(** [/<@[!&]?\d+>/g] *)
Definition mention : regex :=
  Seq (lit "<@")
      (Seq (opt (Chr (fun c => is_char "!" c || is_char "&" c)))
           (Seq (plus (Chr digit)) (lit ">"))).

(** [/<[^>]*>/g] *)
Definition tag : regex :=
  Seq (lit "<")
      (Seq (star (Chr (fun c => negb (is_char ">" c)))) (lit ">")).

(** [/^\s*[-*_]{3,}\s*$/gm] *)
Definition rule : regex :=
  Seq Bol
      (Seq (star (Chr white_space))
           (Seq (Rep true 3 None
                     (Chr (fun c => is_char "-" c || is_char "*" c
                                    || is_char "_" c)))
                (Seq (star (Chr white_space)) Eol))).

(** [/\/\*[\s\S]*?\*\//g] *)
Definition block_comment : regex :=
  Seq (lit "/*") (Seq (lazy_star (Chr any)) (lit "*/")).

(** [/\/\/.*/g] *)
Definition line_comment : regex :=
  Seq (lit "//") (star (Chr dot)).

(** [/\s+/g] *)
Definition spaces : regex := plus (Chr white_space).

(** [/\n{3,}/g] *)
Definition newlines : regex := Rep true 3 None (Chr (fun c => N.eqb c 10)).

(** The class [a-zA-Z0-9\s\-_./:?=&]. *)
Definition allowed (c : char) : bool :=
  between "a" "z" c || between "A" "Z" c || between "0" "9" c
  || white_space c || is_char "-" c || is_char "_" c || is_char "." c
  || is_char "/" c || is_char ":" c || is_char "?" c || is_char "=" c
  || is_char "&" c.

(** [/[^a-zA-Z0-9\s\-_./:?=&]/g] *)
Definition disallowed : regex := Chr (fun c => negb (allowed c)).

(** The chain of replacements of [preprocess], before [trim]. *)
Definition replacements (content : text) : text :=
  let s := replace_all fenced_code [] content in
  let s := replace_all inline_code [] s in
  let s := replace_all heading [Ref 1] s in
  let s := replace_all image [Ref 1] s in
  let s := replace_all link [Ref 1] s in
  let s := replace_all url [Ref 3] s in
  let s := replace_all mention [] s in
  let s := replace_all tag [] s in
  let s := replace_all rule [] s in
  let s := replace_all block_comment [] s in
  let s := replace_all line_comment [] s in
  let s := replace_all spaces [Lit (of_string " ")] s in
  let s := replace_all newlines [Lit [10%N; 10%N]] s in
  replace_all disallowed [] s.

(** [preprocess]: the empty string is falsy and is answered with the empty
    string (and a warning in the log); the parameter is typed [string], so
    the [typeof] test cannot fail. *)
Definition preprocess (content : text) : text :=
  match content with
  | [] => []
  | _ => trim (replacements content)
  end.

End Preprocess.

(* ===================================================================== *)
(** * Texts                                                              *)
(* ===================================================================== *)

(** The notions to say what [preprocess] does to a text, and which texts
    it leaves as they are. *)
Module PlainText.
Import Regex.

Definition space (c : char) : bool := N.eqb c 32.

Definition starts_clean (s : text) : Prop :=
  match s with
  | [] => True
  | x :: _ => white_space x = false
  end.

(** Each run of white space replaced by one space, written directly;
    [in_run] says that the code unit before was white space. *)
Fixpoint collapse_from (in_run : bool) (s : text) : text :=
  match s with
  | [] => []
  | x :: s' =>
      if white_space x
      then if in_run then collapse_from true s'
           else 32%N :: collapse_from true s'
      else x :: collapse_from false s'
  end.

Definition collapse (s : text) : text := collapse_from false s.

(** The number of code units of white space a text starts with. *)
Definition leading_spaces (s : text) : nat :=
  (length s - length (trim_start s))%nat.

(** White space, if any, is the space U+0020. *)
Definition space_or_not_white (c : char) : Prop :=
  white_space c = true -> c = 32%N.

(** The continuation of [exec]. *)
Definition finish : cont := fun _ s c => Some (s, c).

(** ** Notions for the texts that [preprocess] returns *)

(** The rest of [s] after the prefix [p], if [s] starts with [p]. *)
Fixpoint strip_prefix (p s : text) : option text :=
  match p with
  | [] => Some s
  | y :: p' =>
      match s with
      | x :: s' => if N.eqb x y then strip_prefix p' s' else None
      | [] => None
      end
  end.

(** The code unit before the position reached after [a]. *)
Definition last_of (prev : option char) (a : text) : option char :=
  fold_left (fun _ x => Some x) a prev.

Fixpoint take_while (p : char -> bool) (s : text) : text :=
  match s with
  | x :: s' => if p x then x :: take_while p s' else []
  | [] => []
  end.

Fixpoint drop_while (p : char -> bool) (s : text) : text :=
  match s with
  | x :: s' => if p x then drop_while p s' else s
  | [] => []
  end.

(** The word [s] starts with, and what follows it. *)
Definition take_word (s : text) : text := take_while Preprocess.non_space s.
Definition drop_word (s : text) : text := drop_while Preprocess.non_space s.

(** [b] starts with a dot that is followed by a character of the word. *)
Definition dot_inside (b : text) : bool :=
  match b with
  | d :: y :: _ => is_char "." d && Preprocess.non_space y
  | _ => false
  end.

(** The word [s] starts with has a dot with a character of the word on
    either side: it matches [[^\s]+\.[^\s]+]. *)
Fixpoint dotted (s : text) : bool :=
  match s with
  | x :: s' => Preprocess.non_space x && (dot_inside s' || dotted s')
  | [] => false
  end.

(** The rest after [http://] or [https://]. *)
Definition after_scheme (s : text) : option text :=
  match strip_prefix (of_string "http") s with
  | Some (x :: t) =>
      if is_char "s" x then strip_prefix (of_string "://") t
      else strip_prefix (of_string "://") (x :: t)
  | _ => None
  end.

(** Where group 3 of the URL pattern starts when [www.] may be passed
    over: behind it if what follows is dotted. *)
Definition strip_www (s : text) : text :=
  match strip_prefix (of_string "www.") s with
  | Some t => if dotted t then t else s
  | None => s
  end.

(** Where group 3 of the URL pattern starts in a match attempted at [s],
    in the order in which the matcher tries. *)
Definition group3_start (s : text) : text :=
  match after_scheme s with
  | Some t => if dotted (strip_www t) then strip_www t else strip_www s
  | None => strip_www s
  end.

(** The URL pattern at [s]: the rest after the match and group 3. *)
Definition url_at (s : text) : option (text * text) :=
  if dotted (group3_start s)
  then Some (drop_word (group3_start s), take_word (group3_start s))
  else None.

(** The three groups of the URL pattern. *)
Definition scheme_group : regex :=
  Group 1 (Seq (lit "http") (Seq (opt (Chr (is_char "s"))) (lit "://"))).

Definition www_group : regex := Group 2 (lit "www.").

Definition host_group : regex :=
  Group 3 (Seq (plus (Chr Preprocess.non_space))
               (Seq (lit ".") (plus (Chr Preprocess.non_space)))).

(** What [$3] stands for. *)
Definition group3 (c : captures) : text :=
  match capture 3 c with
  | Some t => t
  | None => []
  end.

(** Of a match, what the replacement by [$3] needs: the rest of the
    input and group 3. *)
Definition outcome (z : text * captures) : text * text :=
  (fst z, group3 (snd z)).

(** What the URL step writes for the word [s] starts with. *)
Definition word_out (s : text) : text :=
  if dotted (group3_start s) then take_word (group3_start s)
  else take_word s.

(** The URL step would shorten the word [s] starts with. *)
Definition stripped (s : text) : bool :=
  dotted (group3_start s)
  && negb (Nat.eqb (length (group3_start s)) (length s)).

(** The word [s] starts with is [www.] followed by a dotted rest. *)
Definition www_word (s : text) : bool :=
  match strip_prefix (of_string "www.") s with
  | Some t => dotted t
  | None => false
  end.

(** No word of [s] is [bad]; [start] says that [s] starts at the beginning
    of the text or behind white space. *)
Fixpoint words_free (bad : text -> bool) (start : bool) (s : text) : bool :=
  match s with
  | [] => true
  | x :: s' =>
      if white_space x then words_free bad true s'
      else (if start then negb (bad s) else true) && words_free bad false s'
  end.

(** Two spaces in a row. *)
Fixpoint double_space (s : text) : bool :=
  match s with
  | x :: s' =>
      match s' with
      | y :: _ => (space x && space y) || double_space s'
      | [] => false
      end
  | [] => false
  end.

(** Two slashes in a row. *)
Fixpoint double_slash (s : text) : bool :=
  match s with
  | x :: s' =>
      match s' with
      | y :: _ => (is_char "/" x && is_char "/" y) || double_slash s'
      | [] => false
      end
  | [] => false
  end.

(** The class [[-*_]] of the horizontal rule. *)
Definition rule_char (c : char) : bool :=
  is_char "-" c || is_char "*" c || is_char "_" c.

(** Three or more characters of a horizontal rule and nothing else. *)
Definition rule_line (s : text) : bool :=
  Nat.leb 3 (length s) && forallb rule_char s.

(** A normalized text that a second normalization leaves as it is: no
    two spaces in a row, no [//], not a horizontal rule, and no word made
    of [www.] and a dotted rest. *)
Definition settled (w : text) : bool :=
  negb (double_space w) && negb (double_slash w) && negb (rule_line w)
  && words_free www_word true w.

(** The shape of the texts that [preprocess] returns. *)
Definition normal (w : text) : Prop :=
  Forall (fun c => Preprocess.allowed c = true) w
  /\ Forall space_or_not_white w
  /\ starts_clean w
  /\ starts_clean (rev w).

End PlainText.

(* ===================================================================== *)
(** * JavaScript values                                                  *)
(* ===================================================================== *)

Module JS.

(** The values a payload, a cache entry or an unchecked cast can hold. *)
#[local] Unset Elimination Schemes.
Inductive value : Type :=
| Undefined
| Null
| Bool (b : bool)
| Num (x : float)
| Str (s : string)
| Arr (l : list value)
| Obj (fields : list (string * value)).
#[local] Set Elimination Schemes.

(** An object literal keeps its keys in insertion order. *)
Definition object := list (string * value).

(** Property access [o.key]; a missing key reads as [undefined]. *)
Fixpoint get (key : string) (o : object) : value :=
  match o with
  | [] => Undefined
  | (k, v) :: o' => if String.eqb k key then v else get key o'
  end.

(** ToBoolean on numbers, strings and values. *)
Definition num_truthy (x : float) : bool := negb (is_zero x || is_nan x).

Definition str_truthy (s : string) : bool :=
  match s with
  | EmptyString => false
  | String _ _ => true
  end.

Definition truthy (v : value) : bool :=
  match v with
  | Undefined | Null => false
  | Bool b => b
  | Num x => num_truthy x
  | Str s => str_truthy s
  | Arr _ | Obj _ => true
  end.

(** [v || d]. *)
Definition or_else (v d : value) : value := if truthy v then v else d.

(** An optional property of a typed record, read as a value. *)
Definition of_opt {A : Type} (inj : A -> value) (o : option A) : value :=
  match o with
  | Some a => inj a
  | None => Undefined
  end.

(** [Boolean.prototype.toString]. *)
Definition bool_toString (b : bool) : string :=
  if b then "true"%string else "false"%string.

(** Decimal digits of an integer, as in a template literal. *)
Definition Z_toString (z : Z) : string :=
  DecimalString.NilZero.string_of_int (Z.to_int z).

(** [Math.fround]: the binary32 value nearest to [x], which is what a
    [Float32Array] stores. *)
Definition fround (x : float) : float :=
  match Prim2SF x with
  | S754_finite s m e => SF2Prim (binary_round 24 128 s m e)
  | _ => x
  end.

(** [Float32Array.from(v)]. *)
Definition Float32Array_from (v : list float) : list float := map fround v.

(** ** [Number(n.toFixed(6))] *)

(** What [toFixed] answers: the decimal text of [n / 10^6] with a sign, or
    for magnitudes from [10^21] on the text of [Number::toString]. *)
Inductive fixed : Type :=
| Decimal (negative : bool) (n : Z)
| Shortest (x : float).

(** The integer [n] for which [n / 10^6] is closest to [m * 2^e], the
    larger one of two. *)
Definition nearest_millionth (m : positive) (e : Z) : Z :=
  match e with
  | Zneg p => (2 * Zpos m * 1000000 + 2 ^ Zpos p) / (2 * 2 ^ Zpos p)
  | _ => Zpos m * 2 ^ e * 1000000
  end.

(** [x.toFixed(6)] for a finite [x]. *)
Definition toFixed6 (x : float) : fixed :=
  let negative := (x <? 0)%float in
  let a := abs x in
  if (1e21 <=? a)%float then Shortest x
  else match Prim2SF a with
       | S754_finite _ m e => Decimal negative (nearest_millionth m e)
       | _ => Decimal negative 0
       end.

(** [Number(text)] on the texts of [toFixed]: the double nearest to the
    decimal, and [x] itself for the text of [Number::toString(x)]. *)
Definition Number_of_fixed (d : fixed) : float :=
  match d with
  | Decimal negative (Zpos n) =>
      SF2Prim (SFdiv 53 1024 (S754_finite negative n 0)
                             (S754_finite false 1000000 0))
  | Decimal negative _ => if negative then (-0)%float else 0%float
  | Shortest x => x
  end.

End JS.

(* ===================================================================== *)
(** * The vector store client                                            *)
(* ===================================================================== *)

Module Qdrant.
Import JS.

(** A filter condition: [{ key, match: { value } }] or
    [{ range: { key, gte, lte } }]. *)
Inductive Condition : Type :=
| FieldMatch (key : string) (v : value)
| Range (key : string) (gte lte : option float).

(** [{ must: [...] }] *)
Record Filter : Type := { must : list Condition }.

(** A point handed to [upsert]. *)
Record PointStruct : Type := {
  point_id : string;
  point_vector : list float;
  point_payload : object
}.

(** The identifier of a stored point is a string or a number. *)
Inductive PointId : Type :=
| IdStr (s : string)
| IdNum (n : float).

(** A point as [retrieve], [scroll] and [search] answer it; [retrieve] and
    [scroll] leave [row_score] unset. *)
Record Row : Type := {
  row_id : PointId;
  row_payload : option object;
  row_vector : option (list float);
  row_score : option float
}.

(** The second argument of [search]; a field the caller leaves out is
    [None]. *)
Record SearchRequest : Type := {
  search_vector : list float;
  search_limit : option float;
  search_score_threshold : option float;
  search_filter : option Filter;
  search_with_payload : option bool;
  search_with_vector : option bool
}.

(** The second argument of [scroll]. *)
Record ScrollRequest : Type := {
  scroll_limit : float;
  scroll_filter : Filter;
  scroll_with_payload : bool;
  scroll_with_vector : bool
}.

(** The calls the adapter issues to the store, each with its collection. *)
Inductive Request : Type :=
| Upsert (collection : string) (wait : bool) (points : list PointStruct)
| Retrieve (collection : string) (ids : list string)
| Search (collection : string) (r : SearchRequest)
| Scroll (collection : string) (r : ScrollRequest).

(** The row a store answers for a point it holds. *)
Definition stored_row (score : option float) (p : PointStruct) : Row :=
  {| row_id := IdStr (point_id p);
     row_payload := Some (point_payload p);
     row_vector := Some (point_vector p);
     row_score := score |}.

(** A similarity search is a [Search]; a retrieval by identifiers is a
    [Retrieve]. *)
Definition is_search (q : Request) : bool :=
  match q with
  | Search _ _ => true
  | _ => false
  end.

Definition is_retrieve (q : Request) : bool :=
  match q with
  | Retrieve _ _ => true
  | _ => false
  end.

(** The client [QdrantClient] of the package [@qdrant/js-client-rest] is
    not part of the repository: a store is any state with an answer to each
    call, which either fails with a message or yields the rows. *)
Class Client (Store : Type) : Type := {
  upsert : Store -> string -> bool -> list PointStruct ->
           (string + unit) * Store;
  retrieve : Store -> string -> list string -> (string + list Row) * Store;
  search : Store -> string -> SearchRequest -> (string + list Row) * Store;
  scroll : Store -> string -> ScrollRequest ->
           (string + option (list Row)) * Store
}.

(** The calls of the collection bootstrap, and the part of the client
    that answers them: the names of the collections, and whether a
    collection was created. *)
Inductive AdminRequest : Type :=
| GetCollections
| CreateCollection (name : string) (size : Z) (distance : string).

Class Admin (Store : Type) : Type := {
  getCollections : Store -> (string + list string) * Store;
  createCollection : Store -> string -> Z -> string ->
                     (string + bool) * Store
}.

End Qdrant.

(* ===================================================================== *)
(** * The adapter                                                        *)
(* ===================================================================== *)

Module Adapter.
Import JS Qdrant.

Local Open Scope string_scope.

(** ** Records of the runtime

    [RAGKnowledgeItem] and [Memory] are declared by [@elizaos/core]; the
    records below hold the properties [client.ts] reads. A knowledge
    embedding is a [Float32Array], a memory embedding a [number[]]. *)
Record RAGKnowledgeItem : Type := {
  k_id : string;
  k_agentId : string;
  k_text : string;                    (* content.text *)
  k_metadata : option object;         (* content.metadata *)
  k_embedding : option (list float);
  k_createdAt : option float
}.

Record Memory : Type := {
  m_id : option string;
  m_userId : string;
  m_agentId : string;
  m_content : value;
  m_embedding : option (list float);
  m_roomId : string;
  m_unique : option bool
}.

(** What [getKnowledge] and [searchKnowledge] build from a row: the casts
    of the source are unchecked, so the fields read from the payload stay
    values. *)
Record KnowledgeResult : Type := {
  kr_id : string;
  kr_agentId : value;
  kr_text : string;
  kr_metadata : option object;
  kr_embedding : option (list float);
  kr_createdAt : value;
  kr_similarity : option float
}.

(** What [getMemories], [searchMemories] and [searchMemoriesByEmbedding]
    build from a row. *)
Record MemoryResult : Type := {
  mr_id : value;
  mr_type : value;
  mr_content : value;
  mr_embedding : list float;
  mr_userId : value;
  mr_roomId : value;
  mr_agentId : value;
  mr_unique : value;
  mr_createdAt : value;
  mr_similarity : option (option float)   (* absent, or the score read *)
}.

(** ** Parameters of the calls *)
Record GetKnowledgeParams : Type := {
  gk_id : option string
}.

Record SearchKnowledgeParams : Type := {
  sk_agentId : string;
  sk_embedding : list float;
  sk_match_threshold : option float;
  sk_match_count : option float;
  sk_searchText : option string
}.

Record GetMemoriesParams : Type := {
  gm_roomId : option string;
  gm_count : option float;
  gm_unique : option bool;
  gm_tableName : option string;
  gm_agentId : option string;
  gm_start : option float;
  gm_end : option float
}.

Record SearchMemoriesParams : Type := {
  sm_tableName : string;
  sm_agentId : string;
  sm_roomId : string;
  sm_embedding : list float;
  sm_match_threshold : float;
  sm_match_count : float;
  sm_unique : bool
}.

Record SearchByEmbeddingParams : Type := {
  se_match_threshold : option float;
  se_count : option float;
  se_roomId : option string;
  se_agentId : option string;
  se_unique : option bool;
  se_tableName : string
}.

(** ** State and effects *)

(** The fields of the class: the cache [cacheM], [vectorSize] (an integer:
    the constructor receives [Number(QDRANT_VECTOR_SIZE)]), the client
    [db], and, for the proofs, the calls issued to the store so far. *)
Record State (Store : Type) : Type := {
  cacheM : gmap string string;
  vectorSize : Z;
  db : Store;
  issued : list Request
}.
Arguments cacheM {Store} _.
Arguments vectorSize {Store} _.
Arguments db {Store} _.
Arguments issued {Store} _.

Definition collectionName : string := "collection".
Definition qdrantV5UUIDNamespace : string :=
  "00000000-0000-0000-0000-000000000000".

Inductive Error : Type :=
| JsError (message : string)       (* [throw new Error(message)] *)
| TypeError (message : string)     (* a property read on null or undefined *)
| RangeError (message : string)    (* [new Array(n)] with an invalid length *)
| SyntaxError (message : string)   (* [JSON.parse] *)
| RemoteError (message : string).  (* raised by the store client *)

Inductive Outcome (A : Type) : Type :=
| Return (a : A)
| Throw (e : Error).
Arguments Return {A} a.
Arguments Throw {A} e.

(** An [async] method: it runs on the state of the adapter and either
    returns or throws. *)
Definition M (Store A : Type) : Type := State Store -> Outcome A * State Store.

Definition ret {Store A : Type} (a : A) : M Store A :=
  fun st => (Return a, st).

Definition throw {Store A : Type} (e : Error) : M Store A :=
  fun st => (Throw e, st).

Definition bind {Store A B : Type} (m : M Store A) (k : A -> M Store B)
  : M Store B :=
  fun st =>
    match m st with
    | (Return a, st') => k a st'
    | (Throw e, st') => (Throw e, st')
    end.

Notation "'let!' x ':=' m 'in' k" := (bind m (fun x => k))
  (at level 10, x name, m at level 100, k at level 200).

(** [xs.map(f)] with a callback that may throw. *)
Fixpoint map_outcome {A B : Type} (f : A -> Outcome B) (xs : list A)
  : Outcome (list B) :=
  match xs with
  | [] => Return []
  | x :: xs' =>
      match f x with
      | Throw e => Throw e
      | Return y =>
          match map_outcome f xs' with
          | Throw e => Throw e
          | Return ys => Return (y :: ys)
          end
      end
  end.

Definition lift {Store A : Type} (o : Outcome A) : M Store A :=
  fun st => (o, st).

(** One call to the store: it is recorded, the store moves on, and a
    failure of the client is thrown on unchanged. *)
Definition call {Store A : Type} (q : Request)
           (f : Store -> (string + A) * Store) : M Store A :=
  fun st =>
    let '(r, d) := f (db st) in
    let st' := {| cacheM := cacheM st; vectorSize := vectorSize st;
                  db := d; issued := issued st ++ [q] |} in
    match r with
    | inl message => (Throw (RemoteError message), st')
    | inr a => (Return a, st')
    end.

(* ===================================================================== *)
(** ** A store in memory and stand-ins for the library functions         *)
(* ===================================================================== *)

(** The store keeps the points it is given; [search] and [scroll] answer
    all of them, [retrieve] those whose identifier is asked for. *)
Module InMemory.

#[export] Instance client : Client (list PointStruct) := {|
  upsert := fun d _ _ points => (inr tt, (d ++ points)%list);
  retrieve := fun d _ ids =>
    (inr (map (stored_row None)
              (List.filter
                 (fun p => existsb (String.eqb (point_id p)) ids) d)), d);
  search := fun d _ _ => (inr (map (stored_row (Some 1%float)) d), d);
  scroll := fun d _ _ => (inr (Some (map (stored_row None) d)), d)
|}.

Definition v5 (name namespace : string) : string :=
  namespace ++ "/" ++ name.

Definition Number_toString (x : float) : string :=
  match Prim2SF x with
  | S754_zero _ => "0"
  | S754_infinity s => if s then "-Infinity" else "Infinity"
  | S754_nan => "NaN"
  | S754_finite s m e =>
      (if s then "-" else "") ++ Z_toString (Zpos m) ++ "p" ++ Z_toString e
  end.

Definition JSON_stringify_item (r : KnowledgeResult) : string :=
  "{" ++ kr_id r ++ "}".

Definition JSON_parse (s : string) : option value := Some (Str s).

(** A new adapter for vectors of three components over an empty store. *)
Definition fresh_adapter (points : list PointStruct)
  : State (list PointStruct) :=
  {| cacheM := ∅; vectorSize := 3; db := points; issued := [] |}.

Definition some_point : PointStruct :=
  {| point_id := "p1";
     point_vector := [1; 0; 0]%float;
     point_payload := [("id", Str "m0"); ("unique", Bool true)] |}.

Definition query : SearchKnowledgeParams :=
  {| sk_agentId := "agent-1";
     sk_embedding := [1; 2; 3]%float;
     sk_match_threshold := None;
     sk_match_count := None;
     sk_searchText := None |}.

Definition memory : Memory :=
  {| m_id := Some "m1";
     m_userId := "user-1";
     m_agentId := "agent-1";
     m_content := Obj [("text", Str "hello")];
     m_embedding := Some [1; 0; 0]%float;
     m_roomId := "r1";
     m_unique := None |}.

Definition listing (unique : option bool) (count start stop : option float)
  : GetMemoriesParams :=
  {| gm_roomId := Some "r1";
     gm_count := count;
     gm_unique := unique;
     gm_tableName := Some "facts";
     gm_agentId := None;
     gm_start := start;
     gm_end := stop |}.

Definition shared_knowledge : RAGKnowledgeItem :=
  {| k_id := "k1";
     k_agentId := "agent-1";
     k_text := "hello";
     k_metadata := Some [("isShared", Bool true)];
     k_embedding := Some [0.5; 1; 0]%float;
     k_createdAt := None |}.

(** The values stored as [unique] by the upserts among the calls. *)
Definition stored_unique (q : Request) : list value :=
  match q with
  | Upsert _ _ points => map (fun p => get "unique" (point_payload p)) points
  | _ => []
  end.

Definition any_table : SearchByEmbeddingParams :=
  {| se_match_threshold := None; se_count := None; se_roomId := None;
     se_agentId := None; se_unique := None; se_tableName := "facts" |}.

Definition no_table : GetMemoriesParams :=
  {| gm_roomId := Some "r1"; gm_count := None; gm_unique := None;
     gm_tableName := None; gm_agentId := None; gm_start := None;
     gm_end := None |}.

(** A store of collections: their names. *)
#[export] Instance collections : Admin (list string) := {|
  getCollections := fun d => (inr d, d);
  createCollection := fun d name _ _ => (inr true, (d ++ [name])%list)
|}.

Definition adapter_over (names : list string) : State (list string) :=
  {| cacheM := ∅; vectorSize := 3; db := names; issued := [] |}.

(** A store that cannot be reached. *)
Inductive Offline : Type := offline.

#[export] Instance unreachable : Client Offline := {|
  upsert := fun d _ _ _ => (inl "offline", d);
  retrieve := fun d _ _ => (inl "offline", d);
  search := fun d _ _ => (inl "offline", d);
  scroll := fun d _ _ => (inl "offline", d)
|}.

Definition offline_adapter : State Offline :=
  {| cacheM := ∅; vectorSize := 3; db := offline; issued := [] |}.

(** An adapter whose cache holds an entry for [query]. *)
Definition cached_adapter : State (list PointStruct) :=
  {| cacheM := {[ "agent-1:agent-1:" ++ Number_toString 1 ++ ","
                  ++ Number_toString 2 ++ "," ++ Number_toString 3
                  := "[{p1}]" ]};
     vectorSize := 3; db := []; issued := [] |}.

Definition plain_memory : Memory :=
  {| m_id := None;
     m_userId := "user-1";
     m_agentId := "agent-1";
     m_content := Obj [("text", Str "hello")];
     m_embedding := None;
     m_roomId := "r1";
     m_unique := None |}.

Definition bare_row : Row :=
  {| row_id := IdStr "p2"; row_payload := None; row_vector := None;
     row_score := None |}.

(** A store that answers one point, without payload. *)
Inductive Bare : Type := bare.

#[export] Instance payloadless : Client Bare := {|
  upsert := fun d _ _ _ => (inr tt, d);
  retrieve := fun d _ _ => (inr [bare_row], d);
  search := fun d _ _ => (inr [bare_row], d);
  scroll := fun d _ _ => (inr (Some [bare_row]), d)
|}.

Definition bare_adapter : State Bare :=
  {| cacheM := ∅; vectorSize := 3; db := bare; issued := [] |}.

(** The query of [query] with a threshold, a count and a search text. *)
Definition narrow_query : SearchKnowledgeParams :=
  {| sk_agentId := "agent-1";
     sk_embedding := [1; 2; 3]%float;
     sk_match_threshold := Some 0.9%float;
     sk_match_count := Some 1%float;
     sk_searchText := Some "hello" |}.

End InMemory.

Section WithClient.

Context {Store : Type} `{Client Store}.

(** From outside the repository: [v5] of the package [uuid], and
    [Number::toString], [JSON.stringify] on one result and [JSON.parse] of
    the language. *)
Variable v5 : string -> string -> string.
Variable Number_toString : float -> string.
Variable JSON_stringify_item : KnowledgeResult -> string.
Variable JSON_parse : string -> option value.

(** [String(v)]. *)
Fixpoint ToString (v : value) : string :=
  match v with
  | Undefined => "undefined"
  | Null => "null"
  | Bool b => bool_toString b
  | Num x => Number_toString x
  | Str s => s
  | Arr l =>
      String.concat ","
        (map (fun e => match e with
                       | Undefined | Null => ""
                       | _ => ToString e
                       end) l)
  | Obj _ => "[object Object]"
  end.

(** [embedding.toString()] of a [number[]] or a [Float32Array]. *)
Definition Array_toString (v : list float) : string :=
  String.concat "," (map Number_toString v).

(** [JSON.stringify] of an array of objects. *)
Definition JSON_stringify (results : list KnowledgeResult) : string :=
  "[" ++ String.concat "," (map JSON_stringify_item results) ++ "]".

Definition PointId_toString (i : PointId) : string :=
  match i with
  | IdStr s => s
  | IdNum n => Number_toString n
  end.

(** ** The cache *)

Definition buildKey (agentId key : string) : string :=
  agentId ++ ":" ++ key.

Definition buildQdrantID (id : string) : string :=
  v5 id qdrantV5UUIDNamespace.

Definition getCache (key agentId : string) : M Store (option string) :=
  fun st => (Return (cacheM st !! buildKey agentId key), st).

Definition setCache (key agentId val : string) : M Store bool :=
  fun st =>
    (Return true,
     {| cacheM := <[buildKey agentId key := val]> (cacheM st);
        vectorSize := vectorSize st; db := db st; issued := issued st |}).

Definition deleteCache (key agentId : string) : M Store bool :=
  fun st =>
    let key := buildKey agentId key in
    (Return (bool_decide (is_Some (cacheM st !! key))),
     {| cacheM := delete key (cacheM st);
        vectorSize := vectorSize st; db := db st; issued := issued st |}).

(** ** Knowledge *)

(** The point [createKnowledge] upserts; [now] is the reading of
    [Date.now()]. *)
Definition knowledge_point (knowledge : RAGKnowledgeItem) (now : float)
  : PointStruct :=
  let metadata := match k_metadata knowledge with
                  | Some md => md
                  | None => []
                  end in
  {| point_id := buildQdrantID (k_id knowledge);
     point_vector := match k_embedding knowledge with
                     | Some e => e
                     | None => []
                     end;
     point_payload :=
       [ ("agentId", if truthy (get "isShared" metadata)
                     then Null else Str (k_agentId knowledge));
         ("content", Obj [ ("text", Str (k_text knowledge));
                           ("metadata", Obj metadata) ]);
         ("createdAt", Num (match k_createdAt knowledge with
                            | Some t => if num_truthy t then t else now
                            | None => now
                            end));
         ("isMain", or_else (get "isMain" metadata) (Bool false));
         ("originalId", or_else (get "originalId" metadata) Null);
         ("chunkIndex", or_else (get "chunkIndex" metadata) Null);
         ("isShared", or_else (get "isShared" metadata) (Bool false)) ] |}.

Definition createKnowledge (knowledge : RAGKnowledgeItem) (now : float)
  : M Store unit :=
  let points := [knowledge_point knowledge now] in
  call (Upsert collectionName true points)
       (fun d => upsert d collectionName true points).

(** [row.payload?.key] *)
Definition payload_get (key : string) (row : Row) : value :=
  match row_payload row with
  | Some p => get key p
  | None => Undefined
  end.

(** The callback of [rows.map] in [getKnowledge]; [searchKnowledge] adds
    [similarity: row.score || 0]. *)
Definition knowledge_of_row (with_similarity : bool) (row : Row)
  : KnowledgeResult :=
  {| kr_id := PointId_toString (row_id row);
     kr_agentId := or_else (payload_get "agentId" row) (Str "");
     kr_text := ToString (or_else (payload_get "description" row) (Str ""));
     kr_metadata := row_payload row;
     kr_embedding := option_map Float32Array_from (row_vector row);
     kr_createdAt := payload_get "createdAt" row;
     kr_similarity :=
       if with_similarity
       then Some (match row_score row with
                  | Some x => if num_truthy x then x else 0%float
                  | None => 0%float
                  end)
       else None |}.

Definition getKnowledge (params : GetKnowledgeParams)
  : M Store (list KnowledgeResult) :=
  let ids := match gk_id params with
             | Some i => if str_truthy i then [i] else []
             | None => []
             end in
  let! rows := call (Retrieve collectionName ids)
                    (fun d => retrieve d collectionName ids) in
  ret (map (knowledge_of_row false) rows).

(** [searchKnowledge] answers either the results it has just built or
    whatever [JSON.parse] reads from the cache. *)
Inductive KnowledgeAnswer : Type :=
| Fresh (results : list KnowledgeResult)
| Cached (v : value).

(** [`${params.agentId}:${params.embedding.toString()}`] *)
Definition cacheKey (params : SearchKnowledgeParams) : string :=
  sk_agentId params ++ ":" ++ Array_toString (sk_embedding params).

(** [{ vector: Array.from(params.embedding), with_vector: true }] *)
Definition searchKnowledge_request (params : SearchKnowledgeParams)
  : SearchRequest :=
  {| search_vector := sk_embedding params;
     search_limit := None;
     search_score_threshold := None;
     search_filter := None;
     search_with_payload := None;
     search_with_vector := Some true |}.

Definition searchKnowledge (params : SearchKnowledgeParams)
  : M Store KnowledgeAnswer :=
  let cacheKey := cacheKey params in
  let! cachedResult := getCache cacheKey (sk_agentId params) in
  match cachedResult with
  | Some (String a t) =>
      match JSON_parse (String a t) with
      | Some v => ret (Cached v)
      | None => throw (SyntaxError "Unexpected token in JSON")
      end
  | _ =>
      let request := searchKnowledge_request params in
      let! rows := call (Search collectionName request)
                        (fun d => search d collectionName request) in
      let results := map (knowledge_of_row true) rows in
      let! _ := setCache cacheKey (sk_agentId params)
                         (JSON_stringify results) in
      ret (Fresh results)
  end.

(** ** Memories *)

(** [result.payload.key]: the read throws when the payload is null or
    undefined. *)
Definition memory_of_row (similarity : option float -> option (option float))
           (row : Row) : Outcome MemoryResult :=
  match row_payload row with
  | None => Throw (TypeError "Cannot read properties of undefined")
  | Some p =>
      Return {| mr_id := get "id" p;
                mr_type := get "type" p;
                mr_content := get "content" p;
                mr_embedding := match row_vector row with
                                | Some v => v
                                | None => []
                                end;
                mr_userId := get "userId" p;
                mr_roomId := get "roomId" p;
                mr_agentId := get "agentId" p;
                mr_unique := get "unique" p;
                mr_createdAt := get "createdAt" p;
                mr_similarity := similarity (row_score row) |}
  end.

(** [x || d] on an optional number. *)
Definition num_or (x : option float) (d : float) : float :=
  match x with
  | Some v => if num_truthy v then v else d
  | None => d
  end.

Definition opt_str_truthy (s : option string) : bool :=
  match s with
  | Some t => str_truthy t
  | None => false
  end.

Definition opt_num_truthy (x : option float) : bool :=
  match x with
  | Some v => num_truthy v
  | None => false
  end.

(** [if (params.unique) filter.must.push({ key: "unique", match: { value:
    params.unique.toString() } })] *)
Definition unique_condition (unique : option bool) : list Condition :=
  match unique with
  | Some true => [FieldMatch "unique" (Str (bool_toString true))]
  | _ => []
  end.

Definition string_condition (key : string) (s : option string)
  : list Condition :=
  match s with
  | Some t => if str_truthy t then [FieldMatch key (Str t)] else []
  | None => []
  end.

(** The filter of [getMemories] once [tableName] and [roomId] have passed
    the guards. *)
Definition getMemories_filter (tableName roomId : string)
           (params : GetMemoriesParams) : Filter :=
  {| must :=
       [ FieldMatch "type" (Str tableName);
         FieldMatch "roomId" (Str roomId) ]
       ++ unique_condition (gm_unique params)
       ++ string_condition "agentId" (gm_agentId params)
       ++ (if opt_num_truthy (gm_start params)
              || opt_num_truthy (gm_end params)
           then [Range "createdAt"
                       (if opt_num_truthy (gm_start params)
                        then gm_start params else None)
                       (if opt_num_truthy (gm_end params)
                        then gm_end params else None)]
           else []) |}.

Definition getMemories (params : GetMemoriesParams)
  : M Store (list MemoryResult) :=
  match gm_tableName params with
  | Some (String a t) =>
      let tableName := String a t in
      match gm_roomId params with
      | Some (String b u) =>
          let roomId := String b u in
          let request :=
            {| scroll_limit := num_or (gm_count params) 100;
               scroll_filter := getMemories_filter tableName roomId params;
               scroll_with_payload := true;
               scroll_with_vector := true |} in
          let! scrollResults :=
            call (Scroll collectionName request)
                 (fun d => scroll d collectionName request) in
          lift (map_outcome (memory_of_row (fun _ => None))
                            (match scrollResults with
                             | Some points => points
                             | None => []
                             end))
      | _ => throw (JsError "roomId is required")
      end
  | _ => throw (JsError "tableName is required")
  end.

Definition searchMemories_filter (params : SearchMemoriesParams) : Filter :=
  {| must :=
       [ FieldMatch "type" (Str (sm_tableName params));
         FieldMatch "roomId" (Str (sm_roomId params));
         FieldMatch "agentId" (Str (sm_agentId params)) ]
       ++ (if sm_unique params
           then [FieldMatch "unique"
                            (Str (bool_toString (sm_unique params)))]
           else []) |}.

Definition searchMemories (params : SearchMemoriesParams)
  : M Store (list MemoryResult) :=
  let request :=
    {| search_vector := sm_embedding params;
       search_limit := Some (sm_match_count params);
       search_score_threshold := Some (sm_match_threshold params);
       search_filter := Some (searchMemories_filter params);
       search_with_payload := Some true;
       search_with_vector := Some true |} in
  let! searchResults := call (Search collectionName request)
                             (fun d => search d collectionName request) in
  lift (map_outcome (memory_of_row Some) searchResults).

(** The callback of [embedding.map] in [searchMemoriesByEmbedding]. *)
Definition clean (n : float) : float :=
  if negb (is_finite n) then 0%float
  else Number_of_fixed (toFixed6 n).

Definition searchMemoriesByEmbedding_filter
           (params : SearchByEmbeddingParams) : Filter :=
  {| must :=
       [ FieldMatch "type" (Str (se_tableName params)) ]
       ++ unique_condition (se_unique params)
       ++ string_condition "agentId" (se_agentId params)
       ++ string_condition "roomId" (se_roomId params) |}.

Definition dimension_message (expected got : Z) : string :=
  "Invalid embedding dimension: expected " ++ Z_toString expected
  ++ ", got " ++ Z_toString got.

Definition searchMemoriesByEmbedding (embedding : list float)
           (params : SearchByEmbeddingParams)
  : M Store (list MemoryResult) :=
  fun st =>
    if negb (Z.of_nat (length embedding) =? vectorSize st)%Z
    then throw (JsError (dimension_message
                           (vectorSize st)
                           (Z.of_nat (length embedding)))) st
    else
      let cleanVector := map clean embedding in
      let request :=
        {| search_vector := cleanVector;
           search_limit := Some (num_or (se_count params) 10);
           search_score_threshold :=
             Some (num_or (se_match_threshold params) 0);
           search_filter := Some (searchMemoriesByEmbedding_filter params);
           search_with_payload := Some true;
           search_with_vector := Some true |} in
      (let! searchResults :=
         call (Search collectionName request)
              (fun d => search d collectionName request) in
       lift (map_outcome
               (memory_of_row (fun score => Some (Some (num_or score 0))))
               searchResults)) st.

(** [new Array(n).fill(0)] *)
Definition zero_vector (n : Z) : Outcome (list float) :=
  if ((0 <=? n) && (n <? 2 ^ 32))%Z
  then Return (repeat 0%float (Z.to_nat n))
  else Throw (RangeError "Invalid array length").

(** [unique ?? true], [memory.unique ?? isUnique] *)
Definition nullish {A : Type} (o : option A) (d : A) : A :=
  match o with
  | Some a => a
  | None => d
  end.

(** The point [createMemory] upserts. *)
Definition memory_point (memory : Memory) (tableName : string)
           (isUnique : bool) (vector : list float) (now : float)
           (fresh : string) : PointStruct :=
  {| point_id :=
       buildQdrantID (if opt_str_truthy (m_id memory)
                      then nullish (m_id memory) fresh else fresh);
     point_vector := vector;
     point_payload :=
       [ ("id", of_opt Str (m_id memory));
         ("type", Str tableName);
         ("content", m_content memory);
         ("userId", Str (m_userId memory));
         ("roomId", Str (m_roomId memory));
         ("agentId", Str (m_agentId memory));
         ("unique", Bool (nullish (m_unique memory) isUnique));
         ("createdAt", Num now) ] |}.

(** [createMemory]; [now] is the reading of [Date.now()] and [fresh] the
    identifier [v4()] draws when the memory has none. *)
Definition createMemory (memory : Memory) (tableName : string)
           (unique : option bool) (now : float) (fresh : string)
  : M Store unit :=
  let! isUnique :=
    match m_embedding memory with
    | Some embedding =>
        let! similarMemories :=
          searchMemoriesByEmbedding embedding
            {| se_match_threshold := Some 0.95%float;
               se_count := Some 1%float;
               se_roomId := Some (m_roomId memory);
               se_agentId := None;
               se_unique := None;
               se_tableName := tableName |} in
        ret (Nat.eqb (length similarMemories) 0)
    | None => ret (nullish unique true)
    end in
  let! vector :=
    match m_embedding memory with
    | Some embedding => ret embedding
    | None => fun st => lift (zero_vector (vectorSize st)) st
    end in
  let points := [memory_point memory tableName isUnique vector now fresh] in
  call (Upsert collectionName true points)
       (fun d => upsert d collectionName true points).

(** ** Notions the properties are stated with *)

(** The cache lookup of [searchKnowledge] misses when the entry is absent
    or holds the empty string, which [if (cachedResult)] takes for absent. *)
Definition cache_misses (st : State Store) (params : SearchKnowledgeParams)
  : Prop :=
  opt_str_truthy
    (cacheM st !! buildKey (sk_agentId params) (cacheKey params)) = false.

(** The request [searchMemoriesByEmbedding] sends once the guard has
    passed. *)
Definition embedding_search_request (embedding : list float)
           (params : SearchByEmbeddingParams) : SearchRequest :=
  {| search_vector := map clean embedding;
     search_limit := Some (num_or (se_count params) 10);
     search_score_threshold := Some (num_or (se_match_threshold params) 0);
     search_filter := Some (searchMemoriesByEmbedding_filter params);
     search_with_payload := Some true;
     search_with_vector := Some true |}.

(** The request [getMemories] sends once both guards have passed. *)
Definition getMemories_request (tableName roomId : string)
           (params : GetMemoriesParams) : ScrollRequest :=
  {| scroll_limit := num_or (gm_count params) 100;
     scroll_filter := getMemories_filter tableName roomId params;
     scroll_with_payload := true;
     scroll_with_vector := true |}.

(** [point.vector ? Array.from(point.vector) : []] *)
Definition vector_or_empty (row : Row) : list float :=
  match row_vector row with
  | Some v => v
  | None => []
  end.

(** The search [createMemory] runs first for a memory with an embedding. *)
Definition similar_params (memory : Memory) (tableName : string)
  : SearchByEmbeddingParams :=
  {| se_match_threshold := Some 0.95%float;
     se_count := Some 1%float;
     se_roomId := Some (m_roomId memory);
     se_agentId := None;
     se_unique := None;
     se_tableName := tableName |}.

Definition similarity_of (score : option float) : option (option float) :=
  Some (Some (num_or score 0)).

(** The state after one more call to the store. *)
Definition after (st : State Store) (d : Store) (calls : list Request)
  : State Store :=
  {| cacheM := cacheM st; vectorSize := vectorSize st; db := d;
     issued := (issued st ++ calls)%list |}.

(** What [getKnowledge] maps the point of [createKnowledge] to, once the
    store hands that point back with its vector. *)
Definition read_back (knowledge : RAGKnowledgeItem) (now : float)
  : KnowledgeResult :=
  knowledge_of_row false (stored_row None (knowledge_point knowledge now)).

(** The elements of a [Float32Array] are binary32 values. *)
Definition is_float32 (x : float) : Prop := fround x = x.

(** A string without [:], as the identifiers of agents are. *)
Fixpoint colon_free (s : string) : bool :=
  match s with
  | EmptyString => true
  | String a s' => negb (Ascii.eqb a ":") && colon_free s'
  end.

(** A method leaves the cache and [vectorSize] as they are. *)
Definition keeps_cache {A : Type} (m : M Store A) : Prop :=
  forall st,
    cacheM (snd (m st)) = cacheM st
    /\ vectorSize (snd (m st)) = vectorSize st.

(** The calls a method adds to those issued before. *)
Definition new_calls {A : Type} (m : M Store A) (st : State Store)
  : list Request :=
  skipn (length (issued st)) (issued (snd (m st))).

(** Every error a method throws is one of [allowed]. *)
Definition throws_only {A : Type} (allowed : Error -> Prop) (m : M Store A)
  : Prop :=
  forall st e, fst (m st) = Throw e -> allowed e.

(** The kinds of error the methods are sorted by. *)
Definition from_store (e : Error) : Prop :=
  exists message, e = RemoteError message.

Definition from_payload (e : Error) : Prop :=
  exists message, e = TypeError message.

Definition from_dimension (e : Error) : Prop :=
  exists expected got, e = JsError (dimension_message expected got).

Definition from_array_length (e : Error) : Prop :=
  exists message, e = RangeError message.

Definition from_json (e : Error) : Prop :=
  exists message, e = SyntaxError message.

Definition from_guard (e : Error) : Prop :=
  e = JsError "tableName is required" \/ e = JsError "roomId is required".

(** ** The collection bootstrap *)

Context {admin : Admin Store}.

(** [init]: its calls are of another kind than those of the methods above
    and are returned beside the outcome and the state. *)
Definition init (st : State Store)
  : Outcome unit * State Store * list AdminRequest :=
  let with_db d := {| cacheM := cacheM st; vectorSize := vectorSize st;
                      db := d; issued := issued st |} in
  let '(response, d) := getCollections (db st) in
  match response with
  | inl message => (Throw (RemoteError message), with_db d, [GetCollections])
  | inr collectionNames =>
      if existsb (String.eqb collectionName) collectionNames
      then (Return tt, with_db d, [GetCollections])
      else
        let '(created, d') :=
          createCollection d collectionName (vectorSize st) "Cosine" in
        (match created with
         | inl message => Throw (RemoteError message)
         | inr _ => Return tt
         end,
         with_db d',
         [GetCollections;
          CreateCollection collectionName (vectorSize st) "Cosine"])
  end.

(** A store keeps its collections: one that was created is listed by the
    next [getCollections], and one that is listed stays listed. *)
Definition keeps_collections : Prop :=
  (forall d name size distance d',
      createCollection d name size distance = (inr true, d') ->
      exists names d'', getCollections d' = (inr names, d'')
                        /\ In name names)
  /\ (forall d names d' name,
        getCollections d = (inr names, d') -> In name names ->
        exists names' d'', getCollections d' = (inr names', d'')
                           /\ In name names').

(* ===================================================================== *)
(** ** Properties of the knowledge search and its cache                  *)
(* ===================================================================== *)

Lemma JSON_stringify_truthy (results : list KnowledgeResult) :
  exists a t, JSON_stringify results = String a t.
Proof. unfold JSON_stringify. simpl. eauto. Qed.

(** What [searchKnowledge] does on a miss, by the answer of the store. *)
Lemma searchKnowledge_miss (st : State Store)
      (params : SearchKnowledgeParams) :
  cache_misses st params ->
  searchKnowledge params st =
  let request := searchKnowledge_request params in
  let '(answer, d) := search (db st) collectionName request in
  let log := (issued st ++ [Search collectionName request])%list in
  match answer with
  | inl message =>
      (Throw (RemoteError message),
       {| cacheM := cacheM st; vectorSize := vectorSize st; db := d;
          issued := log |})
  | inr rows =>
      let results := map (knowledge_of_row true) rows in
      (Return (Fresh results),
       {| cacheM := <[buildKey (sk_agentId params) (cacheKey params) :=
                       JSON_stringify results]> (cacheM st);
          vectorSize := vectorSize st; db := d; issued := log |})
  end.
Proof.
  unfold cache_misses, searchKnowledge, bind, getCache. intros Hmiss.
  destruct (cacheM st !! _) as [[|a t]|] eqn:E; try discriminate Hmiss;
    unfold call; destruct (search _ _ _) as [[message|rows] d]; reflexivity.
Qed.

(** What [searchKnowledge] does on a hit. *)
Lemma searchKnowledge_hit (st : State Store)
      (params : SearchKnowledgeParams) (a : ascii) (t : string) (v : value) :
  cacheM st !! buildKey (sk_agentId params) (cacheKey params)
    = Some (String a t) ->
  JSON_parse (String a t) = Some v ->
  searchKnowledge params st = (Return (Cached v), st).
Proof.
  unfold searchKnowledge, bind, getCache. intros -> ->. reflexivity.
Qed.

(** C1, as amended: on a cache miss [searchKnowledge] issues exactly one
    call to the store, and that call is a similarity search with the query
    embedding as its vector ([with_vector: true], no filter, limit or
    threshold); it issues no retrieval by identifiers. *)
Theorem searchKnowledge_miss_issues_similarity_search
        (st : State Store) (params : SearchKnowledgeParams) :
  cache_misses st params ->
  issued (snd (searchKnowledge params st)) =
    (issued st ++ [Search collectionName
                         {| search_vector := sk_embedding params;
                            search_limit := None;
                            search_score_threshold := None;
                            search_filter := None;
                            search_with_payload := None;
                            search_with_vector := Some true |}])%list
  /\ (forall q, In q (skipn (length (issued st))
                            (issued (snd (searchKnowledge params st)))) ->
                is_search q = true /\ is_retrieve q = false).
Proof.
  intros Hmiss. rewrite (searchKnowledge_miss st params Hmiss).
  cbv zeta. destruct (search _ _ _) as [[message|rows] d]; simpl.
  - split; [reflexivity|]. intros q.
    rewrite skipn_app, skipn_all, Nat.sub_diag. simpl.
    intros [<-|[]]. split; reflexivity.
  - split; [reflexivity|]. intros q.
    rewrite skipn_app, skipn_all, Nat.sub_diag. simpl.
    intros [<-|[]]. split; reflexivity.
Qed.

(** C2: two calls of [searchKnowledge] with the same [agentId] and
    embedding, the first of which misses the cache and has its search
    answered, issue one call to the store in total. The first call writes
    [JSON.stringify(results)] into the cache under the key
    [agentId:embedding.toString()] (read back by [getCache] with that key);
    in the map itself [buildKey] puts the [agentId] in front once more.
    The second call leaves the adapter as it is, so issues no call, and
    returns what [JSON.parse] reads from that entry. *)
Theorem searchKnowledge_twice_one_remote_call
        (st : State Store) (first second : SearchKnowledgeParams)
        (rows : list Row) (d : Store) (v : value) :
  sk_agentId second = sk_agentId first ->
  sk_embedding second = sk_embedding first ->
  cache_misses st first ->
  search (db st) collectionName (searchKnowledge_request first)
    = (inr rows, d) ->
  JSON_parse (JSON_stringify (map (knowledge_of_row true) rows)) = Some v ->
  let results := map (knowledge_of_row true) rows in
  let st1 := snd (searchKnowledge first st) in
  let st2 := snd (searchKnowledge second st1) in
  fst (searchKnowledge first st) = Return (Fresh results)
  /\ getCache (sk_agentId first ++ ":" ++ Array_toString (sk_embedding first))
              (sk_agentId first) st1
     = (Return (Some (JSON_stringify results)), st1)
  /\ cacheM st1 !! (sk_agentId first ++ ":" ++ sk_agentId first ++ ":"
                     ++ Array_toString (sk_embedding first))
     = Some (JSON_stringify results)
  /\ searchKnowledge second st1 = (Return (Cached v), st1)
  /\ issued st2 = (issued st ++ [Search collectionName
                                        (searchKnowledge_request first)])%list.
Proof.
  intros Hagent Hemb Hmiss Hsearch Hparse results st1 st2.
  subst st2 st1. rewrite (searchKnowledge_miss st first Hmiss).
  cbv zeta. rewrite Hsearch. simpl.
  destruct (JSON_stringify_truthy results) as (a & t & Hjson).
  assert (Hkey : cacheKey second = cacheKey first).
  { unfold cacheKey. rewrite Hagent, Hemb. reflexivity. }
  split; [reflexivity|]. split.
  { unfold getCache. simpl. fold (cacheKey first).
    rewrite lookup_insert_eq. reflexivity. }
  split.
  { fold (cacheKey first). fold (buildKey (sk_agentId first) (cacheKey first)).
    apply lookup_insert_eq. }
  rewrite (searchKnowledge_hit _ second a t v).
  - split; reflexivity.
  - simpl. rewrite Hagent, Hkey, lookup_insert_eq. f_equal. exact Hjson.
  - rewrite <- Hjson. exact Hparse.
Qed.

(* ===================================================================== *)
(** ** Properties of the search by embedding                             *)
(* ===================================================================== *)

Lemma searchMemoriesByEmbedding_mismatch (st : State Store)
      (embedding : list float) (params : SearchByEmbeddingParams) :
  Z.of_nat (length embedding) <> vectorSize st ->
  searchMemoriesByEmbedding embedding params st =
  (Throw (JsError (dimension_message (vectorSize st)
                                     (Z.of_nat (length embedding)))), st).
Proof.
  intros Hne. unfold searchMemoriesByEmbedding.
  destruct (Z.eqb_spec (Z.of_nat (length embedding)) (vectorSize st));
    [contradiction|reflexivity].
Qed.

Lemma searchMemoriesByEmbedding_match (st : State Store)
      (embedding : list float) (params : SearchByEmbeddingParams) :
  Z.of_nat (length embedding) = vectorSize st ->
  searchMemoriesByEmbedding embedding params st =
  let request := embedding_search_request embedding params in
  let '(answer, d) := search (db st) collectionName request in
  let st' := {| cacheM := cacheM st; vectorSize := vectorSize st; db := d;
                issued := (issued st ++ [Search collectionName request])%list
             |} in
  match answer with
  | inl message => (Throw (RemoteError message), st')
  | inr rows =>
      (map_outcome (memory_of_row (fun score => Some (Some (num_or score 0))))
                   rows, st')
  end.
Proof.
  intros Heq. unfold searchMemoriesByEmbedding.
  destruct (Z.eqb_spec (Z.of_nat (length embedding)) (vectorSize st));
    [|contradiction].
  simpl. unfold bind, call, embedding_search_request.
  destruct (search _ _ _) as [[message|rows] d]; reflexivity.
Qed.

Lemma map_outcome_not_JsError {A B : Type} (f : A -> Outcome B)
      (xs : list A) :
  (forall x message, f x <> Throw (JsError message)) ->
  forall message, map_outcome f xs <> Throw (JsError message).
Proof.
  intros Hf message. induction xs as [|x xs IH]; simpl; [discriminate|].
  destruct (f x) as [y|e] eqn:Ex.
  - destruct (map_outcome f xs) as [ys|e']; [discriminate|exact IH].
  - intros Heq. injection Heq as ->. exact (Hf x message Ex).
Qed.

(** C6: an embedding whose length differs from [vectorSize] makes
    [searchMemoriesByEmbedding] throw the error with the message
    [Invalid embedding dimension: expected <vectorSize>, got <length>] and
    leaves the adapter as it was, so that no call reaches the store; an
    embedding of the right length never has that error thrown. *)
Theorem searchMemoriesByEmbedding_dimension_guard
        (st : State Store) (embedding : list float)
        (params : SearchByEmbeddingParams) :
  (Z.of_nat (length embedding) <> vectorSize st ->
   searchMemoriesByEmbedding embedding params st =
     (Throw (JsError ("Invalid embedding dimension: expected "
                      ++ Z_toString (vectorSize st) ++ ", got "
                      ++ Z_toString (Z.of_nat (length embedding)))), st)
   /\ issued (snd (searchMemoriesByEmbedding embedding params st))
      = issued st)
  /\ (Z.of_nat (length embedding) = vectorSize st ->
      forall message,
        fst (searchMemoriesByEmbedding embedding params st)
        <> Throw (JsError message)).
Proof.
  split.
  - intros Hne. rewrite (searchMemoriesByEmbedding_mismatch _ _ _ Hne).
    split; reflexivity.
  - intros Heq message.
    rewrite (searchMemoriesByEmbedding_match _ _ _ Heq). cbv zeta.
    destruct (search _ _ _) as [[m|rows] d]; simpl; [discriminate|].
    apply map_outcome_not_JsError. intros row m.
    unfold memory_of_row. destruct (row_payload row); discriminate.
Qed.






(* ===================================================================== *)
(** ** Properties of the listing of memories                             *)
(* ===================================================================== *)

Lemma str_truthy_nonempty (s : string) : s <> "" -> str_truthy s = true.
Proof. destruct s; [contradiction|reflexivity]. Qed.

Lemma getMemories_missing (st : State Store) (params : GetMemoriesParams) :
  opt_str_truthy (gm_tableName params) = false
  \/ opt_str_truthy (gm_roomId params) = false ->
  getMemories params st =
  (Throw (JsError (if opt_str_truthy (gm_tableName params)
                   then "roomId is required"
                   else "tableName is required")), st).
Proof.
  unfold getMemories, throw.
  destruct (gm_tableName params) as [[|a t]|]; simpl; try reflexivity.
  destruct (gm_roomId params) as [[|b u]|]; simpl; try reflexivity.
  intros [H0|H0]; discriminate H0.
Qed.

Lemma getMemories_present (st : State Store) (params : GetMemoriesParams)
      (tableName roomId : string) :
  gm_tableName params = Some tableName -> str_truthy tableName = true ->
  gm_roomId params = Some roomId -> str_truthy roomId = true ->
  getMemories params st =
  let request := getMemories_request tableName roomId params in
  let '(answer, d) := scroll (db st) collectionName request in
  let st' := {| cacheM := cacheM st; vectorSize := vectorSize st; db := d;
                issued := (issued st ++ [Scroll collectionName request])%list
             |} in
  match answer with
  | inl message => (Throw (RemoteError message), st')
  | inr points =>
      (map_outcome (memory_of_row (fun _ => None))
                   (match points with
                    | Some l => l
                    | None => []
                    end), st')
  end.
Proof.
  intros Ht Htt Hr Hrt. unfold getMemories. rewrite Ht, Hr.
  destruct tableName as [|a t]; [discriminate|].
  destruct roomId as [|b u]; [discriminate|].
  unfold bind, call, getMemories_request. cbv zeta.
  destruct (scroll _ _ _) as [[message|points] d]; reflexivity.
Qed.

(** Rows that carry a payload are all mapped, each with its vector. *)
Lemma map_outcome_memory_of_row
      (similarity : option float -> option (option float))
      (rows : list Row) :
  Forall (fun row => row_payload row <> None) rows ->
  exists records,
    map_outcome (memory_of_row similarity) rows = Return records
    /\ Forall2 (fun row record =>
                  memory_of_row similarity row = Return record
                  /\ mr_embedding record = vector_or_empty row)
               rows records.
Proof.
  induction 1 as [|row rows Hrow _ IH]; simpl.
  - exists []. split; [reflexivity|constructor].
  - destruct IH as (records & -> & Hall).
    unfold memory_of_row at 1.
    destruct (row_payload row) as [p|] eqn:Ep; [|contradiction].
    eexists. split; [reflexivity|]. constructor; [|exact Hall].
    unfold memory_of_row. rewrite Ep. split; reflexivity.
Qed.

(** C9, as amended: [getMemories] throws, with no call to the store, when
    [tableName] or [roomId] is missing or empty. With both present it
    issues one scroll, with payloads and vectors, limited to
    [params.count] when that is a number other than 0 and to 100 when
    [count] is unspecified or 0; when the store answers points that carry
    payloads it returns one record per point, with the vector of the
    point. *)
Theorem getMemories_guards_then_scrolls
        (st : State Store) (params : GetMemoriesParams) :
  (opt_str_truthy (gm_tableName params) = false
   \/ opt_str_truthy (gm_roomId params) = false ->
   getMemories params st =
     (Throw (JsError (if opt_str_truthy (gm_tableName params)
                      then "roomId is required"
                      else "tableName is required")), st)
   /\ issued (snd (getMemories params st)) = issued st)
  /\ (forall tableName roomId,
        gm_tableName params = Some tableName -> tableName <> "" ->
        gm_roomId params = Some roomId -> roomId <> "" ->
        let request :=
          {| scroll_limit :=
               match gm_count params with
               | Some count =>
                   if (is_zero count || is_nan count)%bool
                   then 100%float else count
               | None => 100%float
               end;
             scroll_filter := getMemories_filter tableName roomId params;
             scroll_with_payload := true;
             scroll_with_vector := true |} in
        issued (snd (getMemories params st))
        = (issued st ++ [Scroll collectionName request])%list
        /\ forall points d,
            scroll (db st) collectionName request = (inr (Some points), d) ->
            Forall (fun row => row_payload row <> None) points ->
            exists records,
              fst (getMemories params st) = Return records
              /\ Forall2 (fun row record =>
                            memory_of_row (fun _ => None) row = Return record
                            /\ mr_embedding record = vector_or_empty row)
                         points records).
Proof.
  split.
  - intros Hmissing. rewrite (getMemories_missing st params Hmissing).
    split; reflexivity.
  - intros tableName roomId Ht Htt Hr Hrt request.
    assert (Hrequest : request = getMemories_request tableName roomId params).
    { unfold request, getMemories_request, num_or, num_truthy.
      destruct (gm_count params) as [count|]; [|reflexivity].
      destruct (is_zero count || is_nan count)%bool; reflexivity. }
    rewrite Hrequest.
    rewrite (getMemories_present st params tableName roomId Ht
               (str_truthy_nonempty _ Htt) Hr (str_truthy_nonempty _ Hrt)).
    cbv zeta. split.
    + destruct (scroll _ _ _) as [[message|points] d]; reflexivity.
    + intros points d Hscroll Hpayloads. rewrite Hscroll. simpl.
      apply map_outcome_memory_of_row, Hpayloads.
Qed.

(** C5, as amended: the filter of the scroll that [getMemories] issues is
    a conjunction, in this order, of: [type] equal to [tableName];
    [roomId] equal to [roomId]; [unique] equal to the string ["true"],
    only when [unique] is true; [agentId] equal to [agentId], when that is
    supplied and not empty; and one range on [createdAt] when [start] or
    [end] is a number other than 0, with [gte] the [start] if that is not
    0 and [lte] the [end] if that is not 0. For [tableName] "facts",
    [roomId] "r1", [unique] true, [start] 100 and [end] 200 it holds the
    four conditions type=facts, roomId=r1, unique="true" and createdAt in
    [100, 200], and nothing else. *)
Theorem getMemories_filter_conjunction
        (st : State Store) (params : GetMemoriesParams)
        (tableName roomId : string) :
  gm_tableName params = Some tableName -> tableName <> "" ->
  gm_roomId params = Some roomId -> roomId <> "" ->
  exists request,
    issued (snd (getMemories params st))
    = (issued st ++ [Scroll collectionName request])%list
    /\ must (scroll_filter request) =
       ([ FieldMatch "type" (Str tableName);
          FieldMatch "roomId" (Str roomId) ]
        ++ match gm_unique params with
           | Some true => [FieldMatch "unique" (Str "true")]
           | Some false | None => []
           end
        ++ match gm_agentId params with
           | Some agentId =>
               if String.eqb agentId "" then []
               else [FieldMatch "agentId" (Str agentId)]
           | None => []
           end
        ++ (let set x := match x with
                         | Some v => negb (is_zero v || is_nan v)
                         | None => false
                         end in
            if (set (gm_start params) || set (gm_end params))%bool
            then [Range "createdAt"
                        (if set (gm_start params) then gm_start params
                         else None)
                        (if set (gm_end params) then gm_end params
                         else None)]
            else []))%list
    /\ (tableName = "facts" -> roomId = "r1" ->
        gm_unique params = Some true -> gm_agentId params = None ->
        gm_start params = Some 100%float -> gm_end params = Some 200%float ->
        must (scroll_filter request) =
        [ FieldMatch "type" (Str "facts");
          FieldMatch "roomId" (Str "r1");
          FieldMatch "unique" (Str "true");
          Range "createdAt" (Some 100%float) (Some 200%float) ]).
Proof.
  intros Ht Htt Hr Hrt.
  exists (getMemories_request tableName roomId params).
  rewrite (getMemories_present st params tableName roomId Ht
             (str_truthy_nonempty _ Htt) Hr (str_truthy_nonempty _ Hrt)).
  cbv zeta. split.
  { destruct (scroll _ _ _) as [[message|points] d]; reflexivity. }
  split.
  - simpl. unfold opt_num_truthy, num_truthy.
    destruct (gm_unique params) as [[|]|];
      destruct (gm_agentId params) as [[|a t]|];
      destruct (gm_start params) as [x|]; destruct (gm_end params) as [y|];
      simpl;
      repeat match goal with
             | |- context [(is_zero ?z || is_nan ?z)%bool] =>
                 destruct (is_zero z || is_nan z)%bool; simpl
             end;
      reflexivity.
  - intros -> -> Hu Ha Hs He. simpl. rewrite Hu, Ha, Hs, He. reflexivity.
Qed.

(* ===================================================================== *)
(** ** Properties of the creation of memories                            *)
(* ===================================================================== *)

(** [createMemory] on a memory with an embedding of the right length, by
    the answers of the store. *)
Lemma createMemory_with_embedding (st : State Store) (memory : Memory)
      (tableName : string) (unique : option bool) (now : float)
      (fresh : string) (embedding : list float) :
  m_embedding memory = Some embedding ->
  Z.of_nat (length embedding) = vectorSize st ->
  createMemory memory tableName unique now fresh st =
  let request :=
    embedding_search_request embedding (similar_params memory tableName) in
  let '(answer, d) := search (db st) collectionName request in
  match answer with
  | inl message =>
      (Throw (RemoteError message),
       after st d [Search collectionName request])
  | inr rows =>
      match map_outcome (memory_of_row similarity_of) rows with
      | Throw e => (Throw e, after st d [Search collectionName request])
      | Return similarMemories =>
          let points :=
            [memory_point memory tableName
                          (Nat.eqb (length similarMemories) 0)
                          embedding now fresh] in
          let '(stored, d') := upsert d collectionName true points in
          (match stored with
           | inl message => Throw (RemoteError message)
           | inr _ => Return tt
           end,
           after st d' [Search collectionName request;
                        Upsert collectionName true points])
      end
  end.
Proof.
  intros Hemb Hlen. unfold createMemory. rewrite Hemb.
  unfold bind at 1. unfold bind at 1.
  rewrite (searchMemoriesByEmbedding_match st embedding _ Hlen).
  fold (similar_params memory tableName). cbv zeta.
  destruct (search _ _ _) as [[message|rows] d]; [reflexivity|].
  fold similarity_of.
  destruct (map_outcome _ rows) as [similarMemories|e]; [|reflexivity].
  unfold ret, bind, call. simpl.
  destruct (upsert _ _ _ _) as [[message|[]] d']; unfold after; simpl;
    rewrite <- app_assoc; reflexivity.
Qed.

(** [createMemory] on a memory without embedding. *)
Lemma createMemory_without_embedding (st : State Store) (memory : Memory)
      (tableName : string) (unique : option bool) (now : float)
      (fresh : string) :
  m_embedding memory = None ->
  (0 <= vectorSize st < 2 ^ 32)%Z ->
  createMemory memory tableName unique now fresh st =
  let points :=
    [memory_point memory tableName (nullish unique true)
                  (repeat 0%float (Z.to_nat (vectorSize st))) now fresh] in
  let '(stored, d') := upsert (db st) collectionName true points in
  (match stored with
   | inl message => Throw (RemoteError message)
   | inr _ => Return tt
   end,
   after st d' [Upsert collectionName true points]).
Proof.
  intros Hemb Hsize. unfold createMemory. rewrite Hemb.
  unfold bind, ret, lift, zero_vector, call.
  replace ((0 <=? vectorSize st)%Z && (vectorSize st <? 2 ^ 32)%Z)
    with true by (symmetry; apply andb_true_iff; split; lia).
  cbv zeta.
  destruct (upsert _ _ _ _) as [[message|[]] d']; reflexivity.
Qed.

Lemma map_outcome_length {A B : Type} (f : A -> Outcome B) (xs : list A)
      (ys : list B) :
  map_outcome f xs = Return ys -> length ys = length xs.
Proof.
  revert ys. induction xs as [|x xs IH]; simpl; intros ys Hys.
  - injection Hys as <-. reflexivity.
  - destruct (f x) as [y|e]; [|discriminate].
    destruct (map_outcome f xs) as [ys'|e]; [|discriminate].
    injection Hys as <-. simpl. f_equal. apply IH. reflexivity.
Qed.

(** C3, as amended: for a memory with an embedding of length [vectorSize]
    and a room, [createMemory] first issues a similarity search with the
    cleaned embedding, restricted to [type = tableName] and
    [roomId = memory.roomId], with score threshold 0.95 and limit 1. The
    [unique] argument plays no part: whatever the caller passes, the run
    is the one without it. When the search answers rows with payloads, an
    upsert follows whose payload stores as [unique] the flag of the memory
    itself when it has one, and otherwise whether the search found
    nothing. *)
Theorem createMemory_similarity_check_decides_unique
        (st : State Store) (memory : Memory) (tableName : string)
        (unique : option bool) (now : float) (fresh : string)
        (embedding : list float) :
  m_embedding memory = Some embedding ->
  Z.of_nat (length embedding) = vectorSize st ->
  m_roomId memory <> "" ->
  let request :=
    {| search_vector := map clean embedding;
       search_limit := Some 1%float;
       search_score_threshold := Some 0.95%float;
       search_filter :=
         Some {| must := [ FieldMatch "type" (Str tableName);
                           FieldMatch "roomId" (Str (m_roomId memory)) ] |};
       search_with_payload := Some true;
       search_with_vector := Some true |} in
  let run := createMemory memory tableName unique now fresh st in
  (exists later,
      issued (snd run)
      = (issued st ++ Search collectionName request :: later)%list)
  /\ run = createMemory memory tableName None now fresh st
  /\ (forall rows d,
        search (db st) collectionName request = (inr rows, d) ->
        Forall (fun row => row_payload row <> None) rows ->
        exists point,
          issued (snd run)
          = (issued st ++ [Search collectionName request;
                           Upsert collectionName true [point]])%list
          /\ get "unique" (point_payload point)
             = Bool (match m_unique memory with
                     | Some flag => flag
                     | None => Nat.eqb (length rows) 0
                     end)).
Proof.
  intros Hemb Hlen Hroom request run.
  assert (Hrequest : embedding_search_request
                       embedding (similar_params memory tableName) = request).
  { unfold embedding_search_request, searchMemoriesByEmbedding_filter,
      request. simpl.
    destruct (m_roomId memory); [contradiction|]. reflexivity. }
  subst run.
  rewrite !(createMemory_with_embedding st memory tableName _ now fresh
              embedding Hemb Hlen).
  cbv zeta. rewrite Hrequest. split; [|split; [reflexivity|]].
  - destruct (search _ _ _) as [[message|rows] d].
    + exists []. reflexivity.
    + destruct (map_outcome _ rows) as [similar|e].
      * destruct (upsert _ _ _ _) as [stored d']. eexists. reflexivity.
      * exists []. reflexivity.
  - intros rows d Hsearch Hpayloads. rewrite Hsearch.
    destruct (map_outcome_memory_of_row similarity_of rows Hpayloads)
      as (similar & Hmap & _).
    rewrite Hmap. destruct (upsert _ _ _ _) as [stored d'].
    eexists. split; [reflexivity|]. simpl.
    rewrite (map_outcome_length _ _ _ Hmap).
    destruct (m_unique memory); reflexivity.
Qed.

(** Whatever happens, the calls [createMemory] adds are at most a search
    followed by an upsert of the one point built from the memory. *)
Lemma createMemory_issues (st : State Store) (memory : Memory)
      (tableName : string) (unique : option bool) (now : float)
      (fresh : string) :
  exists calls,
    issued (snd (createMemory memory tableName unique now fresh st))
    = (issued st ++ calls)%list
    /\ forall collection wait points,
        In (Upsert collection wait points) calls ->
        exists flag vector,
          points = [memory_point memory tableName flag vector now fresh].
Proof.
  destruct (m_embedding memory) as [embedding|] eqn:Hemb.
  - destruct (Z.eq_dec (Z.of_nat (length embedding)) (vectorSize st))
      as [Hlen|Hlen].
    + rewrite (createMemory_with_embedding st memory tableName unique now
                 fresh embedding Hemb Hlen). cbv zeta.
      destruct (search _ _ _) as [[message|rows] d].
      * eexists. split; [reflexivity|]. simpl.
        intros c w pts [Hq|[]]; discriminate Hq.
      * destruct (map_outcome _ rows) as [similar|e].
        -- destruct (upsert _ _ _ _) as [stored d'].
           eexists. split; [reflexivity|]. simpl.
           intros c w pts [Hq|[Hq|[]]]; [discriminate Hq|].
           injection Hq as _ _ <-. eauto.
        -- eexists. split; [reflexivity|]. simpl.
           intros c w pts [Hq|[]]; discriminate Hq.
    + unfold createMemory. rewrite Hemb. unfold bind at 1. unfold bind at 1.
      rewrite (searchMemoriesByEmbedding_mismatch st embedding _ Hlen).
      exists []. rewrite app_nil_r. split; [reflexivity|]. intros c w pts [].
  - unfold createMemory. rewrite Hemb.
    unfold bind, ret, lift, zero_vector, call.
    destruct ((0 <=? vectorSize st)%Z && (vectorSize st <? 2 ^ 32)%Z).
    + cbv zeta. destruct (upsert _ _ _ _) as [[message|[]] d'];
        (eexists; split; [reflexivity|]; simpl;
         intros c w pts [Hq|[]]; injection Hq as _ _ <-; eauto).
    + exists []. simpl. rewrite app_nil_r. split; [reflexivity|].
      intros c w pts [].
Qed.

Lemma string_condition_key (key : string) (s : option string)
      (k : string) (v : value) :
  In (FieldMatch k v) (string_condition key s) -> k = key.
Proof.
  destruct s as [[|a t]|]; simpl; intros Hin; try contradiction.
  destruct Hin as [Hq|[]]. injection Hq as <- _. reflexivity.
Qed.

(** C10: the point that [createMemory] upserts stores [unique] as a
    boolean, while the filters of [getMemories] and of [searchMemories]
    built with [unique] true match [unique] against the string ["true"]
    and nothing else; the stored value therefore differs from every value
    such a filter matches [unique] against. *)
Theorem unique_stored_as_boolean_matched_as_string
        (st : State Store) (memory : Memory) (tableName : string)
        (unique : option bool) (now : float) (fresh : string)
        (collection : string) (wait : bool) (points : list PointStruct)
        (point : PointStruct) :
  In (Upsert collection wait points)
     (skipn (length (issued st))
            (issued (snd (createMemory memory tableName unique now fresh
                                       st)))) ->
  In point points ->
  (exists flag, get "unique" (point_payload point) = Bool flag)
  /\ (forall (params : GetMemoriesParams) (table room : string),
        gm_unique params = Some true ->
        In (FieldMatch "unique" (Str "true"))
           (must (getMemories_filter table room params))
        /\ forall v,
            In (FieldMatch "unique" v)
               (must (getMemories_filter table room params)) ->
            v = Str "true" /\ get "unique" (point_payload point) <> v)
  /\ (forall params : SearchMemoriesParams,
        sm_unique params = true ->
        In (FieldMatch "unique" (Str "true"))
           (must (searchMemories_filter params))
        /\ forall v,
            In (FieldMatch "unique" v)
               (must (searchMemories_filter params)) ->
            v = Str "true" /\ get "unique" (point_payload point) <> v).
Proof.
  intros Hissued Hpoint.
  destruct (createMemory_issues st memory tableName unique now fresh)
    as (calls & Hcalls & Hupserts).
  rewrite Hcalls, skipn_app, skipn_all, Nat.sub_diag in Hissued.
  simpl in Hissued.
  destruct (Hupserts _ _ _ Hissued) as (flag & vector & ->).
  destruct Hpoint as [<-|[]].
  assert (Hstored : get "unique"
                        (point_payload (memory_point memory tableName flag
                                                     vector now fresh))
                    = Bool (nullish (m_unique memory) flag))
    by reflexivity.
  rewrite Hstored. split; [eauto|]. split.
  - intros params table room Hunique. unfold getMemories_filter. simpl.
    rewrite Hunique. simpl. split; [auto|].
    intros v [Hq|[Hq|[Hq|Hin]]]; try discriminate Hq.
    + injection Hq as <-. split; [reflexivity|discriminate].
    + apply in_app_or in Hin. destruct Hin as [Hin|Hin].
      * apply string_condition_key in Hin. discriminate Hin.
      * destruct (_ || _)%bool; simpl in Hin; [|contradiction].
        destruct Hin as [Hq|[]]. discriminate Hq.
  - intros params Hunique. unfold searchMemories_filter. simpl.
    rewrite Hunique. simpl. split; [auto|].
    intros v [Hq|[Hq|[Hq|[Hq|[]]]]]; try discriminate Hq.
    injection Hq as <-. split; [reflexivity|discriminate].
Qed.

(* ===================================================================== *)
(** ** Properties of the knowledge mapping                               *)
(* ===================================================================== *)

Lemma Float32Array_from_float32 (v : list float) :
  Forall is_float32 v -> Float32Array_from v = v.
Proof.
  unfold Float32Array_from. induction 1 as [|x v Hx _ IH]; simpl.
  - reflexivity.
  - rewrite Hx, IH. reflexivity.
Qed.

(** C4, as amended: reading back the point written for a knowledge record
    [k] with an embedding yields the embedding of [k]; as [id] it yields
    the identifier derived by [buildQdrantID] from [k.id]; as [agentId] it
    yields the one of [k] unless the metadata mark [k] as shared, and the
    empty string then; as text it yields the empty string, for no
    [description] is written. *)
Theorem knowledge_read_back_fields
        (knowledge : RAGKnowledgeItem) (now : float)
        (embedding : list float) :
  k_embedding knowledge = Some embedding ->
  Forall is_float32 embedding ->
  let metadata := match k_metadata knowledge with
                  | Some md => md
                  | None => []
                  end in
  let result := read_back knowledge now in
  kr_embedding result = Some embedding
  /\ kr_id result = buildQdrantID (k_id knowledge)
  /\ kr_agentId result = (if truthy (get "isShared" metadata)
                          then Str "" else Str (k_agentId knowledge))
  /\ kr_text result = "".
Proof.
  intros Hemb H32 metadata result. subst result.
  unfold read_back, knowledge_of_row, stored_row, knowledge_point.
  simpl. rewrite Hemb. simpl. fold metadata.
  rewrite (Float32Array_from_float32 _ H32).
  split; [reflexivity|]. split; [reflexivity|]. split; [|reflexivity].
  unfold payload_get. simpl.
  destruct (truthy (get "isShared" metadata)); [reflexivity|].
  unfold or_else. simpl. destruct (k_agentId knowledge); reflexivity.
Qed.

(* ===================================================================== *)
(** ** Further properties: the cache                                     *)
(* ===================================================================== *)

Lemma append_assoc (a b c : string) : (a ++ b) ++ c = a ++ (b ++ c).
Proof.
  induction a as [|x a IH]; [reflexivity|].
  change (String x ((a ++ b) ++ c) = String x (a ++ (b ++ c))).
  f_equal. exact IH.
Qed.

(** X1: what [setCache] writes, [getCache] reads back with the same key
    and agent, whatever the cache held before; [setCache] answers [true],
    and neither of the two reaches the store. *)
Theorem setCache_then_getCache (st : State Store) (key agentId val : string) :
  let st' := snd (setCache key agentId val st) in
  fst (setCache key agentId val st) = Return true
  /\ getCache key agentId st' = (Return (Some val), st')
  /\ db st' = db st
  /\ issued st' = issued st.
Proof.
  cbv zeta. unfold setCache, getCache. simpl.
  rewrite lookup_insert_eq. repeat split; reflexivity.
Qed.

(** X2: [deleteCache] answers whether the entry was there; after it the
    entry reads as undefined and a second [deleteCache] answers [false]. *)
Theorem deleteCache_removes (st : State Store) (key agentId : string) :
  let st' := snd (deleteCache key agentId st) in
  (fst (getCache key agentId st) = Return None ->
   fst (deleteCache key agentId st) = Return false)
  /\ (forall val, fst (getCache key agentId st) = Return (Some val) ->
                  fst (deleteCache key agentId st) = Return true)
  /\ getCache key agentId st' = (Return None, st')
  /\ fst (deleteCache key agentId st') = Return false.
Proof.
  cbv zeta. unfold deleteCache, getCache. simpl.
  split; [|split; [|split]].
  - intros Hget. injection Hget as ->. reflexivity.
  - intros val Hget. injection Hget as ->. reflexivity.
  - rewrite lookup_delete_eq. reflexivity.
  - rewrite lookup_delete_eq. reflexivity.
Qed.

Lemma buildKey_colon_free (a a' k k' : string) :
  colon_free a = true -> colon_free a' = true ->
  buildKey a k = buildKey a' k' -> a = a' /\ k = k'.
Proof.
  unfold buildKey. revert a'.
  induction a as [|x a IH]; intros [|x' a'] Ha Ha' Heq; cbn in Ha, Ha', Heq.
  - injection Heq as Heq. split; [reflexivity|exact Heq].
  - injection Heq as Hx _. subst x'. discriminate Ha'.
  - injection Heq as Hx _. subst x. discriminate Ha.
  - apply andb_true_iff in Ha, Ha'. destruct Ha as [_ Ha], Ha' as [_ Ha'].
    injection Heq as -> Heq.
    destruct (IH a' Ha Ha' Heq) as [-> ->]. split; reflexivity.
Qed.

(** X3: for agents whose identifiers hold no colon, the entries of two
    different pairs of agent and key are apart: writing or deleting one
    leaves what is read under the other as it was. *)
Theorem cache_entries_apart (st : State Store)
        (key agentId key' agentId' val : string) :
  colon_free agentId = true -> colon_free agentId' = true ->
  (agentId, key) <> (agentId', key') ->
  fst (getCache key' agentId' (snd (setCache key agentId val st)))
  = fst (getCache key' agentId' st)
  /\ fst (getCache key' agentId' (snd (deleteCache key agentId st)))
     = fst (getCache key' agentId' st).
Proof.
  intros Ha Ha' Hne.
  assert (Hkeys : buildKey agentId key <> buildKey agentId' key').
  { intros Heq. apply Hne.
    destruct (buildKey_colon_free _ _ _ _ Ha Ha' Heq) as [-> ->].
    reflexivity. }
  unfold getCache, setCache, deleteCache. simpl.
  rewrite lookup_insert_ne by exact Hkeys.
  rewrite lookup_delete_ne by exact Hkeys.
  split; reflexivity.
Qed.

(** X4: an agent identifier that holds a colon shares entries with the
    agent named by the part before the colon: what is written for agent
    [a:b] under [key] is read by agent [a] under [b:key]. *)
Theorem cache_entries_shared_through_colon
        (st : State Store) (a b key val : string) :
  fst (getCache (b ++ ":" ++ key) a
                (snd (setCache key (a ++ ":" ++ b) val st)))
  = Return (Some val).
Proof.
  unfold getCache, setCache, buildKey. simpl.
  rewrite append_assoc. simpl. rewrite lookup_insert_eq. reflexivity.
Qed.

(* ===================================================================== *)
(** ** Further properties: what reaches the cache and the store          *)
(* ===================================================================== *)

Lemma keeps_cache_ret {A : Type} (a : A) : keeps_cache (ret a).
Proof. intros st. split; reflexivity. Qed.

Lemma keeps_cache_throw {A : Type} (e : Error) : keeps_cache (@throw Store A e).
Proof. intros st. split; reflexivity. Qed.

Lemma keeps_cache_lift {A : Type} (o : Outcome A) :
  keeps_cache (@lift Store A o).
Proof. intros st. split; reflexivity. Qed.

Lemma keeps_cache_call {A : Type} (q : Request)
      (f : Store -> (string + A) * Store) :
  keeps_cache (call q f).
Proof.
  intros st. unfold call. destruct (f (db st)) as [[message|a] d];
    split; reflexivity.
Qed.

Lemma keeps_cache_bind {A B : Type} (m : M Store A) (k : A -> M Store B) :
  keeps_cache m -> (forall a, keeps_cache (k a)) -> keeps_cache (bind m k).
Proof.
  intros Hm Hk st. unfold bind. specialize (Hm st).
  destruct (m st) as [[a|e] st1]; simpl in Hm.
  - destruct (Hk a st1) as [Hc Hv]. destruct Hm as [Hc1 Hv1].
    split; congruence.
  - exact Hm.
Qed.

Lemma keeps_cache_searchMemoriesByEmbedding (embedding : list float)
      (params : SearchByEmbeddingParams) :
  keeps_cache (searchMemoriesByEmbedding embedding params).
Proof.
  intros st. unfold searchMemoriesByEmbedding.
  destruct (negb _).
  - apply keeps_cache_throw.
  - apply keeps_cache_bind; [apply keeps_cache_call|].
    intros rows. apply keeps_cache_lift.
Qed.

Lemma keeps_cache_createMemory (memory : Memory) (tableName : string)
      (unique : option bool) (now : float) (fresh : string) :
  keeps_cache (createMemory memory tableName unique now fresh).
Proof.
  unfold createMemory. apply keeps_cache_bind.
  - destruct (m_embedding memory) as [embedding|].
    + apply keeps_cache_bind;
        [apply keeps_cache_searchMemoriesByEmbedding|].
      intros similar. apply keeps_cache_ret.
    + apply keeps_cache_ret.
  - intros isUnique. apply keeps_cache_bind.
    + destruct (m_embedding memory) as [embedding|];
        [apply keeps_cache_ret|].
      intros st. apply keeps_cache_lift.
    + intros vector. apply keeps_cache_call.
Qed.

Lemma keeps_cache_getMemories (params : GetMemoriesParams) :
  keeps_cache (getMemories params).
Proof.
  unfold getMemories.
  destruct (gm_tableName params) as [[|a t]|]; try apply keeps_cache_throw.
  destruct (gm_roomId params) as [[|b u]|]; try apply keeps_cache_throw.
  apply keeps_cache_bind; [apply keeps_cache_call|].
  intros rows. apply keeps_cache_lift.
Qed.

(** X5: the methods that read and write the store leave the cache and
    [vectorSize] as they are: only [setCache], [deleteCache] and
    [searchKnowledge] change the cache. *)
Theorem store_methods_keep_cache :
  (forall knowledge now, keeps_cache (createKnowledge knowledge now))
  /\ (forall params, keeps_cache (getKnowledge params))
  /\ (forall memory tableName unique now fresh,
        keeps_cache (createMemory memory tableName unique now fresh))
  /\ (forall params, keeps_cache (getMemories params))
  /\ (forall params, keeps_cache (searchMemories params))
  /\ (forall embedding params,
        keeps_cache (searchMemoriesByEmbedding embedding params)).
Proof.
  split; [|split; [|split; [|split; [|split]]]].
  - intros knowledge now. apply keeps_cache_call.
  - intros params. apply keeps_cache_bind; [apply keeps_cache_call|].
    intros rows. apply keeps_cache_ret.
  - apply keeps_cache_createMemory.
  - apply keeps_cache_getMemories.
  - intros params. apply keeps_cache_bind; [apply keeps_cache_call|].
    intros rows. apply keeps_cache_lift.
  - apply keeps_cache_searchMemoriesByEmbedding.
Qed.

(* ===================================================================== *)
(** ** Further properties: the knowledge search                          *)
(* ===================================================================== *)

(** X6: [searchKnowledge] never reads [match_threshold], [match_count] or
    [searchText]: two calls that agree on [agentId] and on the embedding
    do the same, whatever those parameters are. *)
Theorem searchKnowledge_ignores_threshold_count_text
        (st : State Store) (params params' : SearchKnowledgeParams) :
  sk_agentId params = sk_agentId params' ->
  sk_embedding params = sk_embedding params' ->
  searchKnowledge params st = searchKnowledge params' st.
Proof.
  destruct params, params'. simpl. intros -> ->. reflexivity.
Qed.

(** X7: when the search of a miss fails, the error of the store is thrown
    on and nothing is cached, so that the lookup of the same query misses
    again. *)
Theorem searchKnowledge_failure_is_not_cached
        (st : State Store) (params : SearchKnowledgeParams)
        (message : string) (d : Store) :
  cache_misses st params ->
  search (db st) collectionName (searchKnowledge_request params)
    = (inl message, d) ->
  fst (searchKnowledge params st) = Throw (RemoteError message)
  /\ cacheM (snd (searchKnowledge params st)) = cacheM st
  /\ cache_misses (snd (searchKnowledge params st)) params.
Proof.
  intros Hmiss Hsearch. rewrite (searchKnowledge_miss st params Hmiss).
  cbv zeta. rewrite Hsearch. simpl. repeat split. exact Hmiss.
Qed.

(** X8: on a hit [searchKnowledge] leaves the adapter as it is, so that no
    call reaches the store, and it either returns what [JSON.parse] reads
    from the entry or throws its syntax error; the parameters of the call
    are not compared with anything. *)
Theorem searchKnowledge_hit_stays_local
        (st : State Store) (params : SearchKnowledgeParams)
        (a : ascii) (t : string) :
  cacheM st !! buildKey (sk_agentId params) (cacheKey params)
    = Some (String a t) ->
  snd (searchKnowledge params st) = st
  /\ match JSON_parse (String a t) with
     | Some v => fst (searchKnowledge params st) = Return (Cached v)
     | None => exists message,
         fst (searchKnowledge params st) = Throw (SyntaxError message)
     end.
Proof.
  intros Hhit. unfold searchKnowledge, bind, getCache. rewrite Hhit.
  destruct (JSON_parse (String a t)) as [v|]; simpl; eauto.
Qed.

(** X9: [deleteCache] with the key [agentId:embedding.toString()] clears
    the entry of a query: the next [searchKnowledge] of that query goes to
    the store with one search. *)
Theorem deleteCache_invalidates_searchKnowledge
        (st : State Store) (params : SearchKnowledgeParams) :
  let st' := snd (deleteCache (sk_agentId params ++ ":"
                               ++ Array_toString (sk_embedding params))
                              (sk_agentId params) st) in
  new_calls (searchKnowledge params) st'
  = [Search collectionName (searchKnowledge_request params)].
Proof.
  cbv zeta. fold (cacheKey params).
  set (st' := snd (deleteCache (cacheKey params) (sk_agentId params) st)).
  assert (Hmiss : cache_misses st' params).
  { unfold cache_misses, st', deleteCache. simpl.
    rewrite lookup_delete_eq. reflexivity. }
  unfold new_calls. rewrite (searchKnowledge_miss st' params Hmiss).
  cbv zeta. destruct (search _ _ _) as [[message|rows] d]; simpl;
    rewrite skipn_app, skipn_all, Nat.sub_diag; reflexivity.
Qed.

(** X10: writing knowledge or a memory does not invalidate cached
    results: a query that hit the cache before [createKnowledge] or
    [createMemory] hits it after, with the same answer and no search. *)
Theorem cached_results_survive_writes
        (st : State Store) (params : SearchKnowledgeParams)
        (a : ascii) (t : string) (v : value) :
  cacheM st !! buildKey (sk_agentId params) (cacheKey params)
    = Some (String a t) ->
  JSON_parse (String a t) = Some v ->
  (forall knowledge now,
      let st' := snd (createKnowledge knowledge now st) in
      searchKnowledge params st' = (Return (Cached v), st'))
  /\ (forall memory tableName unique now fresh,
        let st' := snd (createMemory memory tableName unique now fresh st) in
        searchKnowledge params st' = (Return (Cached v), st')).
Proof.
  intros Hhit Hparse. split.
  - intros knowledge now st'. apply (searchKnowledge_hit st' params a t v);
      [|exact Hparse].
    unfold st'.
    destruct (keeps_cache_call
                (Upsert collectionName true [knowledge_point knowledge now])
                (fun d => upsert d collectionName true
                                 [knowledge_point knowledge now]) st)
      as [Hcache _].
    unfold createKnowledge. rewrite Hcache. exact Hhit.
  - intros memory tableName unique now fresh st'.
    apply (searchKnowledge_hit st' params a t v); [|exact Hparse].
    unfold st'.
    destruct (keeps_cache_createMemory memory tableName unique now fresh st)
      as [Hcache _].
    rewrite Hcache. exact Hhit.
Qed.

(* ===================================================================== *)
(** ** Further properties: the errors of the methods                     *)
(* ===================================================================== *)

Lemma throws_only_weaken {A : Type} (P Q : Error -> Prop) (m : M Store A) :
  (forall e, P e -> Q e) -> throws_only P m -> throws_only Q m.
Proof. intros HPQ Hm st e He. apply HPQ, (Hm st e He). Qed.

Lemma throws_only_ret {A : Type} (P : Error -> Prop) (a : A) :
  throws_only P (@ret Store A a).
Proof. intros st e He. discriminate He. Qed.

Lemma throws_only_throw {A : Type} (P : Error -> Prop) (e : Error) :
  P e -> throws_only P (@throw Store A e).
Proof. intros HP st e' He. injection He as <-. exact HP. Qed.

Lemma throws_only_call {A : Type} (q : Request)
      (f : Store -> (string + A) * Store) :
  throws_only from_store (call q f).
Proof.
  intros st e. unfold call. destruct (f (db st)) as [[message|a] d]; simpl.
  - intros He. injection He as <-. exists message. reflexivity.
  - discriminate.
Qed.

Lemma throws_only_bind {A B : Type} (P : Error -> Prop) (m : M Store A)
      (k : A -> M Store B) :
  throws_only P m -> (forall a, throws_only P (k a)) ->
  throws_only P (bind m k).
Proof.
  intros Hm Hk st e. unfold bind. specialize (Hm st).
  destruct (m st) as [[a|e'] st1]; simpl in *.
  - apply Hk.
  - intros He. injection He as <-. apply Hm. reflexivity.
Qed.

Lemma map_outcome_throws {A B : Type} (P : Error -> Prop)
      (f : A -> Outcome B) (xs : list A) (e : Error) :
  (forall x e', f x = Throw e' -> P e') ->
  map_outcome f xs = Throw e -> P e.
Proof.
  intros Hf. induction xs as [|x xs IH]; simpl; [discriminate|].
  destruct (f x) as [y|e'] eqn:Ex.
  - destruct (map_outcome f xs) as [ys|e'']; [discriminate|].
    intros He. injection He as <-. apply IH. reflexivity.
  - intros He. injection He as <-. apply (Hf x e' Ex).
Qed.

Lemma throws_only_rows (similarity : option float -> option (option float))
      (rows : list Row) :
  throws_only from_payload
              (@lift Store _ (map_outcome (memory_of_row similarity) rows)).
Proof.
  intros st e. unfold lift. simpl. apply map_outcome_throws.
  intros row e'. unfold memory_of_row.
  destruct (row_payload row); [discriminate|].
  intros He. injection He as <-. eexists. reflexivity.
Qed.

Lemma throws_only_searchMemoriesByEmbedding (embedding : list float)
      (params : SearchByEmbeddingParams) :
  throws_only (fun e => from_dimension e \/ from_store e \/ from_payload e)
              (searchMemoriesByEmbedding embedding params).
Proof.
  intros st e. unfold searchMemoriesByEmbedding. destruct (negb _).
  - unfold throw. simpl. intros He. injection He as <-.
    left. eexists _, _. reflexivity.
  - refine (throws_only_bind
              (fun e => from_dimension e \/ from_store e \/ from_payload e)
              _ _ _ _ st e).
    + apply (throws_only_weaken from_store); [tauto|apply throws_only_call].
    + intros rows. apply (throws_only_weaken from_payload); [tauto|].
      apply throws_only_rows.
Qed.

(** X11: the errors each method can throw. [createKnowledge] and
    [getKnowledge] throw only what the store throws; [searchKnowledge]
    besides that the syntax error of [JSON.parse]; [searchMemories]
    besides that the error of a point without payload, and so never an
    error on the dimension of its embedding; [getMemories] adds its two
    guards, [searchMemoriesByEmbedding] the dimension error, and
    [createMemory] the dimension error and the invalid array length. *)
Theorem errors_of_the_methods :
  (forall knowledge now,
      throws_only from_store (createKnowledge knowledge now))
  /\ (forall params, throws_only from_store (getKnowledge params))
  /\ (forall params,
        throws_only (fun e => from_store e \/ from_json e)
                    (searchKnowledge params))
  /\ (forall params,
        throws_only (fun e => from_store e \/ from_payload e)
                    (searchMemories params))
  /\ (forall params,
        throws_only (fun e => from_guard e \/ from_store e \/ from_payload e)
                    (getMemories params))
  /\ (forall embedding params,
        throws_only (fun e => from_dimension e \/ from_store e
                              \/ from_payload e)
                    (searchMemoriesByEmbedding embedding params))
  /\ (forall memory tableName unique now fresh,
        throws_only (fun e => from_dimension e \/ from_array_length e
                              \/ from_store e \/ from_payload e)
                    (createMemory memory tableName unique now fresh)).
Proof.
  split; [|split; [|split; [|split; [|split; [|split]]]]].
  - intros knowledge now. apply throws_only_call.
  - intros params. apply throws_only_bind; [apply throws_only_call|].
    intros rows. apply throws_only_ret.
  - intros params st e. unfold searchKnowledge, bind, getCache. simpl.
    destruct (cacheM st !! _) as [[|a t]|].
    + unfold call, setCache. destruct (search _ _ _) as [[m|rows] d]; simpl;
        [|discriminate].
      intros He. injection He as <-. left. eexists. reflexivity.
    + destruct (JSON_parse _); simpl; [discriminate|].
      intros He. injection He as <-. right. eexists. reflexivity.
    + unfold call, setCache. destruct (search _ _ _) as [[m|rows] d]; simpl;
        [|discriminate].
      intros He. injection He as <-. left. eexists. reflexivity.
  - intros params. apply throws_only_bind.
    + apply (throws_only_weaken from_store); [tauto|apply throws_only_call].
    + intros rows. apply (throws_only_weaken from_payload); [tauto|].
      apply throws_only_rows.
  - intros params. unfold getMemories.
    destruct (gm_tableName params) as [[|a t]|];
      try (apply throws_only_throw; left; left; reflexivity).
    destruct (gm_roomId params) as [[|b u]|];
      try (apply throws_only_throw; left; right; reflexivity).
    apply throws_only_bind.
    + apply (throws_only_weaken from_store); [tauto|apply throws_only_call].
    + intros rows. apply (throws_only_weaken from_payload); [tauto|].
      apply throws_only_rows.
  - apply throws_only_searchMemoriesByEmbedding.
  - intros memory tableName unique now fresh. unfold createMemory.
    apply throws_only_bind.
    + destruct (m_embedding memory) as [embedding|];
        [|apply throws_only_ret].
      apply throws_only_bind; [|intros similar; apply throws_only_ret].
      apply (throws_only_weaken
               (fun e => from_dimension e \/ from_store e \/ from_payload e));
        [tauto|apply throws_only_searchMemoriesByEmbedding].
    + intros isUnique. apply throws_only_bind.
      * destruct (m_embedding memory) as [embedding|];
          [apply throws_only_ret|].
        intros st e. unfold lift, zero_vector. simpl.
        destruct (_ && _); [discriminate|].
        intros He. injection He as <-. right. left. eexists. reflexivity.
      * intros vector.
        apply (throws_only_weaken from_store); [tauto|apply throws_only_call].
Qed.

(* ===================================================================== *)
(** ** Further properties: knowledge                                     *)
(* ===================================================================== *)

Lemma new_calls_after {A : Type} (m : M Store A) (st : State Store)
      (calls : list Request) :
  issued (snd (m st)) = (issued st ++ calls)%list ->
  new_calls m st = calls.
Proof.
  intros Hissued. unfold new_calls.
  rewrite Hissued, skipn_app, skipn_all, Nat.sub_diag. reflexivity.
Qed.

(** X12: [getKnowledge] always issues one retrieval, for the one
    identifier given, and for no identifier at all when [id] is missing or
    empty; when the store answers, it returns one result per row, in the
    order of the rows, each under the identifier of its row and without
    similarity. *)
Theorem getKnowledge_retrieves_by_id
        (st : State Store) (params : GetKnowledgeParams) :
  let ids := match gk_id params with
             | Some id => if String.eqb id "" then [] else [id]
             | None => []
             end in
  new_calls (getKnowledge params) st = [Retrieve collectionName ids]
  /\ forall rows d,
      retrieve (db st) collectionName ids = (inr rows, d) ->
      exists results,
        fst (getKnowledge params st) = Return results
        /\ map kr_id results = map (fun row => PointId_toString (row_id row))
                                   rows
        /\ Forall (fun result => kr_similarity result = None) results.
Proof.
  intros ids.
  assert (Hids : ids = match gk_id params with
                       | Some i => if str_truthy i then [i] else []
                       | None => []
                       end).
  { unfold ids. destruct (gk_id params) as [[|a t]|]; reflexivity. }
  unfold getKnowledge. rewrite <- Hids. unfold bind, call, ret. split.
  - apply new_calls_after.
    destruct (retrieve _ _ _) as [[message|rows] d]; reflexivity.
  - intros rows d Hrows.
    unfold bind, call, ret. rewrite Hrows. simpl.
    eexists. split; [reflexivity|]. split.
    + rewrite map_map. reflexivity.
    + apply Forall_map. apply Forall_forall. intros row _. reflexivity.
Qed.



(* ===================================================================== *)
(** ** Further properties: memories                                      *)
(* ===================================================================== *)

Lemma createMemory_mismatch (st : State Store) (memory : Memory)
      (tableName : string) (unique : option bool) (now : float)
      (fresh : string) (embedding : list float) :
  m_embedding memory = Some embedding ->
  Z.of_nat (length embedding) <> vectorSize st ->
  createMemory memory tableName unique now fresh st
  = (Throw (JsError (dimension_message (vectorSize st)
                                       (Z.of_nat (length embedding)))), st).
Proof.
  intros Hemb Hlen. unfold createMemory. rewrite Hemb.
  unfold bind at 1. unfold bind at 1.
  rewrite (searchMemoriesByEmbedding_mismatch st embedding _ Hlen).
  reflexivity.
Qed.

(** X14: [createMemory] with an embedding whose length differs from
    [vectorSize] throws the dimension error and leaves the adapter as it
    was: nothing is searched and nothing is written. *)
Theorem createMemory_wrong_dimension_writes_nothing
        (st : State Store) (memory : Memory) (tableName : string)
        (unique : option bool) (now : float) (fresh : string)
        (embedding : list float) :
  m_embedding memory = Some embedding ->
  Z.of_nat (length embedding) <> vectorSize st ->
  createMemory memory tableName unique now fresh st
  = (Throw (JsError ("Invalid embedding dimension: expected "
                     ++ Z_toString (vectorSize st) ++ ", got "
                     ++ Z_toString (Z.of_nat (length embedding)))), st)
  /\ new_calls (createMemory memory tableName unique now fresh) st = [].
Proof.
  intros Hemb Hlen. unfold new_calls.
  rewrite (createMemory_mismatch st memory tableName unique now fresh
             embedding Hemb Hlen).
  split; [reflexivity|]. simpl. apply skipn_all.
Qed.

(** X15: for a memory without embedding [createMemory] searches nothing:
    its one call is the upsert of a vector of [vectorSize] zeros, with
    [unique] stored as the flag of the memory, else the argument, else
    true. When [vectorSize] is no array length it throws before any
    call. *)
Theorem createMemory_without_embedding_stores_zeros
        (st : State Store) (memory : Memory) (tableName : string)
        (unique : option bool) (now : float) (fresh : string) :
  m_embedding memory = None ->
  ((0 <= vectorSize st < 2 ^ 32)%Z ->
   exists point,
     new_calls (createMemory memory tableName unique now fresh) st
     = [Upsert collectionName true [point]]
     /\ Z.of_nat (length (point_vector point)) = vectorSize st
     /\ Forall (fun x => x = 0%float) (point_vector point)
     /\ get "unique" (point_payload point)
        = Bool (match m_unique memory, unique with
                | Some flag, _ => flag
                | None, Some flag => flag
                | None, None => true
                end))
  /\ ((vectorSize st < 0 \/ 2 ^ 32 <= vectorSize st)%Z ->
      exists message,
        createMemory memory tableName unique now fresh st
        = (Throw (RangeError message), st)).
Proof.
  intros Hemb. split.
  - intros Hsize.
    rewrite (new_calls_after _ st
               [Upsert collectionName true
                  [memory_point memory tableName (nullish unique true)
                                (repeat 0%float (Z.to_nat (vectorSize st)))
                                now fresh]]).
    + eexists. split; [reflexivity|]. simpl. split; [|split].
      * rewrite repeat_length. lia.
      * apply Forall_forall. intros x Hx.
        apply list_elem_of_In in Hx. apply repeat_spec in Hx. exact Hx.
      * destruct (m_unique memory), unique; reflexivity.
    + rewrite (createMemory_without_embedding st memory tableName unique
                 now fresh Hemb Hsize).
      cbv zeta. destruct (upsert _ _ _ _) as [stored d']. reflexivity.
  - intros Hsize. unfold createMemory. rewrite Hemb.
    unfold bind, ret, lift, zero_vector.
    replace ((0 <=? vectorSize st)%Z && (vectorSize st <? 2 ^ 32)%Z)
      with false.
    + eexists. reflexivity.
    + symmetry. apply andb_false_iff. destruct Hsize as [Hneg|Hbig].
      * left. apply Z.leb_gt. exact Hneg.
      * right. apply Z.ltb_ge. exact Hbig.
Qed.

Lemma map_outcome_without_payload
      (similarity : option float -> option (option float))
      (rows : list Row) :
  Exists (fun row => row_payload row = None) rows ->
  exists message,
    map_outcome (memory_of_row similarity) rows = Throw (TypeError message).
Proof.
  induction 1 as [row rows Hrow|row rows _ IH]; simpl.
  - unfold memory_of_row at 1. rewrite Hrow. eexists. reflexivity.
  - destruct IH as [message ->]. unfold memory_of_row at 1.
    destruct (row_payload row); eexists; reflexivity.
Qed.

(** X16: when the search for similar memories fails, or answers a point
    without payload, [createMemory] throws after that one search and
    writes nothing. *)
Theorem createMemory_failed_check_writes_nothing
        (st : State Store) (memory : Memory) (tableName : string)
        (unique : option bool) (now : float) (fresh : string)
        (embedding : list float) :
  m_embedding memory = Some embedding ->
  Z.of_nat (length embedding) = vectorSize st ->
  let request :=
    embedding_search_request embedding (similar_params memory tableName) in
  let run := createMemory memory tableName unique now fresh in
  (forall message d,
      search (db st) collectionName request = (inl message, d) ->
      fst (run st) = Throw (RemoteError message)
      /\ new_calls run st = [Search collectionName request])
  /\ (forall rows d,
        search (db st) collectionName request = (inr rows, d) ->
        Exists (fun row => row_payload row = None) rows ->
        (exists message, fst (run st) = Throw (TypeError message))
        /\ new_calls run st = [Search collectionName request]).
Proof.
  intros Hemb Hlen request run. subst run. split.
  - intros message d Hsearch.
    rewrite (new_calls_after _ st [Search collectionName request]);
      rewrite (createMemory_with_embedding st memory tableName unique now
                 fresh embedding Hemb Hlen);
      cbv zeta; fold request; rewrite Hsearch; [split|]; reflexivity.
  - intros rows d Hsearch Hpayload.
    destruct (map_outcome_without_payload similarity_of rows Hpayload)
      as [message Hthrow].
    rewrite (new_calls_after _ st [Search collectionName request]);
      rewrite (createMemory_with_embedding st memory tableName unique now
                 fresh embedding Hemb Hlen);
      cbv zeta; fold request; rewrite Hsearch, Hthrow;
      [split; [exists message|]|]; reflexivity.
Qed.

(** X17: the point [createMemory] writes reads back, through the mapping
    of [getMemories] and of the searches, as the memory it was built
    from: its [id] (undefined when the memory has none, although the point
    has an identifier), table, content, user, room and agent, and as
    embedding the vector as it was given, not the cleaned one that was
    searched with. *)
Theorem createMemory_point_reads_back
        (st : State Store) (memory : Memory) (tableName : string)
        (unique : option bool) (now : float) (fresh : string)
        (collection : string) (wait : bool) (points : list PointStruct)
        (point : PointStruct) (score : option float)
        (similarity : option float -> option (option float)) :
  In (Upsert collection wait points)
     (new_calls (createMemory memory tableName unique now fresh) st) ->
  In point points ->
  exists record,
    memory_of_row similarity (stored_row score point) = Return record
    /\ mr_id record = match m_id memory with
                      | Some id => Str id
                      | None => Undefined
                      end
    /\ mr_type record = Str tableName
    /\ mr_content record = m_content memory
    /\ mr_userId record = Str (m_userId memory)
    /\ mr_roomId record = Str (m_roomId memory)
    /\ mr_agentId record = Str (m_agentId memory)
    /\ mr_createdAt record = Num now
    /\ mr_similarity record = similarity score
    /\ (forall embedding, m_embedding memory = Some embedding ->
                          mr_embedding record = embedding).
Proof.
  intros Hissued Hpoint.
  destruct (createMemory_issues st memory tableName unique now fresh)
    as (calls & Hcalls & Hupserts).
  rewrite (new_calls_after _ st calls Hcalls) in Hissued.
  assert (Hvector : forall embedding,
             m_embedding memory = Some embedding ->
             forall c w pts, In (Upsert c w pts) calls ->
             forall p, In p pts -> point_vector p = embedding).
  { intros embedding Hemb c w pts Hin p Hp.
    destruct (Z.eq_dec (Z.of_nat (length embedding)) (vectorSize st))
      as [Hlen|Hlen].
    - rewrite (createMemory_with_embedding st memory tableName unique now
                 fresh embedding Hemb Hlen) in Hcalls. cbv zeta in Hcalls.
      destruct (search _ _ _) as [[message|rows] d].
      + apply app_inv_head in Hcalls. subst calls.
        destruct Hin as [Hq|[]]. discriminate Hq.
      + destruct (map_outcome _ rows) as [similar|e].
        * destruct (upsert _ _ _ _) as [stored d'].
          apply app_inv_head in Hcalls. subst calls.
          destruct Hin as [Hq|[Hq|[]]]; [discriminate Hq|].
          injection Hq as _ _ <-. destruct Hp as [<-|[]]. reflexivity.
        * apply app_inv_head in Hcalls. subst calls.
          destruct Hin as [Hq|[]]. discriminate Hq.
    - rewrite (createMemory_mismatch
                 st memory tableName unique now fresh embedding Hemb Hlen)
        in Hcalls.
      simpl in Hcalls. rewrite <- (app_nil_r (issued st)) in Hcalls at 1.
      apply app_inv_head in Hcalls. subst calls. contradiction. }
  destruct (Hupserts _ _ _ Hissued) as (flag & vector & ->).
  destruct Hpoint as [<-|[]].
  eexists. split; [reflexivity|]. simpl.
  split; [destruct (m_id memory); reflexivity|].
  do 7 (split; [reflexivity|]).
  intros embedding Hemb.
  apply (Hvector embedding Hemb _ _ _ Hissued
                 (memory_point memory tableName flag vector now fresh)).
  left. reflexivity.
Qed.

(** The request of [searchMemories]. *)
Lemma searchMemories_run (st : State Store) (params : SearchMemoriesParams) :
  searchMemories params st =
  let request :=
    {| search_vector := sm_embedding params;
       search_limit := Some (sm_match_count params);
       search_score_threshold := Some (sm_match_threshold params);
       search_filter := Some (searchMemories_filter params);
       search_with_payload := Some true;
       search_with_vector := Some true |} in
  let '(answer, d) := search (db st) collectionName request in
  match answer with
  | inl message =>
      (Throw (RemoteError message), after st d [Search collectionName request])
  | inr rows =>
      (map_outcome (memory_of_row Some) rows,
       after st d [Search collectionName request])
  end.
Proof.
  unfold searchMemories, bind, call, after. cbv zeta.
  destruct (search _ _ _) as [[message|rows] d]; reflexivity.
Qed.

(** X18: [searchMemories] checks and cleans nothing: whatever the length
    and the values of the embedding, it issues one search with the
    embedding as given, the limit and the threshold as given, and a
    filter on [type], [roomId] and [agentId] (the last one even when
    empty), with [unique] matched against ["true"] only when [unique] is
    true. *)
Theorem searchMemories_sends_embedding_as_given
        (st : State Store) (params : SearchMemoriesParams) :
  new_calls (searchMemories params) st
  = [Search collectionName
            {| search_vector := sm_embedding params;
               search_limit := Some (sm_match_count params);
               search_score_threshold := Some (sm_match_threshold params);
               search_filter :=
                 Some {| must :=
                           [ FieldMatch "type" (Str (sm_tableName params));
                             FieldMatch "roomId" (Str (sm_roomId params));
                             FieldMatch "agentId" (Str (sm_agentId params)) ]
                           ++ (if sm_unique params
                               then [FieldMatch "unique" (Str "true")]
                               else []) |};
               search_with_payload := Some true;
               search_with_vector := Some true |}].
Proof.
  apply new_calls_after. rewrite searchMemories_run. cbv zeta.
  unfold searchMemories_filter.
  destruct (sm_unique params); simpl;
    destruct (search _ _ _) as [[message|rows] d]; reflexivity.
Qed.

(** X19: a point that the store answers without payload makes
    [getMemories], [searchMemories] and [searchMemoriesByEmbedding] throw
    a type error, after the call to the store has been issued. *)
Theorem point_without_payload_throws
        (st : State Store) (rows : list Row) (d : Store) :
  Exists (fun row => row_payload row = None) rows ->
  (forall params tableName roomId,
      gm_tableName params = Some tableName -> tableName <> "" ->
      gm_roomId params = Some roomId -> roomId <> "" ->
      scroll (db st) collectionName
             (getMemories_request tableName roomId params)
        = (inr (Some rows), d) ->
      (exists message, fst (getMemories params st)
                       = Throw (TypeError message))
      /\ length (new_calls (getMemories params) st) = 1%nat)
  /\ (forall params,
        search (db st) collectionName
               {| search_vector := sm_embedding params;
                  search_limit := Some (sm_match_count params);
                  search_score_threshold := Some (sm_match_threshold params);
                  search_filter := Some (searchMemories_filter params);
                  search_with_payload := Some true;
                  search_with_vector := Some true |}
          = (inr rows, d) ->
        (exists message, fst (searchMemories params st)
                         = Throw (TypeError message))
        /\ length (new_calls (searchMemories params) st) = 1%nat)
  /\ (forall embedding params,
        Z.of_nat (length embedding) = vectorSize st ->
        search (db st) collectionName
               (embedding_search_request embedding params)
          = (inr rows, d) ->
        (exists message,
            fst (searchMemoriesByEmbedding embedding params st)
            = Throw (TypeError message))
        /\ length (new_calls (searchMemoriesByEmbedding embedding params) st)
           = 1%nat).
Proof.
  intros Hpayload. split; [|split].
  - intros params tableName roomId Ht Htt Hr Hrt Hscroll.
    destruct (map_outcome_without_payload (fun _ => None) rows Hpayload)
      as [message Hthrow].
    rewrite (new_calls_after _ st
               [Scroll collectionName
                       (getMemories_request tableName roomId params)]);
      rewrite (getMemories_present st params tableName roomId Ht
                 (str_truthy_nonempty _ Htt) Hr (str_truthy_nonempty _ Hrt));
      cbv zeta; rewrite Hscroll; simpl; [|reflexivity].
    split; [exists message; exact Hthrow|reflexivity].
  - intros params Hsearch.
    destruct (map_outcome_without_payload Some rows Hpayload)
      as [message Hthrow].
    unfold new_calls. rewrite searchMemories_run. cbv zeta.
    rewrite Hsearch. simpl. rewrite Hthrow.
    split; [exists message; reflexivity|].
    rewrite skipn_app, skipn_all, Nat.sub_diag. reflexivity.
  - intros embedding params Hlen Hsearch.
    destruct (map_outcome_without_payload
                (fun score => Some (Some (num_or score 0))) rows Hpayload)
      as [message Hthrow].
    rewrite (new_calls_after _ st
               [Search collectionName
                       (embedding_search_request embedding params)]);
      rewrite (searchMemoriesByEmbedding_match st embedding params Hlen);
      cbv zeta; rewrite Hsearch; simpl; [|reflexivity].
    split; [exists message; exact Hthrow|reflexivity].
Qed.

(** X20: the search of [searchMemoriesByEmbedding] is limited to
    [params.count], and to 10 when that is unspecified or 0; its score
    threshold is [params.match_threshold], and 0 when that is
    unspecified or not a number; its filter is, in this order, [type] equal to
    [tableName], [unique] equal to ["true"] only when [unique] is true,
    [agentId] and [roomId] when they are supplied and not empty. *)
Theorem searchMemoriesByEmbedding_defaults
        (st : State Store) (embedding : list float)
        (params : SearchByEmbeddingParams) :
  Z.of_nat (length embedding) = vectorSize st ->
  exists request,
    new_calls (searchMemoriesByEmbedding embedding params) st
    = [Search collectionName request]
    /\ search_limit request
       = Some (match se_count params with
               | Some count =>
                   if (is_zero count || is_nan count)%bool
                   then 10%float else count
               | None => 10%float
               end)
    /\ search_score_threshold request
       = Some (match se_match_threshold params with
               | Some threshold =>
                   if (is_zero threshold || is_nan threshold)%bool
                   then 0%float else threshold
               | None => 0%float
               end)
    /\ search_filter request
       = Some {| must :=
                   [ FieldMatch "type" (Str (se_tableName params)) ]
                   ++ match se_unique params with
                      | Some true => [FieldMatch "unique" (Str "true")]
                      | Some false | None => []
                      end
                   ++ match se_agentId params with
                      | Some agentId =>
                          if String.eqb agentId "" then []
                          else [FieldMatch "agentId" (Str agentId)]
                      | None => []
                      end
                   ++ match se_roomId params with
                      | Some roomId =>
                          if String.eqb roomId "" then []
                          else [FieldMatch "roomId" (Str roomId)]
                      | None => []
                      end |}
    /\ search_with_payload request = Some true
    /\ search_with_vector request = Some true.
Proof.
  intros Hlen. exists (embedding_search_request embedding params). split.
  { apply new_calls_after.
    rewrite (searchMemoriesByEmbedding_match st embedding params Hlen).
    cbv zeta. destruct (search _ _ _) as [[message|rows] d]; reflexivity. }
  simpl. split; [|split; [|split; [|split; reflexivity]]].
  - f_equal. unfold num_or, num_truthy.
    destruct (se_count params) as [count|]; [|reflexivity].
    destruct (is_zero count || is_nan count)%bool; reflexivity.
  - f_equal. unfold num_or, num_truthy.
    destruct (se_match_threshold params) as [threshold|]; [|reflexivity].
    destruct (is_zero threshold || is_nan threshold)%bool; reflexivity.
  - f_equal. unfold searchMemoriesByEmbedding_filter. f_equal. simpl.
    f_equal.
    destruct (se_unique params) as [[|]|];
      destruct (se_agentId params) as [[|a t]|];
      destruct (se_roomId params) as [[|b u]|]; reflexivity.
Qed.

(* ===================================================================== *)
(** ** Further properties: the collection bootstrap                      *)
(* ===================================================================== *)

Lemma includes_collectionName (names : list string) :
  existsb (String.eqb collectionName) names = true <->
  In collectionName names.
Proof.
  rewrite existsb_exists. split.
  - intros (name & Hin & Heq). apply String.eqb_eq in Heq. subst. exact Hin.
  - intros Hin. exists collectionName. split; [exact Hin|].
    apply String.eqb_refl.
Qed.

Lemma init_when_listed (st : State Store) (names : list string)
      (d : Store) :
  getCollections (db st) = (inr names, d) ->
  In collectionName names ->
  fst (fst (init st)) = Return tt /\ snd (init st) = [GetCollections].
Proof.
  intros Hlist Hin. unfold init. rewrite Hlist.
  apply includes_collectionName in Hin. rewrite Hin. split; reflexivity.
Qed.

(** X21: [init] asks for the collections first. When the collection of
    the adapter is among them it calls nothing else; when it is not, it
    creates it with [vectorSize] and the cosine distance; when the listing
    fails, the error is thrown and nothing is created. The cache and the
    calls recorded for the methods stay as they are. *)
Theorem init_creates_only_when_absent (st : State Store) :
  (forall names d,
      getCollections (db st) = (inr names, d) ->
      In collectionName names ->
      fst (fst (init st)) = Return tt /\ snd (init st) = [GetCollections])
  /\ (forall names d,
        getCollections (db st) = (inr names, d) ->
        ~ In collectionName names ->
        snd (init st)
        = [GetCollections;
           CreateCollection "collection" (vectorSize st) "Cosine"])
  /\ (forall message d,
        getCollections (db st) = (inl message, d) ->
        fst (fst (init st)) = Throw (RemoteError message)
        /\ snd (init st) = [GetCollections])
  /\ cacheM (snd (fst (init st))) = cacheM st
  /\ issued (snd (fst (init st))) = issued st.
Proof.
  split; [|split; [|split]]; try unfold init.
  - apply init_when_listed.
  - intros names d -> Hout.
    destruct (existsb _ names) eqn:Ein.
    + apply includes_collectionName in Ein. contradiction.
    + destruct (createCollection _ _ _ _) as [created d']. reflexivity.
  - intros message d ->. split; reflexivity.
  - destruct (getCollections (db st)) as [[message|names] d];
      [split; reflexivity|].
    destruct (existsb _ names); [split; reflexivity|].
    destruct (createCollection _ _ _ _) as [created d']. split; reflexivity.
Qed.

(** X22: on a store that keeps its collections, [init] is idempotent:
    after an [init] that found the collection, or created it, a second
    [init] returns after listing the collections and creates nothing. *)
Theorem init_twice_creates_once (st : State Store)
        (names : list string) (d : Store) :
  keeps_collections ->
  getCollections (db st) = (inr names, d) ->
  In collectionName names
  \/ (exists d', createCollection d collectionName (vectorSize st) "Cosine"
                 = (inr true, d')) ->
  let st' := snd (fst (init st)) in
  fst (fst (init st')) = Return tt /\ snd (init st') = [GetCollections].
Proof.
  intros [Hcreated Hlisted] Hlist Hfirst st'.
  assert (Hnext : exists names' d'',
             getCollections (db st') = (inr names', d'')
             /\ In collectionName names').
  { unfold st', init. rewrite Hlist.
    destruct (existsb _ names) eqn:Ein.
    - apply includes_collectionName in Ein. simpl.
      apply (Hlisted _ _ _ _ Hlist Ein).
    - destruct Hfirst as [Hin|[d' Hcreate]].
      + apply includes_collectionName in Hin. congruence.
      + rewrite Hcreate. simpl. apply (Hcreated _ _ _ _ _ Hcreate). }
  destruct Hnext as (names' & d'' & Hlist' & Hin').
  apply (init_when_listed st' names' d'' Hlist' Hin').
Qed.

End WithClient.

(* ===================================================================== *)
(** ** The properties on the store in memory                             *)
(* ===================================================================== *)

Section OnTheStoreInMemory.
Import InMemory.

(** C1, as the specification has it, fails: on a new adapter the lookup
    misses and the one call issued is a search with the query embedding,
    not a retrieval. *)
Lemma searchKnowledge_miss_counterexample :
  cacheM (fresh_adapter [])
    !! buildKey "agent-1" (cacheKey Number_toString query) = None
  /\ issued (snd (searchKnowledge Number_toString JSON_stringify_item
                                  JSON_parse query (fresh_adapter [])))
     = [Search "collection"
               {| search_vector := [1; 2; 3]%float;
                  search_limit := None;
                  search_score_threshold := None;
                  search_filter := None;
                  search_with_payload := None;
                  search_with_vector := Some true |}]
  /\ existsb is_retrieve
             (issued (snd (searchKnowledge Number_toString
                                           JSON_stringify_item JSON_parse
                                           query (fresh_adapter []))))
     = false.
Proof. repeat split; vm_compute; reflexivity. Qed.

Lemma searchKnowledge_miss_witness :
  cache_misses Number_toString (fresh_adapter []) query
  /\ issued (snd (searchKnowledge Number_toString JSON_stringify_item
                                  JSON_parse query (fresh_adapter [])))
     = [Search collectionName (searchKnowledge_request query)].
Proof.
  split; [reflexivity|].
  exact (proj1 (searchKnowledge_miss_issues_similarity_search
                  Number_toString JSON_stringify_item JSON_parse
                  (fresh_adapter []) query eq_refl)).
Defined.

Lemma searchKnowledge_twice_witness :
  let st := fresh_adapter [some_point] in
  let run := searchKnowledge Number_toString JSON_stringify_item
                             JSON_parse query in
  issued (snd (run (snd (run st))))
  = [Search collectionName (searchKnowledge_request query)].
Proof.
  exact (proj2 (proj2 (proj2 (proj2
    (searchKnowledge_twice_one_remote_call
       Number_toString JSON_stringify_item JSON_parse
       (fresh_adapter [some_point]) query query
       [stored_row (Some 1%float) some_point] [some_point]
       (Str (JSON_stringify JSON_stringify_item
               (map (knowledge_of_row Number_toString true)
                    [stored_row (Some 1%float) some_point])))
       eq_refl eq_refl eq_refl eq_refl eq_refl))))).
Defined.

(** C3, as the specification has it, fails: the caller passes [unique]
    true for a memory with an embedding and no flag of its own, the search
    finds a similar memory, and [false] is stored. *)
Lemma createMemory_unique_argument_counterexample :
  m_embedding memory = Some [1; 0; 0]%float
  /\ m_unique memory = None
  /\ flat_map stored_unique
              (issued (snd (createMemory v5 memory "facts" (Some true)
                                         1700000000000 "fresh"
                                         (fresh_adapter [some_point]))))
     = [Bool false].
Proof. repeat split; vm_compute; reflexivity. Qed.

Lemma createMemory_similarity_check_witness :
  createMemory v5 memory "facts" (Some true) 1700000000000 "fresh"
               (fresh_adapter [some_point])
  = createMemory v5 memory "facts" None 1700000000000 "fresh"
                 (fresh_adapter [some_point]).
Proof.
  exact (proj1 (proj2
    (createMemory_similarity_check_decides_unique
       v5 (fresh_adapter [some_point]) memory "facts" (Some true)
       1700000000000 "fresh" [1; 0; 0]%float eq_refl eq_refl
       ltac:(discriminate)))).
Defined.

(** C4, as the specification has it, fails: a shared record with an
    embedding of the configured dimension is read back without its
    [agentId]. *)
Lemma knowledge_read_back_counterexample :
  k_embedding shared_knowledge = Some [0.5; 1; 0]%float
  /\ k_agentId shared_knowledge = "agent-1"
  /\ kr_agentId (read_back v5 Number_toString shared_knowledge 5)
     = Str "".
Proof. repeat split; vm_compute; reflexivity. Qed.

Lemma float32_examples : Forall is_float32 [0.5; 1; 0]%float.
Proof. repeat constructor. Defined.

Lemma knowledge_read_back_witness :
  kr_embedding (read_back v5 Number_toString shared_knowledge 5)
  = Some [0.5; 1; 0]%float.
Proof.
  exact (proj1 (knowledge_read_back_fields
                  v5 Number_toString shared_knowledge 5 [0.5; 1; 0]%float
                  eq_refl float32_examples)).
Defined.

(** C5, as the specification has it, fails: [unique] is supplied, as
    false, and the filter holds no condition on it. *)
Lemma getMemories_filter_counterexample :
  gm_unique (listing (Some false) None None None) = Some false
  /\ issued (snd (getMemories (listing (Some false) None None None)
                              (fresh_adapter [])))
     = [Scroll "collection"
               {| scroll_limit := 100;
                  scroll_filter :=
                    {| must := [ FieldMatch "type" (Str "facts");
                                 FieldMatch "roomId" (Str "r1") ] |};
                  scroll_with_payload := true;
                  scroll_with_vector := true |}].
Proof. repeat split; vm_compute; reflexivity. Qed.

Lemma getMemories_filter_witness :
  exists request,
    issued (snd (getMemories
                   (listing (Some true) None (Some 100%float)
                            (Some 200%float))
                   (fresh_adapter [])))
    = [Scroll collectionName request]
    /\ must (scroll_filter request)
       = [ FieldMatch "type" (Str "facts");
           FieldMatch "roomId" (Str "r1");
           FieldMatch "unique" (Str "true");
           Range "createdAt" (Some 100%float) (Some 200%float) ].
Proof.
  destruct (getMemories_filter_conjunction
              (fresh_adapter [])
              (listing (Some true) None (Some 100%float) (Some 200%float))
              "facts" "r1" eq_refl ltac:(discriminate) eq_refl
              ltac:(discriminate))
    as (request & Hissued & _ & Hexample).
  exists request. split; [exact Hissued|].
  exact (Hexample eq_refl eq_refl eq_refl eq_refl eq_refl eq_refl).
Defined.

Lemma dimension_guard_witness :
  searchMemoriesByEmbedding [1; 2]%float any_table (fresh_adapter [])
  = (Throw (JsError "Invalid embedding dimension: expected 3, got 2"),
     fresh_adapter []).
Proof.
  exact (proj1 (proj1 (searchMemoriesByEmbedding_dimension_guard
                         (fresh_adapter []) [1; 2]%float any_table)
                      ltac:(discriminate))).
Defined.


(** C9, as the specification has it, fails: with [count] 0 the scroll is
    limited to 100, not to [params.count]. *)
Lemma getMemories_count_counterexample :
  gm_count (listing None (Some 0%float) None None) = Some 0%float
  /\ issued (snd (getMemories (listing None (Some 0%float) None None)
                              (fresh_adapter [])))
     = [Scroll "collection"
               {| scroll_limit := 100;
                  scroll_filter :=
                    {| must := [ FieldMatch "type" (Str "facts");
                                 FieldMatch "roomId" (Str "r1") ] |};
                  scroll_with_payload := true;
                  scroll_with_vector := true |}].
Proof. repeat split; vm_compute; reflexivity. Qed.

Lemma getMemories_guards_witness :
  getMemories no_table (fresh_adapter [some_point])
  = (Throw (JsError "tableName is required"), fresh_adapter [some_point])
  /\ issued (snd (getMemories no_table (fresh_adapter [some_point])))
     = [].
Proof.
  exact (proj1 (getMemories_guards_then_scrolls
                  (fresh_adapter [some_point]) no_table)
               (or_introl eq_refl)).
Defined.

Lemma unique_type_mismatch_witness :
  exists flag,
    get "unique"
        (point_payload
           (memory_point v5 memory "facts" false [1; 0; 0]%float
                         1700000000000 "fresh"))
    = Bool flag.
Proof.
  refine (proj1
    (unique_stored_as_boolean_matched_as_string
       v5 (fresh_adapter [some_point]) memory "facts" (Some true)
       1700000000000 "fresh" "collection" true
       [memory_point v5 memory "facts" false [1; 0; 0]%float
                     1700000000000 "fresh"]
       (memory_point v5 memory "facts" false [1; 0; 0]%float
                     1700000000000 "fresh")
       _ _)).
  - right. left. reflexivity.
  - left. reflexivity.
Defined.

(* ===================================================================== *)
(** ** Further properties on the store in memory                         *)
(* ===================================================================== *)

Lemma filter_none (ids : list string) (points : list PointStruct) :
  Forall (fun p => ~ In (point_id p) ids) points ->
  List.filter (fun p => existsb (String.eqb (point_id p)) ids) points = [].
Proof.
  induction 1 as [|p points Hp _ IH]; simpl; [reflexivity|].
  destruct (existsb _ ids) eqn:Ein; [|exact IH].
  apply existsb_exists in Ein. destruct Ein as (id & Hin & Heq).
  apply String.eqb_eq in Heq. subst id. contradiction.
Qed.

(** X23: on a store that answers a retrieval with the points it holds
    under the identifiers asked for, the knowledge written by
    [createKnowledge] is not found by [getKnowledge] with the [id] of the
    record, since [getKnowledge] asks for that [id] as it is while the
    point is held under the derived identifier; asked for the derived
    identifier, [getKnowledge] returns the record as read back. *)
Theorem created_knowledge_is_held_under_the_derived_id
        (uuid5 : string -> string -> string) (to_string : float -> string)
        (st : State (list PointStruct)) (knowledge : RAGKnowledgeItem)
        (now : float) :
  let derived := buildQdrantID uuid5 (k_id knowledge) in
  let st' := snd (createKnowledge uuid5 knowledge now st) in
  k_id knowledge <> "" -> derived <> "" -> derived <> k_id knowledge ->
  Forall (fun p => point_id p <> k_id knowledge /\ point_id p <> derived)
         (db st) ->
  fst (getKnowledge to_string {| gk_id := Some (k_id knowledge) |} st')
  = Return []
  /\ fst (getKnowledge to_string {| gk_id := Some derived |} st')
     = Return [read_back uuid5 to_string knowledge now].
Proof.
  intros derived st' Hid Hderived Hne Hpoints.
  assert (Hdb : db st' = (db st ++ [knowledge_point uuid5 knowledge now])%list)
    by reflexivity.
  assert (Hrun : forall id,
             id <> "" ->
             fst (getKnowledge to_string {| gk_id := Some id |} st')
             = Return (map (knowledge_of_row to_string false)
                           (map (stored_row None)
                                (List.filter
                                   (fun p => existsb (String.eqb (point_id p))
                                                     [id])
                                   (db st'))))).
  { intros id Hne'. unfold getKnowledge, bind, call, ret.
    destruct id as [|a t]; [contradiction|]. reflexivity. }
  rewrite !Hrun by assumption.
  rewrite Hdb, !List.filter_app. split.
  - rewrite !filter_none; [reflexivity| |].
    + constructor; [|constructor]. simpl. fold derived. intros [Heq|[]].
      apply Hne. symmetry. exact Heq.
    + eapply List.Forall_impl; [|exact Hpoints]. simpl.
      intros p [Hp _] [Heq|[]]. apply Hp. symmetry. exact Heq.
  - rewrite filter_none.
    + simpl. fold derived. rewrite String.eqb_refl. reflexivity.
    + eapply List.Forall_impl; [|exact Hpoints]. simpl.
      intros p [_ Hp] [Heq|[]]. apply Hp. symmetry. exact Heq.
Qed.

(** *** The further properties at work *)

Lemma cache_entries_apart_witness :
  fst (getCache "k2" "agent-2"
                (snd (setCache "k1" "agent-1" "v" (fresh_adapter []))))
  = fst (getCache "k2" "agent-2" (fresh_adapter [])).
Proof.
  exact (proj1 (cache_entries_apart (fresh_adapter []) "k1" "agent-1" "k2"
                                    "agent-2" "v" eq_refl eq_refl
                                    ltac:(discriminate))).
Defined.

Lemma searchKnowledge_ignores_witness :
  searchKnowledge Number_toString JSON_stringify_item JSON_parse query
                  (fresh_adapter [some_point])
  = searchKnowledge Number_toString JSON_stringify_item JSON_parse
                    narrow_query (fresh_adapter [some_point]).
Proof.
  exact (searchKnowledge_ignores_threshold_count_text
           Number_toString JSON_stringify_item JSON_parse
           (fresh_adapter [some_point]) query narrow_query eq_refl eq_refl).
Defined.

Lemma searchKnowledge_failure_witness :
  fst (searchKnowledge Number_toString JSON_stringify_item JSON_parse query
                       offline_adapter)
  = Throw (RemoteError "offline").
Proof.
  exact (proj1 (searchKnowledge_failure_is_not_cached
                  Number_toString JSON_stringify_item JSON_parse
                  offline_adapter query "offline" offline eq_refl eq_refl)).
Defined.

Lemma searchKnowledge_hit_witness :
  snd (searchKnowledge Number_toString JSON_stringify_item JSON_parse query
                       cached_adapter)
  = cached_adapter.
Proof.
  exact (proj1 (searchKnowledge_hit_stays_local
                  Number_toString JSON_stringify_item JSON_parse
                  cached_adapter query "[" "{p1}]" eq_refl)).
Defined.

Lemma cached_results_survive_witness :
  fst (searchKnowledge Number_toString JSON_stringify_item JSON_parse query
         (snd (createKnowledge v5 shared_knowledge 5 cached_adapter)))
  = Return (Cached (Str "[{p1}]")).
Proof.
  exact (f_equal fst
           (proj1 (cached_results_survive_writes
                     v5 Number_toString JSON_stringify_item JSON_parse
                     cached_adapter query "[" "{p1}]" (Str "[{p1}]")
                     eq_refl eq_refl)
                  shared_knowledge 5%float)).
Defined.

Lemma createMemory_wrong_dimension_witness :
  createMemory v5 memory "facts" None 5 "fresh"
               {| cacheM := ∅; vectorSize := 4; db := [];
                  issued := [] |}
  = (Throw (JsError "Invalid embedding dimension: expected 4, got 3"),
     {| cacheM := ∅; vectorSize := 4; db := []; issued := [] |}).
Proof.
  exact (proj1 (createMemory_wrong_dimension_writes_nothing
                  v5 {| cacheM := ∅; vectorSize := 4; db := [];
                        issued := [] |}
                  memory "facts" None 5%float "fresh" [1; 0; 0]%float
                  eq_refl ltac:(discriminate))).
Defined.

Lemma createMemory_without_embedding_witness :
  exists point,
    new_calls (createMemory v5 plain_memory "facts" (Some false) 5 "fresh")
              (fresh_adapter [])
    = [Upsert collectionName true [point]]
    /\ point_vector point = [0; 0; 0]%float
    /\ get "unique" (point_payload point) = Bool false.
Proof.
  destruct (proj1 (createMemory_without_embedding_stores_zeros
                     v5 (fresh_adapter []) plain_memory "facts" (Some false)
                     5%float "fresh" eq_refl)
                  ltac:(split; [discriminate|reflexivity]))
    as (point & Hcalls & _ & _ & Hunique).
  exists point. split; [exact Hcalls|]. split; [|exact Hunique].
  injection Hcalls as <-. reflexivity.
Defined.

Lemma createMemory_failed_check_witness :
  new_calls (createMemory v5 memory "facts" None 5 "fresh") offline_adapter
  = [Search collectionName
            (embedding_search_request [1; 0; 0]%float
                                      (similar_params memory "facts"))].
Proof.
  exact (proj2 (proj1 (createMemory_failed_check_writes_nothing
                         v5 offline_adapter memory "facts" None 5%float
                         "fresh" [1; 0; 0]%float eq_refl eq_refl)
                      "offline" offline eq_refl)).
Defined.

Lemma createMemory_point_reads_back_witness :
  exists record,
    memory_of_row (fun _ => None)
                  (stored_row None
                     (memory_point v5 memory "facts" true [1; 0; 0]%float 5
                                   "fresh"))
    = Return record
    /\ mr_id record = Str "m1".
Proof.
  assert (Hissued :
            In (Upsert collectionName true
                       [memory_point v5 memory "facts" true [1; 0; 0]%float
                                     5 "fresh"])
               (new_calls (createMemory v5 memory "facts" None 5 "fresh")
                          (fresh_adapter [])))
    by (vm_compute; right; left; reflexivity).
  destruct (createMemory_point_reads_back
              v5 (fresh_adapter []) memory "facts" None 5%float "fresh"
              collectionName true
              [memory_point v5 memory "facts" true [1; 0; 0]%float 5 "fresh"]
              (memory_point v5 memory "facts" true [1; 0; 0]%float 5 "fresh")
              None (fun _ => None) Hissued (or_introl eq_refl))
    as (record & Hrecord & Hid & _).
  exists record. split; [exact Hrecord|exact Hid].
Defined.

Lemma point_without_payload_witness :
  exists message,
    fst (searchMemoriesByEmbedding [1; 0; 0]%float any_table bare_adapter)
    = Throw (TypeError message).
Proof.
  exact (proj1 (proj2 (proj2 (point_without_payload_throws
                                bare_adapter [bare_row] bare
                                ltac:(constructor; reflexivity)))
                      [1; 0; 0]%float any_table eq_refl eq_refl)).
Defined.

Lemma searchMemoriesByEmbedding_defaults_witness :
  exists request,
    new_calls (searchMemoriesByEmbedding [1; 0; 0]%float any_table)
              (fresh_adapter [])
    = [Search collectionName request]
    /\ search_limit request = Some 10%float
    /\ search_score_threshold request = Some 0%float.
Proof.
  destruct (searchMemoriesByEmbedding_defaults
              (fresh_adapter []) [1; 0; 0]%float any_table eq_refl)
    as (request & Hcalls & Hlimit & Hthreshold & _).
  exists request. split; [exact Hcalls|]. split; assumption.
Defined.

Lemma collections_kept : @keeps_collections (list string) collections.
Proof.
  split.
  - intros d name size distance d' Hcreate. injection Hcreate as <-.
    exists (d ++ [name])%list, (d ++ [name])%list.
    split; [reflexivity|]. apply in_or_app. right. left. reflexivity.
  - intros d names d' name Hlist Hin. injection Hlist as <- <-.
    exists d, d. split; [reflexivity|exact Hin].
Defined.

Lemma init_twice_witness :
  snd (init (snd (fst (init (adapter_over ["other"])))))
  = [GetCollections].
Proof.
  exact (proj2 (init_twice_creates_once
                  (adapter_over ["other"]) ["other"] ["other"]
                  collections_kept eq_refl
                  (or_intror (ex_intro _ ["other"; "collection"] eq_refl)))).
Defined.

Lemma created_knowledge_witness :
  fst (getKnowledge Number_toString {| gk_id := Some "k1" |}
         (snd (createKnowledge v5 shared_knowledge 5 (fresh_adapter []))))
  = Return [].
Proof.
  exact (proj1 (created_knowledge_is_held_under_the_derived_id
                  v5 Number_toString (fresh_adapter []) shared_knowledge
                  5%float ltac:(discriminate) ltac:(discriminate)
                  ltac:(discriminate) ltac:(constructor))).
Defined.

End OnTheStoreInMemory.

End Adapter.

(* ===================================================================== *)
(** * Properties of the content normalizer                               *)
(* ===================================================================== *)

Module PreprocessFacts.
Import Regex Preprocess PlainText.

(** ** The scan of [replace] where nothing matches *)

(** No match anywhere: the text is left as it is. *)
Lemma replace_from_no_match (r : regex) (tpl : template) (s : text) :
  forall prev,
    (forall prev' s', s' `suffix_of` s -> exec r prev' s' = None) ->
    replace_from r tpl prev s 0 = s.
Proof.
  induction s as [|x s IH]; intros prev Hnone; simpl.
  - rewrite Hnone by reflexivity. reflexivity.
  - rewrite Hnone by reflexivity. f_equal. apply IH.
    intros prev' s' Hs'. apply Hnone. apply suffix_cons_r, Hs'.
Qed.

(** One step of the scan. *)
Lemma replace_from_cons (r : regex) (tpl : template) (prev : option char)
      (x : char) (s : text) :
  replace_from r tpl prev (x :: s) 0 =
  match exec r prev (x :: s) with
  | Some (rest, c) =>
      expand tpl c ++
      match (length (x :: s) - length rest)%nat with
      | O => x :: replace_from r tpl (Some x) s 0
      | S j => replace_from r tpl (Some x) s j
      end
  | None => x :: replace_from r tpl (Some x) s 0
  end.
Proof. reflexivity. Qed.

Lemma length_cons_sub (x : char) (s : text) :
  (length (x :: s) - length s)%nat = 1%nat.
Proof. simpl length. lia. Qed.

(** [trim] on a text without space at either end. *)
Lemma trim_start_clean (s : text) : starts_clean s -> trim_start s = s.
Proof. destruct s as [|x s]; simpl; [reflexivity|]. intros ->. reflexivity. Qed.

(* ===================================================================== *)
(** ** Further properties: the last steps of [preprocess]                *)
(* ===================================================================== *)

Lemma length_trim_start (s : text) : (length (trim_start s) <= length s)%nat.
Proof.
  induction s as [|x s IH]; simpl; [lia|].
  destruct (white_space x); simpl; lia.
Qed.

(** The greedy loop of [\s+] eats the white space in front. *)
Lemma spaces_loop (n : nat) :
  forall prev s,
    (length s <= n)%nat ->
    repeat_loop (run (Chr white_space)) [] true finish n 0 None prev s []
    = Some (trim_start s, []).
Proof.
  induction n as [|n IH]; intros prev s Hn.
  - destruct s; [reflexivity|simpl in Hn; lia].
  - destruct s as [|x s]; [reflexivity|].
    simpl in Hn. cbn [repeat_loop max_is_zero run reset List.filter].
    cbn [trim_start]. destruct (white_space x); [|reflexivity].
    replace (Nat.eqb (length s) (length (x :: s))) with false
      by (symmetry; apply Nat.eqb_neq; simpl; lia).
    cbn [Nat.eqb andb negb Nat.pred dec_max].
    rewrite IH by lia. reflexivity.
Qed.

(** One turn of the quantifier loop. *)
Lemma repeat_loop_step
      (body : option char -> text -> captures -> cont ->
              option (text * captures))
      (gs : list nat) (greedy : bool) (k : cont) (n lo : nat)
      (hi : option nat) (prev : option char) (s : text) (c : captures) :
  repeat_loop body gs greedy k (S n) lo hi prev s c =
  if max_is_zero hi then k prev s c else
  let iter :=
    body prev s (reset gs c)
         (fun prev' s' c' =>
            if Nat.eqb lo 0 && Nat.eqb (length s') (length s)
            then None
            else repeat_loop body gs greedy k n (Nat.pred lo) (dec_max hi)
                             prev' s' c') in
  if negb (Nat.eqb lo 0) then iter
  else if greedy then
    match iter with
    | Some z => Some z
    | None => k prev s c
    end
  else
    match k prev s c with
    | Some z => Some z
    | None => iter
    end.
Proof. reflexivity. Qed.

Lemma exec_spaces (prev : option char) (s : text) :
  exec spaces prev s =
  match s with
  | [] => None
  | x :: s' => if white_space x then Some (trim_start s', []) else None
  end.
Proof.
  unfold exec, spaces, plus. fold finish.
  destruct s as [|x s]; [reflexivity|].
  change (run (Rep true 1 None (Chr white_space)) prev (x :: s) [] finish)
    with (repeat_loop (run (Chr white_space)) [] true finish
                      (S (S (length s))) 1 None prev (x :: s) []).
  rewrite repeat_loop_step. cbn [max_is_zero Nat.eqb negb andb run].
  destruct (white_space x); [|reflexivity].
  cbn [Nat.pred dec_max]. apply spaces_loop. lia.
Qed.

Lemma leading_spaces_cons (x : char) (s : text) :
  leading_spaces (x :: s)
  = if white_space x then S (leading_spaces s) else 0%nat.
Proof.
  unfold leading_spaces. cbn [trim_start].
  pose proof (length_trim_start s) as Hle.
  destruct (white_space x); simpl length; lia.
Qed.

(** The scan of [/\s+/g] with the replacement [" "], at the start of a
    match or inside one, is the direct collapse. *)
Lemma replace_spaces_collapse (s : text) :
  forall prev,
    replace_from spaces [Lit (of_string " ")] prev s 0
    = collapse_from false s
    /\ replace_from spaces [Lit (of_string " ")] prev s (leading_spaces s)
       = collapse_from true s.
Proof.
  induction s as [|x s IH]; intros prev; [split; reflexivity|].
  assert (Hstart : replace_from spaces [Lit (of_string " ")] prev (x :: s) 0
                   = collapse_from false (x :: s)).
  { rewrite replace_from_cons, exec_spaces. cbn [collapse_from].
    destruct (white_space x).
    - change (length (x :: s) - length (trim_start s))%nat
        with (S (length s) - length (trim_start s))%nat.
      pose proof (length_trim_start s) as Hle.
      replace (S (length s) - length (trim_start s))%nat
        with (S (leading_spaces s)) by (unfold leading_spaces; lia).
      destruct (IH (Some x)) as [_ Hrun]. rewrite Hrun. reflexivity.
    - destruct (IH (Some x)) as [Hnext _]. rewrite Hnext. reflexivity. }
  split; [exact Hstart|].
  rewrite leading_spaces_cons. cbn [collapse_from].
  destruct (white_space x) eqn:Ex.
  - cbn [replace_from]. apply IH.
  - rewrite Hstart. cbn [collapse_from]. rewrite Ex. reflexivity.
Qed.

Lemma replace_all_spaces (s : text) :
  replace_all spaces [Lit (of_string " ")] s = collapse s.
Proof. apply replace_spaces_collapse. Qed.

Lemma replace_all_disallowed (s : text) :
  replace_all disallowed [] s = List.filter allowed s.
Proof.
  unfold replace_all. generalize (@None char).
  induction s as [|x s IH]; intros prev; [reflexivity|].
  rewrite replace_from_cons. unfold exec, disallowed. cbn [run List.filter].
  destruct (allowed x); cbn [negb].
  - f_equal. apply IH.
  - rewrite length_cons_sub. cbn [expand flat_map app]. apply IH.
Qed.

(** After the collapse, white space is the space only. *)
Lemma collapse_from_spaces (s : text) :
  forall in_run, Forall space_or_not_white (collapse_from in_run s).
Proof.
  induction s as [|x s IH]; intros in_run; simpl; [constructor|].
  destruct (white_space x) eqn:Ex.
  - destruct in_run; [apply IH|].
    constructor; [intros _; reflexivity|apply IH].
  - constructor; [|apply IH]. intros Hx. congruence.
Qed.

(** [/\n{3,}/] finds nothing in a text without line feed. *)
Lemma newlines_no_match_without_line_feed (s : text) :
  Forall space_or_not_white s ->
  forall prev s', s' `suffix_of` s -> exec newlines prev s' = None.
Proof.
  intros Hs prev s' [pre ->]. apply Forall_app in Hs. destruct Hs as [_ Hs].
  unfold exec, newlines.
  cbn [run Nat.add length repeat_loop max_is_zero].
  destruct Hs as [|x s Hx _]; [reflexivity|].
  cbn [run]. destruct (N.eqb_spec x 10) as [->|Hne]; [|reflexivity].
  specialize (Hx eq_refl). discriminate Hx.
Qed.

Lemma trim_start_clean_start (s : text) : starts_clean (trim_start s).
Proof.
  induction s as [|x s IH]; simpl; [exact I|].
  destruct (white_space x) eqn:Ex; [exact IH|exact Ex].
Qed.

Lemma trim_start_snoc (l : text) (h : char) :
  white_space h = false -> trim_start (l ++ [h]) = trim_start l ++ [h].
Proof.
  intros Hh. induction l as [|x l IH]; simpl.
  - rewrite Hh. reflexivity.
  - destruct (white_space x); [exact IH|reflexivity].
Qed.

Lemma trim_clean_ends (s : text) :
  starts_clean (trim s) /\ starts_clean (rev (trim s)).
Proof.
  unfold trim, trim_end. split.
  - pose proof (trim_start_clean_start s) as Hv.
    destruct (trim_start s) as [|h v]; [exact I|].
    simpl in Hv. simpl rev. rewrite (trim_start_snoc _ h Hv).
    rewrite rev_app_distr. simpl. exact Hv.
  - rewrite rev_involutive. apply trim_start_clean_start.
Qed.

Lemma Forall_trim_start (P : char -> Prop) (s : text) :
  Forall P s -> Forall P (trim_start s).
Proof.
  induction 1 as [|x s Hx Hs IH]; simpl; [constructor|].
  destruct (white_space x); [exact IH|constructor; assumption].
Qed.

Lemma Forall_trim (P : char -> Prop) (s : text) :
  Forall P s -> Forall P (trim s).
Proof.
  intros Hs. unfold trim, trim_end.
  apply Forall_rev, Forall_trim_start, Forall_rev, Forall_trim_start, Hs.
Qed.

(** The last four steps of [preprocess], written directly. *)
Lemma last_steps (s : text) :
  trim (replace_all disallowed []
          (replace_all newlines [Lit [10%N; 10%N]]
             (replace_all spaces [Lit (of_string " ")] s)))
  = trim (List.filter allowed (collapse s)).
Proof.
  rewrite replace_all_disallowed, replace_all_spaces.
  unfold replace_all at 1.
  rewrite replace_from_no_match; [reflexivity|].
  apply newlines_no_match_without_line_feed, collapse_from_spaces.
Qed.

Lemma Forall_filter_allowed (P : char -> Prop) (s : text) :
  Forall P s -> Forall P (List.filter allowed s).
Proof.
  induction 1 as [|x s Hx _ IH]; simpl; [constructor|].
  destruct (allowed x); [constructor; assumption|exact IH].
Qed.

Lemma filter_allowed_allowed (s : text) :
  Forall (fun c => allowed c = true) (List.filter allowed s).
Proof.
  induction s as [|x s IH]; simpl; [constructor|].
  destruct (allowed x) eqn:Ex; [constructor; assumption|exact IH].
Qed.

(** X24: whatever the content, the text [preprocess] returns holds only
    code units of the class [a-zA-Z0-9\s\-_./:?=&]; the only white space
    in it is the space U+0020, so that it is one line; and it neither
    starts nor ends with white space. *)
Theorem preprocess_output_shape (content : text) :
  Forall (fun c => allowed c = true) (preprocess content)
  /\ Forall space_or_not_white (preprocess content)
  /\ starts_clean (preprocess content)
  /\ starts_clean (rev (preprocess content)).
Proof.
  destruct content as [|x content].
  { repeat split; constructor. }
  unfold preprocess, replacements. cbv zeta. rewrite last_steps.
  split; [|split; [|apply trim_clean_ends]].
  - apply Forall_trim, filter_allowed_allowed.
  - apply Forall_trim, Forall_filter_allowed, collapse_from_spaces.
Qed.

(** X25: the step that is to turn three or more line feeds into two
    never changes anything: it runs on a text in which every run of white
    space, line feeds included, has become one space. *)
Theorem newlines_step_changes_nothing (s : text) :
  replace_all newlines [Lit [10%N; 10%N]]
              (replace_all spaces [Lit (of_string " ")] s)
  = replace_all spaces [Lit (of_string " ")] s.
Proof.
  rewrite replace_all_spaces. unfold replace_all.
  apply replace_from_no_match.
  apply newlines_no_match_without_line_feed, collapse_from_spaces.
Qed.

(** X26: the replacement of [/\s+/g] by a space is the collapse of every
    run of white space into one space, and the replacement of
    [/[^a-zA-Z0-9\s\-_./:?=&]/g] by nothing is the filter that keeps the
    code units of the class: the backtracking matcher computes what the
    two direct functions compute. *)
Theorem spaces_and_class_steps_computed_directly (s : text) :
  replace_all spaces [Lit (of_string " ")] s = collapse s
  /\ replace_all disallowed [] s = List.filter allowed s.
Proof. split; [apply replace_all_spaces|apply replace_all_disallowed]. Qed.

(* ===================================================================== *)
(** ** What the matcher computes: literals, options, character loops      *)
(* ===================================================================== *)

Lemma reset_nil (c : captures) : reset [] c = c.
Proof.
  induction c as [|b c IH]; [reflexivity|].
  unfold reset in *. simpl. f_equal. exact IH.
Qed.

Lemma strip_prefix_app (p s t : text) :
  strip_prefix p s = Some t -> s = (p ++ t)%list.
Proof.
  revert s. induction p as [|y p IH]; intros s H; simpl in H.
  - injection H as ->. reflexivity.
  - destruct s as [|x s]; [discriminate|].
    destruct (N.eqb_spec x y) as [->|]; [|discriminate].
    simpl. f_equal. apply IH, H.
Qed.

Lemma strip_prefix_here (p t : text) : strip_prefix p (p ++ t) = Some t.
Proof.
  induction p as [|y p IH]; [reflexivity|].
  simpl. rewrite N.eqb_refl. exact IH.
Qed.

(** Continuations that agree give the same match. *)
Lemma repeat_loop_ext
      (body : option char -> text -> captures -> cont ->
              option (text * captures))
      (gs : list nat) (greedy : bool) (k1 k2 : cont) :
  (forall prev s c ka kb,
      (forall p' s' c', ka p' s' c' = kb p' s' c') ->
      body prev s c ka = body prev s c kb) ->
  (forall p' s' c', k1 p' s' c' = k2 p' s' c') ->
  forall n lo hi prev s c,
    repeat_loop body gs greedy k1 n lo hi prev s c
    = repeat_loop body gs greedy k2 n lo hi prev s c.
Proof.
  intros Hbody Hk. induction n as [|n IH]; intros lo hi prev s c.
  - simpl. rewrite Hk. reflexivity.
  - rewrite !repeat_loop_step. rewrite Hk. cbv zeta.
    rewrite (Hbody prev s (reset gs c) _
               (fun prev' s' c' =>
                  if Nat.eqb lo 0 && Nat.eqb (length s') (length s)
                  then None
                  else repeat_loop body gs greedy k2 n (Nat.pred lo)
                                   (dec_max hi) prev' s' c')).
    + reflexivity.
    + intros p' s' c'.
      destruct (Nat.eqb lo 0 && Nat.eqb (length s') (length s));
        [reflexivity|apply IH].
Qed.

Lemma run_ext (r : regex) :
  forall prev s c k1 k2,
    (forall p' s' c', k1 p' s' c' = k2 p' s' c') ->
    run r prev s c k1 = run r prev s c k2.
Proof.
  induction r as [|p|r1 IH1 r2 IH2|greedy lo hi r1 IH|i r1 IH| |];
    intros prev s c k1 k2 Hk; simpl.
  - apply Hk.
  - destruct s as [|x s]; [reflexivity|]. destruct (p x); [apply Hk|reflexivity].
  - apply IH1. intros p' s' c'. apply IH2, Hk.
  - apply repeat_loop_ext; [|exact Hk].
    intros prev0 s0 c0 ka kb Hab. apply IH, Hab.
  - apply IH. intros p' s' c'. apply Hk.
  - destruct (at_line_start prev); [apply Hk|reflexivity].
  - destruct (at_line_end s); [apply Hk|reflexivity].
Qed.

(** A literal matches the prefix it spells. *)
Lemma run_lit (str : string) :
  forall prev s c k,
    run (lit str) prev s c k =
    match strip_prefix (of_string str) s with
    | Some t => k (last_of prev (of_string str)) t c
    | None => None
    end.
Proof.
  induction str as [|a str IH]; intros prev s c k; [reflexivity|].
  destruct str as [|b str].
  - simpl. destruct s as [|x s]; [reflexivity|].
    unfold is_char. destruct (N.eqb_spec x (of_ascii a)) as [->|];
      reflexivity.
  - change (lit (String a (String b str)))
      with (Seq (Chr (is_char a)) (lit (String b str))).
    cbn [run]. cbn [of_string strip_prefix].
    destruct s as [|x s]; [reflexivity|].
    unfold is_char at 1.
    destruct (N.eqb_spec x (of_ascii a)) as [->|]; [|reflexivity].
    rewrite IH. reflexivity.
Qed.

(** An exhausted quantifier hands over. *)
Lemma repeat_loop_done
      (body : option char -> text -> captures -> cont ->
              option (text * captures))
      (gs : list nat) (greedy : bool) (k : cont) (n lo : nat)
      (prev : option char) (s : text) (c : captures) :
  repeat_loop body gs greedy k n lo (Some 0%nat) prev s c = k prev s c.
Proof. destruct n; reflexivity. Qed.

(** [r?]: the match of [r] when the whole pattern succeeds with it and
    it is not empty, else nothing. *)
Lemma run_opt (r : regex) (prev : option char) (s : text) (c : captures)
      (k : cont) :
  run (opt r) prev s c k =
  match s with
  | [] => k prev s c
  | _ :: _ =>
      match run r prev s (reset (groups_of r) c)
                (fun prev' s' c' =>
                   if Nat.eqb (length s') (length s) then None
                   else k prev' s' c') with
      | Some z => Some z
      | None => k prev s c
      end
  end.
Proof.
  unfold opt. cbn [run]. destruct s as [|x s]; [reflexivity|].
  change (0 + length (x :: s))%nat with (S (length s)).
  rewrite repeat_loop_step. cbn [max_is_zero Nat.eqb negb andb dec_max Nat.pred].
  cbv zeta.
  rewrite (run_ext r prev (x :: s) (reset (groups_of r) c) _
             (fun prev' s' c' =>
                if Nat.eqb (length s') (length (x :: s)) then None
                else k prev' s' c')).
  - reflexivity.
  - intros p' s' c'. destruct (Nat.eqb (length s') (length (x :: s)));
      [reflexivity|apply repeat_loop_done].
Qed.

(** *** Quantified character classes *)

Section CharacterLoop.

Variable p : char -> bool.
Variable greedy : bool.
Variable k : cont.

(** A success of the loop is a success of the continuation behind at
    least [lo] characters of the class. *)
Lemma repeat_chr_sound (n : nat) :
  forall lo prev s c z,
    (lo + length s <= n)%nat ->
    repeat_loop (run (Chr p)) [] greedy k n lo None prev s c = Some z ->
    exists a b,
      s = (a ++ b)%list /\ Forall (fun x => p x = true) a
      /\ (lo <= length a)%nat /\ k (last_of prev a) b c = Some z.
Proof.
  induction n as [|n IH]; intros lo prev s c z Hn H.
  - simpl in H. exists [], s. repeat split; [constructor|lia|exact H].
  - rewrite repeat_loop_step in H. cbn [max_is_zero] in H. cbv zeta in H.
    rewrite reset_nil in H.
    assert (Hhere : k prev s c = Some z -> lo = 0%nat ->
                    exists a b,
                      s = (a ++ b)%list /\ Forall (fun x => p x = true) a
                      /\ (lo <= length a)%nat
                      /\ k (last_of prev a) b c = Some z).
    { intros Hk ->. exists [], s. repeat split; [constructor|lia|exact Hk]. }
    assert (Hiter :
              run (Chr p) prev s c
                  (fun prev' s' c' =>
                     if Nat.eqb lo 0 && Nat.eqb (length s') (length s)
                     then None
                     else repeat_loop (run (Chr p)) [] greedy k n
                                      (Nat.pred lo) (dec_max None)
                                      prev' s' c') = Some z ->
              exists a b,
                s = (a ++ b)%list /\ Forall (fun x => p x = true) a
                /\ (lo <= length a)%nat
                /\ k (last_of prev a) b c = Some z).
    { cbn [run]. destruct s as [|x s]; [discriminate|].
      destruct (p x) eqn:Ex; [|discriminate].
      replace (Nat.eqb (length s) (length (x :: s))) with false
        by (symmetry; apply Nat.eqb_neq; simpl; lia).
      rewrite andb_false_r. cbn [dec_max]. intros Hrec.
      apply IH in Hrec; [|simpl in Hn; lia].
      destruct Hrec as (a & b & -> & Ha & Hlo & Hk).
      exists (x :: a), b. repeat split.
      - constructor; assumption.
      - simpl. lia.
      - exact Hk. }
    destruct (Nat.eqb_spec lo 0) as [Hlo|Hlo]; cbn [negb] in H.
    + destruct greedy.
      * destruct (run _ _ _ _ _) eqn:Er in H.
        -- injection H as ->. apply Hiter. exact Er.
        -- apply Hhere; assumption.
      * destruct (k prev s c) eqn:Ek.
        -- injection H as ->. apply Hhere; [reflexivity|assumption].
        -- apply Hiter, H.
    + apply Hiter, H.
Qed.

(** The loop succeeds if the continuation does behind some run of at
    least [lo] characters of the class. *)
Lemma repeat_chr_complete (a : text) :
  forall n lo prev b c,
    (lo + length (a ++ b) <= n)%nat ->
    Forall (fun x => p x = true) a -> (lo <= length a)%nat ->
    k (last_of prev a) b c <> None ->
    repeat_loop (run (Chr p)) [] greedy k n lo None prev (a ++ b)%list c
    <> None.
Proof.
  induction a as [|x a IH]; intros n lo prev b c Hn Ha Hlo Hk.
  - simpl in Hlo. assert (lo = 0%nat) as -> by lia. simpl in *.
    destruct n as [|n]; [exact Hk|].
    rewrite repeat_loop_step. cbn [max_is_zero Nat.eqb negb]. cbv zeta.
    destruct greedy.
    + match goal with
      | |- match ?e with _ => _ end <> None => destruct e
      end; [discriminate|exact Hk].
    + destruct (k prev b c); [discriminate|contradiction].
  - destruct n as [|n]; [simpl in Hn; lia|].
    inversion Ha as [|x' a' Hx Ha']; subst.
    rewrite repeat_loop_step. cbn [max_is_zero]. cbv zeta.
    rewrite reset_nil.
    change ((x :: a) ++ b)%list with (x :: (a ++ b)%list).
    cbn [run]. rewrite Hx.
    replace (Nat.eqb (length (a ++ b)) (length (x :: (a ++ b)%list)))
      with false by (symmetry; apply Nat.eqb_neq; simpl; lia).
    rewrite andb_false_r. cbn [dec_max].
    assert (Hrec : repeat_loop (run (Chr p)) [] greedy k n (Nat.pred lo)
                               None (Some x) (a ++ b)%list c <> None).
    { apply IH; [simpl in Hn; lia|exact Ha'|simpl in Hlo; lia|exact Hk]. }
    destruct (Nat.eqb lo 0); cbn [negb]; [|exact Hrec].
    destruct greedy.
    + destruct (repeat_loop _ _ _ _ _ _ _ _ _ _); [discriminate|contradiction].
    + destruct (k prev (x :: (a ++ b)%list) c); [discriminate|exact Hrec].
Qed.

End CharacterLoop.

Lemma run_rep_chr_sound (greedy : bool) (lo : nat) (p : char -> bool)
      (prev : option char) (s : text) (c : captures) (k : cont)
      (z : text * captures) :
  run (Rep greedy lo None (Chr p)) prev s c k = Some z ->
  exists a b,
    s = (a ++ b)%list /\ Forall (fun x => p x = true) a
    /\ (lo <= length a)%nat /\ k (last_of prev a) b c = Some z.
Proof. cbn [run groups_of]. apply repeat_chr_sound. lia. Qed.

Lemma run_rep_chr_complete (greedy : bool) (lo : nat) (p : char -> bool)
      (prev : option char) (a b : text) (c : captures) (k : cont) :
  Forall (fun x => p x = true) a -> (lo <= length a)%nat ->
  k (last_of prev a) b c <> None ->
  run (Rep greedy lo None (Chr p)) prev (a ++ b)%list c k <> None.
Proof. cbn [run groups_of]. apply repeat_chr_complete. lia. Qed.

(** When the continuation gives one and the same result wherever it
    succeeds, that is the result of the loop. *)
Lemma run_rep_chr_uniform (greedy : bool) (lo : nat) (p : char -> bool)
      (prev : option char) (s : text) (c : captures) (k : cont)
      (z0 : text * captures) :
  (forall a b z,
      s = (a ++ b)%list -> Forall (fun x => p x = true) a ->
      k (last_of prev a) b c = Some z -> z = z0) ->
  (exists a b,
      s = (a ++ b)%list /\ Forall (fun x => p x = true) a
      /\ (lo <= length a)%nat /\ k (last_of prev a) b c <> None) ->
  run (Rep greedy lo None (Chr p)) prev s c k = Some z0.
Proof.
  intros Hsame (a & b & -> & Ha & Hlo & Hk).
  destruct (run (Rep greedy lo None (Chr p)) prev (a ++ b)%list c k)
    as [z|] eqn:Er.
  - f_equal. apply run_rep_chr_sound in Er.
    destruct Er as (a' & b' & Heq & Ha' & _ & Hk').
    apply (Hsame a' b' z Heq Ha' Hk').
  - exfalso. revert Er. apply run_rep_chr_complete; assumption.
Qed.

(** A greedy loop before a continuation that cannot fail takes all the
    characters of the class. *)
Lemma run_rep_chr_greedy (lo : nat) (p : char -> bool) (k : cont)
      (prev : option char) (s : text) (c : captures) :
  (forall prev' s' c', k prev' s' c' <> None) ->
  run (Rep true lo None (Chr p)) prev s c k =
  if Nat.leb lo (length (take_while p s))
  then k (last_of prev (take_while p s)) (drop_while p s) c
  else None.
Proof.
  intros Hk. cbn [run groups_of].
  assert (Hn : (lo + length s <= lo + length s)%nat) by lia.
  revert Hn. generalize (lo + length s)%nat at 2 3 as n. intros n.
  revert lo prev s. induction n as [|n IH]; intros lo prev s Hn.
  - destruct s; [|simpl in Hn; lia]. assert (lo = 0%nat) as -> by (simpl in Hn; lia).
    reflexivity.
  - rewrite repeat_loop_step. cbn [max_is_zero]. cbv zeta. rewrite reset_nil.
    destruct s as [|x s].
    + cbn [run take_while drop_while length last_of fold_left].
      destruct lo; reflexivity.
    + cbn [run take_while drop_while]. destruct (p x) eqn:Ex.
      * replace (Nat.eqb (length s) (length (x :: s))) with false
          by (symmetry; apply Nat.eqb_neq; simpl; lia).
        rewrite andb_false_r. cbn [dec_max].
        rewrite IH by (simpl in Hn; lia).
        cbn [length last_of fold_left].
        destruct lo as [|lo]; cbn [Nat.eqb negb Nat.pred Nat.leb].
        -- specialize (Hk (last_of (Some x) (take_while p s))
                           (drop_while p s) c).
           unfold last_of in Hk.
           destruct (k _ _ _); [reflexivity|contradiction].
        -- reflexivity.
      * cbn [length last_of fold_left]. destruct lo; reflexivity.
Qed.

Lemma run_Seq (r1 r2 : regex) (prev : option char) (s : text)
      (c : captures) (k : cont) :
  run (Seq r1 r2) prev s c k
  = run r1 prev s c (fun prev' s' c' => run r2 prev' s' c' k).
Proof. reflexivity. Qed.

Lemma run_Group (i : nat) (r : regex) (prev : option char) (s : text)
      (c : captures) (k : cont) :
  run (Group i r) prev s c k
  = run r prev s c
        (fun prev' s' c' =>
           k prev' s' ((i, firstn (length s - length s') s) :: c')).
Proof. reflexivity. Qed.

Lemma run_Bol (prev : option char) (s : text) (c : captures) (k : cont) :
  run Bol prev s c k = if at_line_start prev then k prev s c else None.
Proof. reflexivity. Qed.

Lemma run_Eol (prev : option char) (s : text) (c : captures) (k : cont) :
  run Eol prev s c k = if at_line_end s then k prev s c else None.
Proof. reflexivity. Qed.

(* ===================================================================== *)
(** ** The scan of [replace] around a match                              *)
(* ===================================================================== *)

(** Passing over the rest of a match. *)
Lemma replace_from_skip (r : regex) (tpl : template) (m : text) :
  forall prev rest,
    replace_from r tpl prev (m ++ rest)%list (length m)
    = replace_from r tpl (last_of prev m) rest 0.
Proof.
  induction m as [|x m IH]; intros prev rest; [reflexivity|].
  cbn [app length replace_from]. apply IH.
Qed.

(** A match that is not empty is replaced, and the scan goes on behind
    it. *)
Lemma replace_from_match (r : regex) (tpl : template) (prev : option char)
      (m rest : text) (c : captures) :
  m <> [] ->
  exec r prev (m ++ rest)%list = Some (rest, c) ->
  replace_from r tpl prev (m ++ rest)%list 0
  = (expand tpl c ++ replace_from r tpl (last_of prev m) rest 0)%list.
Proof.
  intros Hm He. destruct m as [|x m]; [congruence|].
  change ((x :: m) ++ rest)%list with (x :: (m ++ rest)%list) in *.
  rewrite replace_from_cons, He.
  replace (length (x :: (m ++ rest)%list) - length rest)%nat
    with (S (length m)) by (simpl; rewrite length_app; lia).
  rewrite replace_from_skip. reflexivity.
Qed.

(** No match at any position: the text is left as it is. *)
Lemma replace_from_unmatched (r : regex) (tpl : template) (s : text) :
  forall prev,
    (forall a b, s = (a ++ b)%list -> exec r (last_of prev a) b = None) ->
    replace_from r tpl prev s 0 = s.
Proof.
  induction s as [|x s IH]; intros prev Hnone.
  - pose proof (Hnone [] [] eq_refl) as He.
    change (exec r prev [] = None) in He.
    cbn [replace_from]. rewrite He. reflexivity.
  - pose proof (Hnone [] (x :: s) eq_refl) as He.
    change (exec r prev (x :: s) = None) in He.
    rewrite replace_from_cons, He.
    f_equal. apply IH. intros a b ->. apply (Hnone (x :: a) b). reflexivity.
Qed.

(** A replacement by nothing never makes a text longer. *)
Lemma length_replace_from_nil (r : regex) (s : text) :
  forall prev j, (length (replace_from r [] prev s j) <= length s)%nat.
Proof.
  induction s as [|x s IH]; intros prev j.
  - destruct j; simpl; [|lia]. destruct (exec r prev []) as [[rest c]|];
      simpl; lia.
  - destruct j as [|j].
    + rewrite replace_from_cons.
      destruct (exec r prev (x :: s)) as [[rest c]|].
      * cbn [expand flat_map app].
        destruct (length (x :: s) - length rest)%nat.
        -- specialize (IH (Some x) 0%nat). simpl. lia.
        -- specialize (IH (Some x) n). simpl. lia.
      * specialize (IH (Some x) 0%nat). simpl. lia.
    + cbn [replace_from]. specialize (IH (Some x) j). simpl. lia.
Qed.

(** If it keeps the length, it has found nothing but empty matches and
    has changed nothing. *)
Lemma replace_from_nil_fixed (r : regex) (s : text) :
  forall prev,
    length (replace_from r [] prev s 0) = length s ->
    replace_from r [] prev s 0 = s
    /\ forall a b rest c,
         s = (a ++ b)%list ->
         exec r (last_of prev a) b = Some (rest, c) ->
         (length b <= length rest)%nat.
Proof.
  induction s as [|x s IH]; intros prev Hlen.
  - split.
    + destruct (replace_from r [] prev [] 0); [reflexivity|discriminate].
    + intros a b rest c Hs _. destruct a; [|discriminate].
      destruct b; [simpl; lia|discriminate].
  - rewrite replace_from_cons in Hlen |- *.
    assert (Hnext :
              length (replace_from r [] (Some x) s 0) = length s ->
              (x :: replace_from r [] (Some x) s 0 = x :: s)
              /\ forall a b rest c,
                   x :: s = ((x :: a) ++ b)%list ->
                   exec r (last_of prev (x :: a)) b = Some (rest, c) ->
                   (length b <= length rest)%nat).
    { intros Hl. destruct (IH (Some x) Hl) as [Heq Hall]. split.
      - f_equal. exact Heq.
      - intros a b rest c Hs He. injection Hs as Hs.
        apply (Hall a b rest c Hs He). }
    destruct (exec r prev (x :: s)) as [[rest c]|] eqn:He.
    + cbn [expand flat_map app] in Hlen |- *.
      destruct (length (x :: s) - length rest)%nat eqn:Ed.
      * simpl in Hlen. injection Hlen as Hlen.
        destruct (Hnext Hlen) as [Heq Hall]. split; [exact Heq|].
        intros a b rest' c' Hs He'. destruct a as [|y a].
        -- simpl in Hs. subst b. simpl in He'. rewrite He in He'.
           injection He' as <- <-. lia.
        -- injection Hs as <- Hs. apply (Hall a b rest' c'); [|exact He'].
           simpl. f_equal. exact Hs.
      * pose proof (length_replace_from_nil r s (Some x) n) as Hle.
        simpl in Hlen. lia.
    + simpl in Hlen. injection Hlen as Hlen.
      destruct (Hnext Hlen) as [Heq Hall]. split; [exact Heq|].
      intros a b rest' c' Hs He'. destruct a as [|y a].
      * simpl in Hs. subst b. simpl in He'. congruence.
      * injection Hs as <- Hs. apply (Hall a b rest' c'); [|exact He'].
        simpl. f_equal. exact Hs.
Qed.

(* ===================================================================== *)
(** ** The characters of a normalized text                               *)
(* ===================================================================== *)

Lemma line_terminator_white (c : char) :
  line_terminator c = true -> white_space c = true.
Proof.
  unfold line_terminator, white_space.
  rewrite !orb_true_iff, !andb_true_iff, !N.leb_le, !N.eqb_eq. lia.
Qed.

Lemma normal_no_terminator (c : char) :
  space_or_not_white c -> line_terminator c = false.
Proof.
  intros Hw. destruct (line_terminator c) eqn:El; [|reflexivity].
  rewrite (Hw (line_terminator_white c El)) in El. discriminate El.
Qed.

Lemma normal_without (w : text) (a : char) :
  normal w ->
  allowed a = false ->
  Forall (fun x => x <> a) w.
Proof.
  intros (Ha & _) Hna. eapply List.Forall_impl; [|exact Ha].
  intros x Hx ->. congruence.
Qed.

(* ===================================================================== *)
(** ** The patterns that need a character no normalized text has         *)
(* ===================================================================== *)

Lemma exec_literal_absent (str : string) (r : regex) (a : char)
      (prev : option char) (s : text) :
  In a (of_string str) -> Forall (fun x => x <> a) s ->
  exec (Seq (lit str) r) prev s = None.
Proof.
  intros Hin Hs. unfold exec. rewrite run_Seq, run_lit.
  destruct (strip_prefix (of_string str) s) as [t|] eqn:Et; [|reflexivity].
  apply strip_prefix_app in Et. subst s. apply Forall_app in Hs.
  destruct Hs as [Hs _]. rewrite List.Forall_forall in Hs.
  destruct (Hs a Hin eq_refl).
Qed.

Lemma replace_all_literal_absent (str : string) (r : regex) (tpl : template)
      (a : char) (s : text) :
  In a (of_string str) -> Forall (fun x => x <> a) s ->
  replace_all (Seq (lit str) r) tpl s = s.
Proof.
  intros Hin Hs. unfold replace_all. apply replace_from_no_match.
  intros prev' s' [pre ->]. apply (exec_literal_absent str r a); [exact Hin|].
  apply Forall_app in Hs. tauto.
Qed.

Lemma replace_all_heading (s : text) :
  Forall (fun x => x <> 35%N) s -> replace_all heading [Ref 1] s = s.
Proof.
  intros Hs. unfold replace_all. apply replace_from_no_match.
  intros prev' s' [pre ->]. apply Forall_app in Hs. destruct Hs as [_ Hs].
  unfold exec, heading. rewrite run_Seq.
  cbn [run Nat.add groups_of]. rewrite repeat_loop_step.
  cbn [max_is_zero Nat.eqb negb]. cbv zeta.
  destruct Hs as [|x s Hx _]; [reflexivity|].
  cbn [run]. unfold is_char.
  destruct (N.eqb_spec x (of_ascii "#")) as [->|]; [|reflexivity].
  destruct (Hx eq_refl).
Qed.

(** The first five steps, and the tags, mentions and block comments,
    need one of the characters [` # ! [ < *]. *)
Lemma early_steps (w : text) :
  normal w ->
  replace_all link [Ref 1]
    (replace_all image [Ref 1]
       (replace_all heading [Ref 1]
          (replace_all inline_code []
             (replace_all fenced_code [] w)))) = w
  /\ replace_all mention [] w = w
  /\ replace_all tag [] w = w
  /\ replace_all block_comment [] w = w.
Proof.
  intros Hw.
  assert (Hno : forall a, allowed a = false -> Forall (fun x => x <> a) w).
  { intros a. apply normal_without, Hw. }
  unfold fenced_code, inline_code, image, link, mention, tag, block_comment.
  rewrite (replace_all_literal_absent "```" _ _ 96%N)
    by (simpl; tauto || (apply Hno; reflexivity)).
  rewrite (replace_all_literal_absent "`" _ _ 96%N)
    by (simpl; tauto || (apply Hno; reflexivity)).
  rewrite replace_all_heading by (apply Hno; reflexivity).
  rewrite (replace_all_literal_absent "![" _ _ 33%N)
    by (simpl; tauto || (apply Hno; reflexivity)).
  rewrite (replace_all_literal_absent "[" _ _ 91%N)
    by (simpl; tauto || (apply Hno; reflexivity)).
  rewrite (replace_all_literal_absent "<@" _ _ 60%N)
    by (simpl; tauto || (apply Hno; reflexivity)).
  rewrite (replace_all_literal_absent "<" _ _ 60%N)
    by (simpl; tauto || (apply Hno; reflexivity)).
  rewrite (replace_all_literal_absent "/*" _ _ 42%N)
    by (simpl; tauto || (apply Hno; reflexivity)).
  repeat split.
Qed.

(* ===================================================================== *)
(** ** The horizontal rule                                               *)
(* ===================================================================== *)

Lemma last_of_In (a : text) :
  forall prev, a <> [] -> exists y, last_of prev a = Some y /\ In y a.
Proof.
  induction a as [|x a IH]; intros prev Ha; [congruence|].
  destruct a as [|x' a].
  - exists x. split; [reflexivity|left; reflexivity].
  - destruct (IH (Some x)) as (y & Hy & Hin); [discriminate|].
    exists y. split; [exact Hy|right; exact Hin].
Qed.

(** What a match of the rule is made of. *)
Lemma exec_rule_sound (prev : option char) (s rest : text) (c : captures) :
  exec rule prev s = Some (rest, c) ->
  exists a d f,
    s = (a ++ d ++ f ++ rest)%list
    /\ Forall (fun x => white_space x = true) a
    /\ Forall (fun x => rule_char x = true) d
    /\ (3 <= length d)%nat
    /\ Forall (fun x => white_space x = true) f
    /\ at_line_end rest = true.
Proof.
  unfold exec, rule, star. rewrite run_Seq, run_Bol.
  destruct (at_line_start prev); [|discriminate].
  rewrite run_Seq. intros H.
  apply run_rep_chr_sound in H. destruct H as (a & b & -> & Ha & _ & H).
  rewrite run_Seq in H.
  apply run_rep_chr_sound in H. destruct H as (d & e & -> & Hd & Hlen & H).
  rewrite run_Seq in H.
  apply run_rep_chr_sound in H. destruct H as (f & g & -> & Hf & _ & H).
  rewrite run_Eol in H. destruct (at_line_end g) eqn:Eg; [|discriminate].
  injection H as <- _. exists a, d, f. repeat split; assumption.
Qed.

Lemma exec_rule_complete (d : text) :
  Forall (fun x => rule_char x = true) d -> (3 <= length d)%nat ->
  exec rule None d <> None.
Proof.
  intros Hd Hlen. unfold exec, rule, star. rewrite run_Seq, run_Bol.
  cbn [at_line_start]. rewrite run_Seq.
  apply (run_rep_chr_complete true 0 white_space None [] d);
    [constructor|simpl; lia|].
  rewrite run_Seq. rewrite <- (app_nil_r d) at 1.
  apply (run_rep_chr_complete true 3 _ _ d []); [exact Hd|exact Hlen|].
  discriminate.
Qed.

(** On a normalized text the rule matches the whole text or nothing. *)
Lemma exec_rule_normal (w : text) :
  normal w -> rule_line w = false -> exec rule None w = None.
Proof.
  intros (_ & Hw & Hstart & Hend) Hrule.
  destruct (exec rule None w) as [[rest c]|] eqn:He; [|reflexivity].
  exfalso. apply exec_rule_sound in He.
  destruct He as (a & d & f & -> & Ha & Hd & Hlen & Hf & Hrest).
  assert (a = []) as ->.
  { destruct a as [|x a]; [reflexivity|]. simpl in Hstart.
    inversion Ha; subst. congruence. }
  assert (rest = []) as ->.
  { destruct rest as [|x rest]; [reflexivity|]. simpl in Hrest.
    rewrite !Forall_app in Hw. destruct Hw as (_ & _ & _ & Hx).
    inversion Hx as [|x' l' Hx' _]; subst.
    rewrite (normal_no_terminator x Hx') in Hrest. discriminate. }
  assert (f = []) as ->.
  { destruct (rev f) as [|y f'] eqn:Ef.
    - apply (f_equal (@rev char)) in Ef. rewrite rev_involutive in Ef.
      exact Ef.
    - exfalso. simpl in Hend. rewrite !app_nil_r in Hend.
      rewrite rev_app_distr, Ef in Hend. simpl in Hend.
      assert (Hy : In y f).
      { apply in_rev. rewrite Ef. left. reflexivity. }
      rewrite List.Forall_forall in Hf. rewrite (Hf y Hy) in Hend.
      discriminate. }
  simpl in Hrule. rewrite !app_nil_r in Hrule. unfold rule_line in Hrule.
  apply andb_false_iff in Hrule. destruct Hrule as [Hr|Hr].
  - apply Nat.leb_gt in Hr. lia.
  - assert (Hall : forallb rule_char d = true).
    { apply forallb_forall. rewrite List.Forall_forall in Hd. exact Hd. }
    congruence.
Qed.

Lemma exec_rule_inside (c0 : char) (s : text) :
  line_terminator c0 = false -> exec rule (Some c0) s = None.
Proof.
  intros Hc. unfold exec, rule. rewrite run_Seq, run_Bol.
  cbn [at_line_start]. rewrite Hc. reflexivity.
Qed.

Lemma replace_all_rule_normal (w : text) :
  normal w -> rule_line w = false -> replace_all rule [] w = w.
Proof.
  intros Hw Hrule. unfold replace_all. apply replace_from_unmatched.
  intros a b Hs. destruct a as [|x a].
  - simpl in Hs. subst b. apply exec_rule_normal; assumption.
  - destruct (last_of_In (x :: a) None) as (y & Hy & Hin); [discriminate|].
    rewrite Hy. apply exec_rule_inside, normal_no_terminator.
    destruct Hw as (_ & Hw & _). rewrite List.Forall_forall in Hw.
    apply Hw. rewrite Hs. apply in_or_app. left. exact Hin.
Qed.

(** A rule line is matched, and the match is not empty. *)
Lemma exec_rule_line (w : text) :
  rule_line w = true ->
  exists rest c,
    exec rule None w = Some (rest, c) /\ (length rest < length w)%nat.
Proof.
  unfold rule_line. rewrite andb_true_iff, Nat.leb_le, forallb_forall.
  intros [Hlen Hall]. apply List.Forall_forall in Hall.
  destruct (exec rule None w) as [[rest c]|] eqn:He.
  - exists rest, c. split; [reflexivity|].
    apply exec_rule_sound in He.
    destruct He as (a & d & f & -> & _ & _ & Hd & _).
    rewrite !length_app. lia.
  - exfalso. revert He. apply exec_rule_complete; assumption.
Qed.

(* ===================================================================== *)
(** ** The line comment                                                  *)
(* ===================================================================== *)

Lemma exec_line_comment (prev : option char) (s : text) :
  exec line_comment prev s =
  match strip_prefix (of_string "//") s with
  | Some t => Some (drop_while dot t, [])
  | None => None
  end.
Proof.
  unfold exec, line_comment, star. rewrite run_Seq, run_lit.
  destruct (strip_prefix (of_string "//") s) as [t|]; [|reflexivity].
  rewrite run_rep_chr_greedy by discriminate. reflexivity.
Qed.

Lemma length_drop_while (p : char -> bool) (s : text) :
  (length (drop_while p s) <= length s)%nat.
Proof.
  induction s as [|x s IH]; simpl; [lia|].
  destruct (p x); simpl; lia.
Qed.

Lemma double_slash_split (s : text) :
  double_slash s = true ->
  exists a b, s = (a ++ of_string "//" ++ b)%list.
Proof.
  induction s as [|x s IH]; [discriminate|].
  cbn [double_slash]. destruct s as [|y s]; [discriminate|].
  intros H. apply orb_true_iff in H. destruct H as [H|H].
  - apply andb_true_iff in H. destruct H as [Hx Hy].
    unfold is_char in Hx, Hy. apply N.eqb_eq in Hx, Hy. subst.
    exists [], s. reflexivity.
  - destruct (IH H) as (a & b & ->). exists (x :: a), b. reflexivity.
Qed.

Lemma double_slash_none (s : text) :
  double_slash s = false ->
  forall a b, s = (a ++ b)%list -> strip_prefix (of_string "//") b = None.
Proof.
  induction s as [|x s IH]; intros H a b Hs.
  - destruct a; [|discriminate]. simpl in Hs. subst b. reflexivity.
  - cbn [double_slash] in H. destruct a as [|x' a].
    + simpl in Hs. subst b. destruct s as [|y s].
      * cbn. destruct (N.eqb x _); reflexivity.
      * apply orb_false_iff in H. destruct H as [H _].
        cbn [of_string strip_prefix]. unfold is_char in H.
        destruct (N.eqb x (of_ascii "/")); [|reflexivity].
        destruct (N.eqb y (of_ascii "/")); [discriminate|reflexivity].
    + injection Hs as <- Hs. apply (IH) with (a := a); [|exact Hs].
      destruct s as [|y s]; [reflexivity|].
      apply orb_false_iff in H. tauto.
Qed.

Lemma replace_all_line_comment (w : text) :
  double_slash w = false -> replace_all line_comment [] w = w.
Proof.
  intros H. unfold replace_all. apply replace_from_unmatched.
  intros a b Hs. rewrite exec_line_comment.
  rewrite (double_slash_none w H a b Hs). reflexivity.
Qed.

(** Where [//] occurs, the line comment finds a match that is not
    empty. *)
Lemma line_comment_fixed (w : text) :
  (forall a b rest c,
      w = (a ++ b)%list ->
      exec line_comment (last_of None a) b = Some (rest, c) ->
      (length b <= length rest)%nat) ->
  double_slash w = false.
Proof.
  intros Hall. destruct (double_slash w) eqn:E; [|reflexivity].
  exfalso. apply double_slash_split in E. destruct E as (a & b & ->).
  specialize (Hall a (of_string "//" ++ b)%list
                   (drop_while dot b) [] eq_refl).
  rewrite exec_line_comment, strip_prefix_here in Hall.
  specialize (Hall eq_refl).
  pose proof (length_drop_while dot b) as Hle.
  rewrite length_app in Hall. simpl in Hall. lia.
Qed.

(* ===================================================================== *)
(** ** The URL pattern                                                   *)
(* ===================================================================== *)

Lemma take_drop_while (p : char -> bool) (s : text) :
  (take_while p s ++ drop_while p s)%list = s.
Proof.
  induction s as [|x s IH]; [reflexivity|]. simpl.
  destruct (p x); [simpl; f_equal; exact IH|reflexivity].
Qed.

Lemma drop_while_app (p : char -> bool) (a b : text) :
  Forall (fun x => p x = true) a ->
  drop_while p (a ++ b)%list = drop_while p b.
Proof.
  induction 1 as [|x a Hx _ IH]; [reflexivity|]. simpl. rewrite Hx. exact IH.
Qed.

Lemma take_while_app (p : char -> bool) (a b : text) :
  Forall (fun x => p x = true) a ->
  take_while p (a ++ b)%list = (a ++ take_while p b)%list.
Proof.
  induction 1 as [|x a Hx _ IH]; [reflexivity|]. simpl. rewrite Hx.
  f_equal. exact IH.
Qed.

Lemma firstn_take_while (p : char -> bool) (s : text) :
  firstn (length s - length (drop_while p s)) s = take_while p s.
Proof.
  induction s as [|x s IH]; [reflexivity|].
  cbn [drop_while take_while]. destruct (p x).
  - pose proof (length_drop_while p s) as Hle.
    replace (length (x :: s) - length (drop_while p s))%nat
      with (S (length s - length (drop_while p s))) by (simpl; lia).
    cbn [firstn]. f_equal. exact IH.
  - rewrite Nat.sub_diag. reflexivity.
Qed.

Lemma dot_inside_spec (b : text) :
  dot_inside b = true <->
  exists t, b = (46%N :: t)%list
            /\ (1 <= length (take_while non_space t))%nat.
Proof.
  unfold dot_inside. split.
  - destruct b as [|d [|y b]]; try discriminate.
    rewrite andb_true_iff. unfold is_char. rewrite N.eqb_eq.
    intros [-> Hy]. exists (y :: b). split; [reflexivity|].
    simpl. rewrite Hy. simpl. lia.
  - intros (t & -> & Ht). destruct t as [|y t]; [simpl in Ht; lia|].
    simpl in Ht. destruct (non_space y); [reflexivity|simpl in Ht; lia].
Qed.

(** A dotted word: characters of the word, a dot, and a character of
    the word. *)
Lemma dotted_spec (s : text) :
  dotted s = true <->
  exists a t,
    s = (a ++ 46%N :: t)%list
    /\ Forall (fun x => non_space x = true) a
    /\ (1 <= length a)%nat
    /\ (1 <= length (take_while non_space t))%nat.
Proof.
  split.
  - induction s as [|x s IH]; [discriminate|].
    cbn [dotted]. rewrite andb_true_iff, orb_true_iff.
    intros [Hx [Hd|Hd]].
    + apply dot_inside_spec in Hd. destruct Hd as (t & -> & Ht).
      exists [x], t. repeat split; [|simpl; lia|exact Ht].
      constructor; [exact Hx|constructor].
    + destruct (IH Hd) as (a & t & -> & Ha & _ & Ht).
      exists (x :: a), t. repeat split; [|simpl; lia|exact Ht].
      constructor; assumption.
  - intros (a & t & -> & Ha & Hlen & Ht).
    induction Ha as [|x a Hx Ha IH]; [simpl in Hlen; lia|].
    cbn [app dotted]. rewrite Hx. cbn [andb].
    destruct a as [|y a].
    + apply orb_true_iff. left. apply dot_inside_spec.
      exists t. split; [reflexivity|exact Ht].
    + apply orb_true_iff. right. apply IH. simpl. lia.
Qed.

Lemma dotted_app (a s : text) :
  Forall (fun x => non_space x = true) a ->
  dotted s = true -> dotted (a ++ s)%list = true.
Proof.
  induction 1 as [|x a Hx _ IH]; intros Hs; [exact Hs|].
  cbn [app dotted]. rewrite Hx, (IH Hs), orb_true_r. reflexivity.
Qed.

(** Group 3 at [s]: the whole word, if it is dotted. *)
Lemma run_host_group (prev : option char) (s : text) (c : captures) :
  run host_group prev s c (fun _ s' c' => Some (s', c'))
  = if dotted s
    then Some (drop_word s, (3%nat, take_word s) :: c)
    else None.
Proof.
  unfold host_group, plus. rewrite run_Group, run_Seq.
  assert (Hafter :
            forall a b z,
              s = (a ++ b)%list ->
              Forall (fun x => non_space x = true) a ->
              run (Seq (lit ".") (Rep true 1 None (Chr non_space)))
                  (last_of prev a) b c
                  (fun prev' s' c' =>
                     Some (s', (3%nat, firstn (length s - length s') s)
                                 :: c'))
              = Some z ->
              z = (drop_word s, (3%nat, take_word s) :: c)
              /\ exists t, b = (46%N :: t)%list
                           /\ (1 <= length (take_while non_space t))%nat).
  { intros a b z Hs Ha. rewrite run_Seq, run_lit.
    destruct (strip_prefix (of_string ".") b) as [t|] eqn:Eb;
      [|discriminate].
    apply strip_prefix_app in Eb. simpl in Eb. subst b.
    rewrite run_rep_chr_greedy by discriminate.
    destruct (Nat.leb 1 (length (take_while non_space t))) eqn:El;
      [|discriminate].
    intros Hz. injection Hz as <-. split.
    - assert (Hd : drop_while non_space t = drop_word s).
      { unfold drop_word. rewrite Hs. rewrite drop_while_app by exact Ha.
        reflexivity. }
      rewrite Hd. unfold drop_word, take_word.
      rewrite firstn_take_while. reflexivity.
    - exists t. split; [reflexivity|]. apply Nat.leb_le, El. }
  destruct (dotted s) eqn:Ed.
  - apply run_rep_chr_uniform.
    + intros a b z Hs Ha Hk. apply (Hafter a b z Hs Ha Hk).
    + apply dotted_spec in Ed. destruct Ed as (a & t & Hs & Ha & Hlen & Ht).
      exists a, (46%N :: t). repeat split; [exact Hs|exact Ha|exact Hlen|].
      rewrite run_Seq, run_lit. cbn [of_string strip_prefix].
      rewrite N.eqb_refl. rewrite run_rep_chr_greedy by discriminate.
      apply Nat.leb_le in Ht. rewrite Ht. discriminate.
  - match goal with |- ?e = None => destruct e as [z|] eqn:Er end;
      [|reflexivity].
    exfalso. apply run_rep_chr_sound in Er.
    destruct Er as (a & b & Hs & Ha & Hlen & Hk).
    destruct (Hafter a b z Hs Ha Hk) as (_ & t & -> & Ht).
    assert (dotted s = true); [|congruence].
    apply dotted_spec. exists a, t. repeat split; assumption.
Qed.

Lemma url_groups : url = Seq (opt scheme_group) (Seq (opt www_group) host_group).
Proof. reflexivity. Qed.

Lemma strip_prefix_shorter (p s t : text) :
  p <> [] -> strip_prefix p s = Some t -> (length t < length s)%nat.
Proof.
  intros Hp H. apply strip_prefix_app in H. subst s.
  rewrite length_app. destruct p; [congruence|simpl; lia].
Qed.

(** [(www\.)?] and group 3 at [s]. *)
Lemma run_www_host (prev : option char) (s : text) (c : captures) :
  option_map outcome
    (run (Seq (opt www_group) host_group) prev s c
         (fun _ s' c' => Some (s', c')))
  = if dotted (strip_www s)
    then Some (drop_word (strip_www s), take_word (strip_www s))
    else None.
Proof.
  rewrite run_Seq, run_opt. unfold strip_www.
  destruct s as [|x s]; [rewrite run_host_group; reflexivity|].
  unfold www_group at 1. rewrite run_Group, run_lit.
  destruct (strip_prefix (of_string "www.") (x :: s)) as [t|] eqn:Et.
  - assert (Hlt : (length t < length (x :: s))%nat)
      by (apply strip_prefix_shorter in Et; [exact Et|simpl; discriminate]).
    replace (Nat.eqb (length t) (length (x :: s))) with false
      by (symmetry; apply Nat.eqb_neq; lia).
    rewrite run_host_group. destruct (dotted t) eqn:Ed.
    + rewrite Ed. reflexivity.
    + rewrite run_host_group. destruct (dotted (x :: s)); reflexivity.
  - rewrite run_host_group. destruct (dotted (x :: s)); reflexivity.
Qed.

(** Group 1 at [s]. *)
Lemma run_scheme_group (prev : option char) (s : text) (c : captures)
      (k : cont) :
  run scheme_group prev s c k =
  match after_scheme s with
  | Some t =>
      k (Some (of_ascii "/")) t ((1%nat, firstn (length s - length t) s) :: c)
  | None => None
  end.
Proof.
  unfold scheme_group, after_scheme. rewrite run_Group, run_Seq, run_lit.
  destruct (strip_prefix (of_string "http") s) as [t|]; [|reflexivity].
  rewrite run_Seq, run_opt. destruct t as [|x t]; [reflexivity|].
  cbn [run groups_of]. rewrite reset_nil.
  replace (Nat.eqb (length t) (length (x :: t))) with false
    by (symmetry; apply Nat.eqb_neq; simpl; lia).
  rewrite !run_lit.
  destruct (is_char "s" x) eqn:Ex; [|reflexivity].
  unfold is_char in Ex. apply N.eqb_eq in Ex. subst x.
  destruct (strip_prefix (of_string "://") t) as [u|]; [|reflexivity].
  cbn [of_string strip_prefix last_of fold_left].
  match goal with
  | |- match ?e with _ => _ end = _ => destruct e; reflexivity
  end.
Qed.

Lemma after_scheme_shorter (s t : text) :
  after_scheme s = Some t -> (length t < length s)%nat.
Proof.
  unfold after_scheme.
  destruct (strip_prefix (of_string "http") s) as [[|x u]|] eqn:Eh;
    try discriminate.
  apply strip_prefix_shorter in Eh; [|simpl; discriminate].
  destruct (is_char "s" x); intros H;
    apply strip_prefix_shorter in H; try (simpl; discriminate);
    simpl in *; lia.
Qed.

(** The URL pattern at [s]: the rest after the match, and group 3. *)
Lemma exec_url (prev : option char) (s : text) :
  option_map outcome (exec url prev s) = url_at s.
Proof.
  unfold exec, url_at, group3_start. rewrite url_groups, run_Seq, run_opt.
  destruct s as [|x s].
  { rewrite run_www_host. reflexivity. }
  rewrite run_scheme_group.
  destruct (after_scheme (x :: s)) as [t|] eqn:Et.
  - pose proof (after_scheme_shorter _ _ Et) as Hlt.
    replace (Nat.eqb (length t) (length (x :: s))) with false
      by (symmetry; apply Nat.eqb_neq; lia).
    pose proof (run_www_host (Some (of_ascii "/")) t
                  ((1%nat, firstn (length (x :: s) - length t) (x :: s))
                     :: reset (groups_of scheme_group) [])) as Hin.
    destruct (run (Seq (opt www_group) host_group) (Some (of_ascii "/")) t _ _)
      as [z|].
    + destruct (dotted (strip_www t)) eqn:Ed; [|discriminate].
      rewrite Ed. exact Hin.
    + destruct (dotted (strip_www t)) eqn:Ed; [discriminate|].
      apply run_www_host.
  - apply run_www_host.
Qed.

(** *** Where group 3 starts *)

Lemma strip_www_prefix (s : text) :
  exists P, s = (P ++ strip_www s)%list
            /\ Forall (fun x => non_space x = true) P.
Proof.
  unfold strip_www.
  destruct (strip_prefix (of_string "www.") s) as [t|] eqn:Et.
  - destruct (dotted t).
    + apply strip_prefix_app in Et. exists (of_string "www.").
      split; [exact Et|]. repeat constructor.
    + exists []. split; [reflexivity|constructor].
  - exists []. split; [reflexivity|constructor].
Qed.

Lemma after_scheme_prefix (s t : text) :
  after_scheme s = Some t ->
  exists P, s = (P ++ t)%list
            /\ Forall (fun x => non_space x = true) P
            /\ double_slash (P ++ t)%list = true.
Proof.
  unfold after_scheme.
  destruct (strip_prefix (of_string "http") s) as [[|x u]|] eqn:Eh;
    try discriminate.
  apply strip_prefix_app in Eh. subst s.
  destruct (is_char "s" x) eqn:Ex.
  - unfold is_char in Ex. apply N.eqb_eq in Ex. subst x. intros Ht.
    apply strip_prefix_app in Ht. subst u.
    exists (of_string "https://"). split; [reflexivity|].
    split; [repeat constructor|reflexivity].
  - intros Ht. apply strip_prefix_app in Ht. rewrite Ht.
    exists (of_string "http://"). split; [reflexivity|].
    split; [repeat constructor|reflexivity].
Qed.

Lemma group3_start_prefix (s : text) :
  exists P, s = (P ++ group3_start s)%list
            /\ Forall (fun x => non_space x = true) P.
Proof.
  unfold group3_start. destruct (after_scheme s) as [t|] eqn:Et.
  - destruct (dotted (strip_www t)); [|apply strip_www_prefix].
    apply after_scheme_prefix in Et. destruct Et as (P & -> & HP & _).
    destruct (strip_www_prefix t) as (Q & Ht & HQ).
    exists (P ++ Q)%list. split.
    + rewrite <- app_assoc, <- Ht. reflexivity.
    + apply Forall_app. split; assumption.
  - apply strip_www_prefix.
Qed.

Lemma dotted_group3_start (s : text) :
  dotted (group3_start s) = true -> dotted s = true.
Proof.
  intros Hd. destruct (group3_start_prefix s) as (P & Hs & HP).
  rewrite Hs. apply dotted_app; assumption.
Qed.

Lemma undotted_strip_www (s : text) :
  dotted (strip_www s) = false -> strip_www s = s.
Proof.
  unfold strip_www.
  destruct (strip_prefix (of_string "www.") s) as [u|]; [|reflexivity].
  destruct (dotted u) eqn:Eu; [congruence|reflexivity].
Qed.

Lemma undotted_group3_start (s : text) :
  dotted (group3_start s) = false -> group3_start s = s.
Proof.
  unfold group3_start. destruct (after_scheme s) as [t|].
  - destruct (dotted (strip_www t)) eqn:Ed; [congruence|].
    apply undotted_strip_www.
  - apply undotted_strip_www.
Qed.

Lemma exec_url_undotted (prev : option char) (s : text) :
  dotted s = false -> exec url prev s = None.
Proof.
  intros Hd. pose proof (exec_url prev s) as He. unfold url_at in He.
  destruct (dotted (group3_start s)) eqn:Eg.
  - apply dotted_group3_start in Eg. congruence.
  - destruct (exec url prev s); [discriminate|reflexivity].
Qed.

Lemma dotted_head (x : char) (s : text) :
  dotted (x :: s) = true -> white_space x = false.
Proof.
  cbn [dotted]. unfold non_space. destruct (white_space x);
    [discriminate|reflexivity].
Qed.

Lemma take_word_cons (x : char) (s : text) :
  white_space x = false -> take_word (x :: s) = x :: take_word s.
Proof. intros Hx. unfold take_word, non_space. simpl. rewrite Hx. reflexivity. Qed.

Lemma drop_word_cons (x : char) (s : text) :
  white_space x = false -> drop_word (x :: s) = drop_word s.
Proof. intros Hx. unfold drop_word, non_space. simpl. rewrite Hx. reflexivity. Qed.

Lemma take_drop_word (s : text) : (take_word s ++ drop_word s)%list = s.
Proof. apply take_drop_while. Qed.

(** *** The scan of the URL step, word by word *)

Lemma url_scan_space (prev : option char) (x : char) (s : text) :
  white_space x = true ->
  replace_from url [Ref 3] prev (x :: s) 0
  = x :: replace_from url [Ref 3] (Some x) s 0.
Proof.
  intros Hx. rewrite replace_from_cons, exec_url_undotted; [reflexivity|].
  cbn [dotted]. unfold non_space. rewrite Hx. reflexivity.
Qed.

Lemma url_scan_undotted (s : text) :
  forall prev,
    dotted s = false ->
    exists prev',
      replace_from url [Ref 3] prev s 0
      = (take_word s ++ replace_from url [Ref 3] prev' (drop_word s) 0)%list.
Proof.
  induction s as [|x s IH]; intros prev Hd.
  - exists prev. reflexivity.
  - destruct (white_space x) eqn:Ex.
    + exists prev. unfold take_word, drop_word, non_space. simpl.
      rewrite Ex. reflexivity.
    + assert (Hs : dotted s = false).
      { cbn [dotted] in Hd. unfold non_space in Hd. rewrite Ex in Hd.
        simpl in Hd. apply orb_false_iff in Hd. tauto. }
      destruct (IH (Some x) Hs) as (prev' & Heq). exists prev'.
      rewrite replace_from_cons, (exec_url_undotted prev _ Hd), Heq.
      rewrite take_word_cons, drop_word_cons by exact Ex. reflexivity.
Qed.

Lemma expand_group3 (c : captures) : expand [Ref 3] c = group3 c.
Proof. unfold expand, group3. simpl. apply app_nil_r. Qed.

Lemma url_scan_word (s : text) (prev : option char) :
  exists prev',
    replace_from url [Ref 3] prev s 0
    = (word_out s ++ replace_from url [Ref 3] prev' (drop_word s) 0)%list.
Proof.
  unfold word_out. destruct (dotted (group3_start s)) eqn:Eg.
  - pose proof (exec_url prev s) as He. unfold url_at in He.
    rewrite Eg in He.
    destruct (exec url prev s) as [[rest c]|] eqn:Ex; [|discriminate].
    simpl in He. injection He as Hrest Hc.
    destruct (group3_start_prefix s) as (P & Hs & HP).
    set (g := group3_start s) in *.
    assert (Hdrop : drop_word s = drop_word g).
    { rewrite Hs at 1. apply drop_while_app, HP. }
    assert (Hsplit : s = ((P ++ take_word g) ++ rest)%list).
    { rewrite <- app_assoc, Hrest, take_drop_word. exact Hs. }
    exists (last_of prev (P ++ take_word g)).
    assert (Hm : replace_from url [Ref 3] prev
                              ((P ++ take_word g) ++ rest)%list 0
                 = (expand [Ref 3] c
                    ++ replace_from url [Ref 3]
                         (last_of prev (P ++ take_word g)) rest 0)%list).
    { apply replace_from_match.
      - destruct g as [|y g']; [discriminate|].
        rewrite (take_word_cons y g' (dotted_head y g' Eg)).
        destruct P; discriminate.
      - rewrite <- Hsplit. exact Ex. }
    rewrite <- Hsplit in Hm. rewrite Hm, expand_group3, Hc, Hdrop, Hrest.
    reflexivity.
  - apply url_scan_undotted. rewrite <- (undotted_group3_start s Eg).
    exact Eg.
Qed.

Lemma word_out_length (s : text) :
  (length (word_out s) <= length (take_word s))%nat
  /\ (length (word_out s) = length (take_word s) -> stripped s = false)
  /\ (stripped s = false -> word_out s = take_word s).
Proof.
  unfold word_out, stripped. destruct (dotted (group3_start s)) eqn:Eg.
  - destruct (group3_start_prefix s) as (P & Hs & HP).
    set (g := group3_start s) in *.
    assert (Ht : take_word s = (P ++ take_word g)%list).
    { rewrite Hs at 1. apply take_while_app, HP. }
    assert (Hl : length s = (length P + length g)%nat).
    { rewrite Hs at 1. apply length_app. }
    rewrite Ht, length_app. cbn [andb]. repeat split.
    + lia.
    + intros Hlen. apply negb_false_iff, Nat.eqb_eq. lia.
    + intros Hlen. apply negb_false_iff, Nat.eqb_eq in Hlen.
      destruct P; [reflexivity|simpl in Hl; lia].
  - repeat split. lia.
Qed.

Lemma words_free_inside (bad : text -> bool) (s : text) :
  words_free bad false s = words_free bad true (drop_word s).
Proof.
  induction s as [|x s IH]; [reflexivity|].
  cbn [words_free]. destruct (white_space x) eqn:Ex.
  - unfold drop_word, non_space. simpl. rewrite Ex. simpl. rewrite Ex.
    reflexivity.
  - rewrite (drop_word_cons x s Ex). exact IH.
Qed.

Lemma words_free_word (bad : text -> bool) (x : char) (s : text) :
  white_space x = false ->
  words_free bad true (x :: s)
  = negb (bad (x :: s)) && words_free bad true (drop_word (x :: s)).
Proof.
  intros Hx. cbn [words_free]. rewrite Hx, words_free_inside.
  rewrite (drop_word_cons x s Hx). reflexivity.
Qed.

Lemma words_free_weaken (bad1 bad2 : text -> bool) (s : text) :
  forall start,
    (forall a b, s = (a ++ b)%list -> bad1 b = true -> bad2 b = true) ->
    words_free bad2 start s = true -> words_free bad1 start s = true.
Proof.
  induction s as [|x s IH]; intros start Himp; [reflexivity|].
  assert (Htail : forall a b, s = (a ++ b)%list ->
                              bad1 b = true -> bad2 b = true).
  { intros a b ->. apply (Himp (x :: a) b). reflexivity. }
  cbn [words_free]. destruct (white_space x); [apply IH, Htail|].
  rewrite !andb_true_iff. intros [Hhere Hrest]. split; [|apply IH; assumption].
  destruct start; [|reflexivity].
  apply negb_true_iff in Hhere. apply negb_true_iff.
  destruct (bad1 (x :: s)) eqn:E1; [|reflexivity].
  rewrite (Himp [] (x :: s) eq_refl E1) in Hhere. discriminate.
Qed.

(** The URL step never makes a text longer; it keeps the length exactly
    when it strips no word, and then it changes nothing. *)
Lemma url_scan (n : nat) :
  forall s prev,
    (length s <= n)%nat ->
    (length (replace_from url [Ref 3] prev s 0) <= length s)%nat
    /\ (length (replace_from url [Ref 3] prev s 0) = length s ->
        words_free stripped true s = true)
    /\ (words_free stripped true s = true ->
        replace_from url [Ref 3] prev s 0 = s).
Proof.
  induction n as [|n IH]; intros s prev Hn.
  - destruct s; [|simpl in Hn; lia].
    cbn [replace_from]. rewrite exec_url_undotted by reflexivity.
    repeat split. lia.
  - destruct s as [|x s].
    { cbn [replace_from]. rewrite exec_url_undotted by reflexivity.
      repeat split. lia. }
    destruct (white_space x) eqn:Ex.
    + rewrite (url_scan_space prev x s Ex).
      destruct (IH s (Some x)) as (Hle & Hfix & Hfree); [simpl in Hn; lia|].
      cbn [words_free]. rewrite Ex. simpl length. repeat split.
      * lia.
      * intros Hl. apply Hfix. lia.
      * intros Hw. f_equal. apply Hfree, Hw.
    + destruct (url_scan_word (x :: s) prev) as (prev' & ->).
      pose proof (word_out_length (x :: s)) as (Hwle & Hwfix & Hwfree).
      pose proof (take_drop_word (x :: s)) as Hsplit.
      pose proof (f_equal (@length char) Hsplit) as Hlen.
      rewrite length_app in Hlen.
      assert (Hshort : (length (drop_word (x :: s)) <= n)%nat).
      { rewrite (take_word_cons x s Ex) in Hlen. simpl in Hlen, Hn. lia. }
      destruct (IH (drop_word (x :: s)) prev' Hshort)
        as (Hle & Hfix & Hfree).
      rewrite (words_free_word stripped x s Ex), length_app.
      repeat split.
      * lia.
      * intros Hl. apply andb_true_iff. split.
        -- apply negb_true_iff, Hwfix. lia.
        -- apply Hfix. lia.
      * intros Hw. apply andb_true_iff in Hw. destruct Hw as [Hhere Hrest].
        apply negb_true_iff in Hhere.
        rewrite (Hwfree Hhere), (Hfree Hrest). exact Hsplit.
Qed.

(** *** Words that start with [www.] *)

Lemma double_slash_suffix (a b : text) :
  double_slash (a ++ b)%list = false -> double_slash b = false.
Proof.
  induction a as [|x a IH]; [trivial|]. intros H. apply IH.
  change ((x :: a) ++ b)%list with (x :: (a ++ b)%list) in H.
  cbn [double_slash] in H. destruct (a ++ b)%list; [reflexivity|].
  apply orb_false_iff in H. tauto.
Qed.

Lemma www_word_stripped (b : text) :
  www_word b = true -> stripped b = true.
Proof.
  unfold www_word, stripped, group3_start, strip_www.
  destruct (strip_prefix (of_string "www.") b) as [t|] eqn:Et;
    [|discriminate].
  intros Hd. pose proof (strip_prefix_app _ _ _ Et) as Hb.
  assert (Hs : after_scheme b = None) by (rewrite Hb; reflexivity).
  rewrite Hs, Hd, Hd. cbn [andb]. apply negb_true_iff, Nat.eqb_neq.
  rewrite Hb, length_app. simpl. lia.
Qed.

Lemma stripped_www_word (b : text) :
  double_slash b = false -> stripped b = true -> www_word b = true.
Proof.
  intros Hb. unfold stripped, www_word, group3_start.
  destruct (after_scheme b) as [t|] eqn:Et.
  { apply after_scheme_prefix in Et. destruct Et as (P & -> & _ & Hs).
    congruence. }
  unfold strip_www.
  destruct (strip_prefix (of_string "www.") b) as [t|].
  - destruct (dotted t) eqn:Ed; [reflexivity|].
    rewrite Nat.eqb_refl, andb_false_r. discriminate.
  - rewrite Nat.eqb_refl, andb_false_r. discriminate.
Qed.

(* ===================================================================== *)
(** ** The last steps on a normalized text                               *)
(* ===================================================================== *)

Lemma length_collapse_from (s : text) :
  forall in_run, (length (collapse_from in_run s) <= length s)%nat.
Proof.
  induction s as [|x s IH]; intros in_run; simpl; [lia|].
  pose proof (IH true). pose proof (IH false).
  destruct (white_space x); [destruct in_run|]; simpl; lia.
Qed.

Lemma space_white (c : char) : space c = true -> white_space c = true.
Proof. unfold space. rewrite N.eqb_eq. intros ->. reflexivity. Qed.

(** The collapse keeps the length only if there is nothing to
    collapse. *)
Lemma collapse_from_fixed (s : text) :
  forall in_run,
    length (collapse_from in_run s) = length s ->
    (in_run = true -> starts_clean s) /\ double_space s = false.
Proof.
  induction s as [|x s IH]; intros in_run Hlen.
  - split; [intros _; exact I|reflexivity].
  - cbn [collapse_from] in Hlen. destruct (white_space x) eqn:Ex.
    + destruct in_run.
      * pose proof (length_collapse_from s true). simpl in Hlen. lia.
      * simpl in Hlen. injection Hlen as Hlen.
        destruct (IH true Hlen) as [Hclean Hds]. split; [discriminate|].
        cbn [double_slash double_space]. destruct s as [|y s]; [reflexivity|].
        rewrite Hds, orb_false_r. specialize (Hclean eq_refl).
        simpl in Hclean. destruct (space y) eqn:Ey.
        -- apply space_white in Ey. congruence.
        -- apply andb_false_r.
    + simpl in Hlen. injection Hlen as Hlen.
      destruct (IH false Hlen) as [_ Hds]. split; [intros _; exact Ex|].
      cbn [double_space]. destruct s as [|y s]; [reflexivity|].
      rewrite Hds, orb_false_r. destruct (space x) eqn:Es; [|reflexivity].
      apply space_white in Es. congruence.
Qed.

Lemma collapse_from_normal (s : text) :
  forall in_run,
    Forall space_or_not_white s ->
    (in_run = true -> starts_clean s) ->
    double_space s = false ->
    collapse_from in_run s = s.
Proof.
  induction s as [|x s IH]; intros in_run Hs Hclean Hds; [reflexivity|].
  inversion Hs as [|x' s' Hx Hs']; subst.
  cbn [collapse_from]. destruct (white_space x) eqn:Ex.
  - destruct in_run.
    + specialize (Hclean eq_refl). simpl in Hclean. congruence.
    + rewrite (Hx Ex) in *. f_equal. apply IH; [exact Hs'| |].
      * intros _. destruct s as [|y s]; [exact I|].
        cbn [double_space] in Hds. apply orb_false_iff in Hds.
        destruct Hds as [Hy _]. simpl in Hy. simpl.
        destruct (white_space y) eqn:Ey; [|reflexivity].
        inversion Hs' as [|y' s'' Hy' _]; subst.
        rewrite (Hy' Ey) in Hy. discriminate.
      * cbn [double_space] in Hds. destruct s as [|y s]; [reflexivity|].
        apply orb_false_iff in Hds. tauto.
  - f_equal. apply IH; [exact Hs'|discriminate|].
    cbn [double_space] in Hds. destruct s as [|y s]; [reflexivity|].
    apply orb_false_iff in Hds. tauto.
Qed.

Lemma filter_allowed_fixed (s : text) :
  Forall (fun c => allowed c = true) s -> List.filter allowed s = s.
Proof.
  induction 1 as [|x s Hx _ IH]; [reflexivity|]. simpl. rewrite Hx.
  f_equal. exact IH.
Qed.

Lemma trim_normal (w : text) : normal w -> trim w = w.
Proof.
  intros (_ & _ & Hstart & Hend). unfold trim, trim_end.
  rewrite (trim_start_clean w Hstart), (trim_start_clean _ Hend).
  apply rev_involutive.
Qed.

Lemma length_trim (s : text) : (length (trim s) <= length s)%nat.
Proof.
  unfold trim, trim_end. rewrite length_rev.
  pose proof (length_trim_start (rev (trim_start s))) as H1.
  pose proof (length_trim_start s) as H2.
  rewrite length_rev in H1. lia.
Qed.

(* ===================================================================== *)
(** ** The texts that [preprocess] leaves as they are                    *)
(* ===================================================================== *)

(** What [preprocess] returns is normal. *)
Lemma preprocess_normal (content : text) : normal (preprocess content).
Proof.
  destruct content as [|x content].
  { repeat split; constructor. }
  unfold preprocess, replacements. cbv zeta. rewrite last_steps.
  split; [|split; [|apply trim_clean_ends]].
  - apply Forall_trim, filter_allowed_allowed.
  - apply Forall_trim, Forall_filter_allowed, collapse_from_spaces.
Qed.

Lemma words_free_stripped (w : text) :
  double_slash w = false ->
  words_free www_word true w = true -> words_free stripped true w = true.
Proof.
  intros Hds. apply words_free_weaken. intros a b -> Hb.
  apply stripped_www_word; [|exact Hb].
  apply (double_slash_suffix a b Hds).
Qed.

Lemma words_free_www (w : text) :
  words_free stripped true w = true -> words_free www_word true w = true.
Proof.
  apply words_free_weaken. intros a b _. apply www_word_stripped.
Qed.

(** A settled normal text is left as it is. *)
Lemma preprocess_settled (w : text) :
  normal w -> settled w = true -> preprocess w = w.
Proof.
  intros Hw Hs. unfold settled in Hs. rewrite !andb_true_iff in Hs.
  destruct Hs as [[[Hsp Hsl] Hrule] Hwww].
  apply negb_true_iff in Hsp, Hsl, Hrule.
  destruct w as [|x w]; [reflexivity|].
  unfold preprocess. set (s := x :: w) in *.
  destruct (early_steps s Hw) as (Hearly & Hmention & Htag & Hblock).
  unfold replacements. cbv zeta. rewrite Hearly.
  assert (Hurl : replace_all url [Ref 3] s = s).
  { unfold replace_all.
    apply (url_scan (length s) s None (le_n _)).
    apply words_free_stripped; assumption. }
  rewrite Hurl, Hmention, Htag.
  rewrite (replace_all_rule_normal s Hw Hrule), Hblock.
  rewrite (replace_all_line_comment s Hsl), last_steps.
  destruct Hw as (Hallowed & Hwhite & Hends).
  unfold collapse.
  rewrite (collapse_from_normal s false Hwhite ltac:(discriminate) Hsp).
  rewrite (filter_allowed_fixed s Hallowed).
  apply trim_normal. repeat split; tauto.
Qed.

(** A normal text that is left as it is, is settled. *)
Lemma preprocess_fixed (w : text) :
  normal w -> preprocess w = w -> settled w = true.
Proof.
  intros Hw Hfix. destruct w as [|x w]; [reflexivity|].
  unfold preprocess in Hfix. set (s := x :: w) in *.
  destruct (early_steps s Hw) as (Hearly & Hmention & Htag & Hblock).
  unfold replacements in Hfix. cbv zeta in Hfix.
  rewrite Hearly, last_steps in Hfix.
  set (u6 := replace_all url [Ref 3] s) in *.
  set (u7 := replace_all mention [] u6) in *.
  set (u8 := replace_all tag [] u7) in *.
  set (u9 := replace_all rule [] u8) in *.
  set (u10 := replace_all block_comment [] u9) in *.
  set (u11 := replace_all line_comment [] u10) in *.
  pose proof (f_equal (@length char) Hfix) as Hlen.
  pose proof (length_trim (List.filter allowed (collapse u11))) as L1.
  pose proof (List.filter_length_le allowed (collapse u11)) as L2.
  pose proof (length_collapse_from u11 false) as L3. fold (collapse u11) in L3.
  pose proof (length_replace_from_nil line_comment u10 None 0) as L11.
  pose proof (length_replace_from_nil block_comment u9 None 0) as L10.
  pose proof (length_replace_from_nil rule u8 None 0) as L9.
  pose proof (length_replace_from_nil tag u7 None 0) as L8.
  pose proof (length_replace_from_nil mention u6 None 0) as L7.
  destruct (url_scan (length s) s None (le_n _)) as (L6 & Hfree & Hsame).
  fold (replace_all url [Ref 3] s) in L6, Hfree, Hsame.
  fold (replace_all line_comment [] u10) in L11.
  fold (replace_all block_comment [] u9) in L10.
  fold (replace_all rule [] u8) in L9.
  fold (replace_all tag [] u7) in L8.
  fold (replace_all mention [] u6) in L7.
  fold u6 in L6, Hfree, Hsame. fold u7 in L7. fold u8 in L8. fold u9 in L9.
  fold u10 in L10. fold u11 in L11.
  assert (Hstripped : words_free stripped true s = true)
    by (apply Hfree; lia).
  assert (E6 : u6 = s) by (apply Hsame, Hstripped).
  assert (E7 : u7 = s) by (unfold u7; rewrite E6; exact Hmention).
  assert (E8 : u8 = s) by (unfold u8; rewrite E7; exact Htag).
  assert (H9 : length (replace_from rule [] None s 0) = length s).
  { fold (replace_all rule [] s). rewrite <- E8 at 1. fold u9. lia. }
  destruct (replace_from_nil_fixed rule s None H9) as [E9 Hrule].
  fold (replace_all rule [] s) in E9. rewrite <- E8 in E9 at 1. fold u9 in E9.
  assert (E10 : u10 = s) by (unfold u10; rewrite E9; exact Hblock).
  assert (H11 : length (replace_from line_comment [] None s 0) = length s).
  { fold (replace_all line_comment [] s). rewrite <- E10 at 1. fold u11. lia. }
  destruct (replace_from_nil_fixed line_comment s None H11) as [E11 Hline].
  fold (replace_all line_comment [] s) in E11.
  rewrite <- E10 in E11 at 1. fold u11 in E11.
  assert (H12 : length (collapse_from false s) = length s).
  { fold (collapse s). rewrite <- E11 at 1. lia. }
  unfold settled. rewrite !andb_true_iff. repeat split.
  - apply negb_true_iff. apply (collapse_from_fixed s false H12).
  - apply negb_true_iff. apply line_comment_fixed. exact Hline.
  - apply negb_true_iff. destruct (rule_line s) eqn:Er; [|reflexivity].
    destruct (exec_rule_line s Er) as (rest & c & He & Hlt).
    specialize (Hrule [] s rest c eq_refl He). lia.
  - apply words_free_www, Hstripped.
Qed.

(** C7, as amended: [preprocess] is a function of its argument alone, and
    applying it twice gives the same as applying it once exactly when the
    text it returns is settled, which is to say that this text has no two
    spaces in a row, does not contain [//], is not made of three or more
    of the characters [-] and [_] only, and has no word that is [www.]
    followed by a rest with a dot strictly inside the word. *)
Theorem preprocess_idempotent_iff_settled (x : text) :
  preprocess (preprocess x) = preprocess x
  <-> settled (preprocess x) = true.
Proof.
  pose proof (preprocess_normal x) as Hw. split.
  - apply preprocess_fixed, Hw.
  - apply preprocess_settled, Hw.
Qed.

(** C7, as the specification has it, fails in four ways, each through a
    character that is dropped only in the last replacement: two spaces
    are left where one stood between them, [//] is left and is a line
    comment for the second application, a second [www.] is left at the
    start of a word, and a horizontal rule is left. *)
Lemma preprocess_not_idempotent :
  (preprocess (of_string "a ! b") = of_string "a  b"
   /\ preprocess (of_string "a  b") = of_string "a b")
  /\ (preprocess (of_string "x /!/ y") = of_string "x // y"
      /\ preprocess (of_string "x // y") = of_string "x")
  /\ (preprocess (of_string "www.www.a.b") = of_string "www.a.b"
      /\ preprocess (of_string "www.a.b") = of_string "a.b")
  /\ (preprocess (of_string "-!--") = of_string "---"
      /\ preprocess (of_string "---") = []).
Proof. repeat split; vm_compute; reflexivity. Qed.

Lemma preprocess_settled_witness :
  preprocess
    (of_string "Hello, world. See v1.2 of a-b_c at docs/index.html?x=1&y=2")
  = of_string "Hello world. See v1.2 of a-b_c at docs/index.html?x=1&y=2"
  /\ preprocess
       (preprocess
          (of_string
             "Hello, world. See v1.2 of a-b_c at docs/index.html?x=1&y=2"))
     = preprocess
         (of_string
            "Hello, world. See v1.2 of a-b_c at docs/index.html?x=1&y=2").
Proof.
  split; [vm_compute; reflexivity|].
  apply (proj2 (preprocess_idempotent_iff_settled
                  (of_string
                     "Hello, world. See v1.2 of a-b_c at docs/index.html?x=1&y=2"))).
  vm_compute. reflexivity.
Defined.

End PreprocessFacts.
